(** * gmadet: astrometric calibration adapter and catalogue cross-check

    A shallow embedding of [astrometric_calib], [sextractor],
    [select_good_stars] and [crosscheck_with_catalogues] of
    [gmadet/gmadet.py], and of [psfex] of [gmadet/psfex.py].

    Conventions of the embedding.
    - Python [float] and NumPy [float64] are IEEE binary64: Rocq's primitive
      [float], whose operations round to nearest-even as the C doubles do.
    - Python [int] is [Z]; [str] is [string] (one character per byte).  An
      [int] is converted to the nearest double; one beyond the range of
      binary64 becomes an infinity here, where Python raises [OverflowError].
    - A raised exception is the [Raise] outcome of [result]; the class that
      Python raises is kept ([UnboundLocalError] is a [NameError]).
    - What the two functions call outside [gmadet.py] is a parameter of the
      sections that use it: [astrometry.scamp], [catalogues.run_xmatch],
      [fits.getheader] and [ascii.read].  [utils.mkdir_p] and
      [utils.cut_image] only write files and are left out.
    - [print] is output only and is left out, apart from the exceptions that
      evaluating its arguments raises.
    - Columns of a table are typed: positions, sky coordinates and
      magnitudes are [float], [idx] is [int]; a header card read here is a
      number.  A table read from a file without rows has its columns typed
      by astropy as integers, which [vstack] refuses to stack with the text
      columns of a table that has rows. *)

From Stdlib Require Import ZArith Floats Ascii String DecimalString DecimalZ Lia.
From stdpp Require Import gmap strings list sorting.

Local Open Scope Z_scope.
Set Warnings "-inexact-float".

(** ** Python runtime *)

Inductive exn :=
| KeyError | NameError | ValueError | IndexError | ZeroDivisionError
| OverflowError | OSError
| OutOfFuel (* not a Python exception: a loop of the model used up its fuel *).

Inductive result (A : Type) :=
| Ok (a : A)
| Raise (e : exn).
Arguments Ok {A} a.
Arguments Raise {A} e.

#[global] Instance result_ret : MRet result := @Ok.
#[global] Instance result_bind : MBind result :=
  λ A B f m, match m with Ok a => f a | Raise e => Raise e end.

(** [for x in xs: s = body x s], stopping at the first exception. *)
Fixpoint for_ {A St} (xs : list A) (body : A → St → result St) (s : St)
  : result St :=
  match xs with
  | [] => Ok s
  | x :: xs' => s' ← body x s; for_ xs' body s'
  end.

(** [range(n)] *)
Definition range (n : Z) : list Z := seqZ 0 n.

(** *** Numbers *)

(** [float(n)] for an [int]: the nearest double. *)
Definition float_of_Z (z : Z) : float :=
  SF2Prim (binary_normalize prec emax z 0 false).

(** [int(x)] for a [float]: truncation towards zero. *)
Definition int_of_float (f : float) : result Z :=
  match Prim2SF f with
  | S754_zero _ => Ok 0
  | S754_finite s m e =>
      let a := if 0 <=? e then Z.shiftl (Z.pos m) e else Z.shiftr (Z.pos m) (- e) in
      Ok (if s then - a else a)
  | S754_infinity _ => Raise OverflowError
  | S754_nan => Raise ValueError
  end.

(** [x / n] for a [float] and an [int]. *)
Definition float_div_int (x : float) (n : Z) : result float :=
  if n =? 0 then Raise ZeroDivisionError else Ok (x / float_of_Z n)%float.

(** *** Strings *)

Definition is_char (c d : ascii) : bool := Ascii.eqb c d.

(** [s.split(sep)] for a one-character separator. *)
Fixpoint str_split (sep : ascii) (s : string) : list string :=
  match s with
  | EmptyString => [EmptyString]
  | String c s' =>
      if is_char c sep then EmptyString :: str_split sep s'
      else match str_split sep s' with
           | [] => [String c EmptyString]
           | p :: ps => String c p :: ps
           end
  end.

(** ['%d' % n] *)
Definition fmt_d (n : Z) : string := NilEmpty.string_of_int (Z.to_int n).

Definition is_space (c : ascii) : bool :=
  let n := nat_of_ascii c in
  (n =? 32)%nat || ((9 <=? n)%nat && (n <=? 13)%nat).

Fixpoint lstrip (s : string) : string :=
  match s with
  | String c s' => if is_space c then lstrip s' else s
  | EmptyString => EmptyString
  end.

Fixpoint rstrip (s : string) : string :=
  match s with
  | EmptyString => EmptyString
  | String c s' =>
      match rstrip s' with
      | EmptyString => if is_space c then EmptyString else String c EmptyString
      | r => String c r
      end
  end.

(** [int(s)] for a [str]: surrounding white space, an optional sign, and a
    non-empty run of ASCII digits.  (Digit-group underscores and non-ASCII
    digits are not modelled; the strings parsed here come out of
    [split('_')] of a label, which leaves no underscore.) *)
Definition int_of_str (s : string) : result Z :=
  let s := rstrip (lstrip s) in
  let '(neg, body) :=
    match s with
    | String "-" r => (true, r)
    | String "+" r => (false, r)
    | _ => (false, s)
    end in
  match body with
  | EmptyString => Raise ValueError
  | _ =>
      match NilEmpty.uint_of_string body with
      | Some d => Ok (if neg then - Z.of_uint d else Z.of_uint d)
      | None => Raise ValueError
      end
  end.

(** [s[:-k]] for [k > 0] *)
Definition drop_last (k : nat) (s : string) : string :=
  substring 0 (String.length s - k) s.

(** [posixpath.split]: the path up to the last slash (trailing slashes
    removed unless it consists of slashes only) and what follows it. *)
Fixpoint rsplit_slash (p : string) : option string * string :=
  match p with
  | EmptyString => (None, EmptyString)
  | String c p' =>
      match rsplit_slash p' with
      | (Some h, t) => (Some (String c h), t)
      | (None, t) =>
          if is_char c "/" then (Some (String c EmptyString), t)
          else (None, String c t)
      end
  end.

Fixpoint all_slashes (s : string) : bool :=
  match s with
  | EmptyString => true
  | String c s' => is_char c "/" && all_slashes s'
  end.

Fixpoint rstrip_slash (s : string) : string :=
  match s with
  | EmptyString => EmptyString
  | String c s' =>
      match rstrip_slash s' with
      | EmptyString => if is_char c "/" then EmptyString else String c EmptyString
      | r => String c r
      end
  end.

Definition os_path_split (p : string) : string * string :=
  let '(h, tail) := rsplit_slash p in
  let head := default EmptyString h in
  (if all_slashes head then head else rstrip_slash head, tail).

(** The three names every function of the module derives from a path:
    [folder], the name up to its first dot, and the rest as [extension]. *)
Definition folder_of (path : string) : string :=
  match path with
  | EmptyString => EmptyString
  | _ => path +:+ "/"
  end.

Definition stem_of (filename_ext : string) : string :=
  default EmptyString (head (str_split "." filename_ext)).

Definition extension_of (filename_ext : string) : string :=
  foldl (λ extension ext, extension +:+ "." +:+ ext) EmptyString
        (tail (str_split "." filename_ext)).

(** ** FITS headers *)

(** The value of a numeric header card, as [astropy] hands it over. *)
Inductive card :=
| CInt (n : Z)
| CFloat (x : float).

(** [abs(v)] *)
Definition card_abs (v : card) : card :=
  match v with
  | CInt n => CInt (Z.abs n)
  | CFloat x => CFloat (abs x)
  end.

(** [float(v)], also the conversion of [v] in arithmetic with a [float] *)
Definition card_float (v : card) : float :=
  match v with
  | CInt n => float_of_Z n
  | CFloat x => x
  end.

(** [header[key]] *)
Definition header_get (header : gmap string card) (key : string) : result card :=
  match header !! key with
  | Some v => Ok v
  | None => Raise KeyError
  end.

(** The nested [try] that reads the pixel scale.  [pixScale] is the local
    variable, [None] while it is unbound; when no key is found the innermost
    handler prints a message and the variable keeps what it had. *)
Definition read_pixScale (header : gmap string card) (pixScale : option card)
  : option card :=
  match header !! "CDELT1" with
  | Some v => Some (card_abs v)
  | None =>
      match header !! "_DELT1" with
      | Some v => Some (card_abs v)
      | None =>
          match header !! "CD1_1" with
          | Some v => Some (card_abs v)
          | None => pixScale
          end
      end
  end.

(** ** [astrometric_calib] *)

(** ['Q%d_%d_%d' % (index, i, j)] *)
Definition quadrant_label (index i j : Z) : string :=
  "Q" +:+ fmt_d index +:+ "_" +:+ fmt_d i +:+ "_" +:+ fmt_d j.

(** [resultDir + filename2 + "_Q%d" % (index) + extension] *)
Definition quadrant_file (resultDir filename2 extension : string) (index : Z)
  : string :=
  resultDir +:+ filename2 +:+ "_Q" +:+ fmt_d index +:+ extension.

Section astrometric_calib.

(** The state of what lies outside the programme (the files scamp rewrites),
    and one run of [scamp] on a file: the residual it reports. *)
Context {W : Type}.
Variable scamp : string → W → float * W.
(** [fits.getheader] *)
Variable getheader : string → result (gmap string card).

(** The world together with the log of the files scamp was run on. *)
Record solver_state := {
  world : W;
  scamp_runs : list string;
}.

Definition run_scamp (filein : string) (st : solver_state) : float * solver_state :=
  let '(doffset, w) := scamp filein (world st) in
  (doffset, {| world := w; scamp_runs := scamp_runs st ++ [filein] |}).

(** [while (doffset >= accuracy) and (ii <= itermax): ii += 1; doffset = scamp(...)]
    [None] when the fuel runs out before the condition fails. *)
Fixpoint scamp_while (fuel : nat) (filein : string) (accuracy : float)
    (itermax : Z) (ii : Z) (doffset : float) (st : solver_state)
  : option (Z * float * solver_state) :=
  if (accuracy <=? doffset)%float && (ii <=? itermax) then
    match fuel with
    | O => None
    | S fuel' =>
        let ii := ii + 1 in
        let '(doffset, st) := run_scamp filein st in
        scamp_while fuel' filein accuracy itermax ii doffset st
    end
  else Some (ii, doffset, st).

(** [ii=0; doffset = 10; while ...] on one file *)
Definition scamp_until (filein : string) (accuracy : float) (itermax : Z)
    (st : solver_state) : result solver_state :=
  match scamp_while (Z.to_nat (itermax + 1)) filein accuracy itermax 0 10 st with
  | Some (_, _, st') => Ok st'
  | None => Raise OutOfFuel
  end.

(** The local variables of the loops over the grid. *)
Record cells := {
  index : Z;
  filelist : list string;
  quadrant : list string;
  solver : solver_state;
}.

Definition scamp_cell (resultDir filename2 extension : string)
    (accuracy : float) (itermax : Z) (i j : Z) (s : cells) : result cells :=
  let index := index s + 1 in
  let filein := quadrant_file resultDir filename2 extension index in
  let filelist := filelist s ++ [filein] in
  st ← scamp_until filein accuracy itermax (solver s);
  Ok {| index := index; filelist := filelist;
        quadrant := quadrant s ++ [quadrant_label index i j];
        solver := st |}.

(** [asrometrynet(filein, ...)]: the name is not defined in the module. *)
Definition astrometrynet_cell (resultDir filename2 extension : string)
    (i j : Z) (s : cells) : result cells :=
  let index := index s + 1 in
  let filein := quadrant_file resultDir filename2 extension index in
  let filelist := filelist s ++ [filein] in
  Raise NameError.

Definition grid_loop (Nb_cuts : Z * Z) (cell : Z → Z → cells → result cells)
    (s : cells) : result cells :=
  for_ (range Nb_cuts.1) (λ i s, for_ (range Nb_cuts.2) (λ j s, cell i j s) s) s.

(** The image table: one row [(filenames, quadrant)] per file. *)
Definition image_table_of (s : cells) : list (string * string) :=
  zip (filelist s) (quadrant s).

(** [astrometric_calib(filename, config, Nb_cuts, soft, outputDir, accuracy,
    itermax, verbose)].  [mkdir_p] and [cut_image] write files only; the
    arguments handed to [astrometrynet] are not computed, only the
    exceptions their computation raises. *)
Definition astrometric_calib (filename : string) (Nb_cuts : Z * Z)
    (soft outputDir : string) (accuracy : float) (itermax : Z) (w : W)
  : result (list (string * string) * solver_state) :=
  let doAstrometry :=
    bool_decide (soft ∈ ["scamp"; "astrometrynet"]) in
  let '(path, filename_ext) := os_path_split filename in
  let filename2 := stem_of filename_ext in
  let extension := extension_of filename_ext in
  let folder := folder_of path in
  let resultDir := folder +:+ outputDir in
  let s0 := {| index := 0; filelist := []; quadrant := [];
               solver := {| world := w; scamp_runs := [] |} |} in
  s ←
    (if doAstrometry then
       if bool_decide (soft = "scamp") then
         if (1 <? Nb_cuts.1) || (1 <? Nb_cuts.2) then
           grid_loop Nb_cuts
             (scamp_cell resultDir filename2 extension accuracy itermax) s0
         else
           let file := resultDir +:+ filename2 +:+ extension in
           st ← scamp_until file accuracy itermax (solver s0);
           Ok {| index := index s0; filelist := filelist s0 ++ [file];
                 quadrant := quadrant s0 ++ ["None"]; solver := st |}
       else
         header ← getheader filename;
         match read_pixScale header None with
         | None => Raise NameError
         | Some pixScale =>
             _ ← header_get header "NAXIS1";
             _ ← header_get header "NAXIS2";
             if (1 <? Nb_cuts.1) || (1 <? Nb_cuts.2) then
               grid_loop Nb_cuts
                 (astrometrynet_cell resultDir filename2 extension) s0
             else
               let file := resultDir +:+ filename2 +:+ extension in
               Ok {| index := index s0; filelist := filelist s0 ++ [file];
                     quadrant := quadrant s0 ++ ["None"]; solver := solver s0 |}
         end
     else
       let file := resultDir +:+ filename2 +:+ extension in
       Ok {| index := index s0; filelist := filelist s0 ++ [file];
             quadrant := quadrant s0 ++ ["None"]; solver := solver s0 |});
  Ok (image_table_of s, solver s).

End astrometric_calib.

(** ** Tables of [crosscheck_with_catalogues] *)

(** A row of a [.magwcs] file, read with the seven column names
    [Xpos, Ypos, _RAJ2000, _DEJ2000, mag_inst, mag_inst_err, filenames]. *)
Record magwcs_row := {
  m_Xpos : float;
  m_Ypos : float;
  m_RAJ2000 : float;
  m_DEJ2000 : float;
  m_mag_inst : float;
  m_mag_inst_err : float;
  m_filenames : string;
}.

(** A row of [detected_sources]: the columns read, with the columns
    [quadrant], [Xpos_quad] and [Ypos_quad] the loop adds. *)
Record source := {
  Xpos : float;
  Ypos : float;
  RAJ2000 : float;
  DEJ2000 : float;
  mag_inst : float;
  mag_inst_err : float;
  filenames : string;
  row_quadrant : string;
  Xpos_quad : float;
  Ypos_quad : float;
}.

(** A row of [candidates]: a source and the column [idx]. *)
Record candidate := {
  row : source;
  idx : Z;
}.

(** What the function does to the outside, in order. *)
Inductive event :=
| Query (catalog : string) (candidates : list candidate) (radius : float)
    (* [run_xmatch(candidates, catalog, radius)] *)
| WriteTable (path : string) (candidates : list candidate)
    (* [candidates.write(path, ...)] *)
| WriteRADEC (path : string) (oc : list (float * float))
    (* [candidates['_RAJ2000', '_DEJ2000'].write(path, ...)] *).

Definition cat_dict : gmap string string :=
  list_to_map [("I/284/out", "USNO-B1"); ("I/345/gaia2", "GAIA DR2");
               ("II/349/ps1", "PS1 DR1"); ("I/271/out", "GSC")].

(** *** The name of the field *)

(** The [if]/[elif] that sets the local [idx] from the piece after the last
    underscore; with another length [idx] keeps what it had ([None]: unbound). *)
Definition strip_length (filename2 : string) (idx : option nat) : option nat :=
  let split_file := str_split "_" filename2 in
  let n := String.length (default EmptyString (last split_file)) in
  if (n =? 2)%nat then Some 3%nat
  else if (n =? 3)%nat then Some 4%nat
  else idx.

(** [original_name], with the new binding of [idx] *)
Definition original_name_of (Nb_cuts : Z * Z) (folder filename2 : string)
    (idx : option nat) : result (string * option nat) :=
  if bool_decide (Nb_cuts = (1, 1)) then Ok (folder +:+ filename2, idx)
  else
    match strip_length filename2 idx with
    | Some k => Ok (folder +:+ drop_last k filename2, Some k)
    | None => Raise NameError
    end.

(** *** The position in the original image *)

(** [index_i] and [index_j] are the [int] 0 or pieces of the label. *)
Inductive pyval :=
| VInt (n : Z)
| VStr (s : string).

(** [int(v)] *)
Definition py_int (v : pyval) : result Z :=
  match v with
  | VInt n => Ok n
  | VStr s => int_of_str s
  end.

(** [quad, index_i, index_j = label.split('_')] *)
Definition unpack_label (label : string) : result (pyval * pyval) :=
  match str_split "_" label with
  | [quad; index_i; index_j] => Ok (VStr index_i, VStr index_j)
  | _ => Raise ValueError
  end.

(** [Naxis11] and [Naxis22]: the two axis lengths of the original image,
    each divided by its entry of [Nb_cuts] and truncated. *)
Definition quadrant_size (header2 : gmap string card) (Nb_cuts : Z * Z)
  : result (Z * Z) :=
  v1 ← header_get header2 "NAXIS1";
  let Naxis1 := card_float v1 in
  v2 ← header_get header2 "NAXIS2";
  let Naxis2 := card_float v2 in
  q1 ← float_div_int Naxis1 Nb_cuts.1;
  Naxis11 ← int_of_float q1;
  q2 ← float_div_int Naxis2 Nb_cuts.2;
  Naxis22 ← int_of_float q2;
  Ok (Naxis11, Naxis22).

(** What is added to [Xpos] and to [Ypos]: [Naxis22 * int(index_j)] and
    [Naxis11 * int(index_i)]. *)
Definition quadrant_offset (header2 : gmap string card) (Nb_cuts : Z * Z)
    (label : string) : result (Z * Z) :=
  '(Naxis11, Naxis22) ← quadrant_size header2 Nb_cuts;
  '(index_i, index_j) ←
     (if bool_decide (Nb_cuts = (1, 1)) then Ok (VInt 0, VInt 0)
      else unpack_label label);
  j ← py_int index_j;
  i ← py_int index_i;
  Ok (Naxis22 * j, Naxis11 * i).

(** One row of [detected_sources] after the four assignments to [Xpos],
    [Xpos_quad], [Ypos] and [Ypos_quad]. *)
Definition place (label : string) (off : Z * Z) (r : magwcs_row) : source :=
  let Xpos := (m_Xpos r + float_of_Z off.1)%float in
  let Ypos := (m_Ypos r + float_of_Z off.2)%float in
  {| Xpos := Xpos; Ypos := Ypos;
     RAJ2000 := m_RAJ2000 r; DEJ2000 := m_DEJ2000 r;
     mag_inst := m_mag_inst r; mag_inst_err := m_mag_inst_err r;
     filenames := m_filenames r; row_quadrant := label;
     Xpos_quad := Xpos; Ypos_quad := Ypos |}.

(** *** One catalogue *)

(** [np.unique] of an integer column: sorted, without repetition *)
Definition np_unique (l : list Z) : list Z := merge_sort Z.le (remove_dups l).

(** The position an index [i] denotes in an array of length [n]. *)
Definition np_index (n : nat) (i : Z) : result nat :=
  if (0 <=? i) && (i <? Z.of_nat n) then Ok (Z.to_nat i)
  else if (- Z.of_nat n <=? i) && (i <? 0) then Ok (Z.to_nat (i + Z.of_nat n))
  else Raise IndexError.

(** [flag[referenced] = 1] *)
Fixpoint set_flags (flag : list Z) (referenced : list Z) : result (list Z) :=
  match referenced with
  | [] => Ok flag
  | i :: referenced' =>
      p ← np_index (length flag) i;
      set_flags (<[p := 1]> flag) referenced'
  end.

(** [candidates[flag == 0]]: the rows at the positions where the mask holds *)
Fixpoint select_unflagged (candidates : list candidate) (flag : list Z)
  : list candidate :=
  match candidates, flag with
  | c :: candidates', f :: flag' =>
      if bool_decide (f = 0) then c :: select_unflagged candidates' flag'
      else select_unflagged candidates' flag'
  | _, _ => []
  end.

(** [t['idx'] = np.arange(len(t))] *)
Definition set_idx (t : list source) : list candidate :=
  imap (λ k r, {| row := r; idx := Z.of_nat k |}) t.

(** The body of the loop over the catalogues, from the flag array to the
    new indices; [crossmatch_idx] is the column [crossmatch['idx']]. *)
Definition catalog_pass (candidates : list candidate) (crossmatch_idx : list Z)
  : result (list candidate) :=
  let flag := replicate (length candidates) 0 in
  let referenced_star_idx := np_unique crossmatch_idx in
  flag ← set_flags flag referenced_star_idx;
  let candidates := select_unflagged candidates flag in
  Ok (set_idx (row <$> candidates)).

(** [np.unique(l)[0]] for a list of [str]: the least one. *)
Definition np_unique_first (l : list string) : result string :=
  match l with
  | [] => Raise IndexError
  | x :: l' => Ok (foldl (λ m y, if String.ltb y m then y else m) x l')
  end.

(** [for i, x in enumerate(xs)], counting from [i]. *)
Fixpoint for_enumerate {A St} (i : nat) (xs : list A)
    (body : nat → A → St → result St) (s : St) : result St :=
  match xs with
  | [] => Ok s
  | x :: xs' => s' ← body i x s; for_enumerate (S i) xs' body s'
  end.

(** ** [crosscheck_with_catalogues] *)

Section crosscheck_with_catalogues.

(** [fits.getheader] and [ascii.read] on the files of the disk, and the
    column [idx] of the table the XMatch service answers with. *)
Variable getheader : string → result (gmap string card).
Variable ascii_read : string → result (list magwcs_row).
Variable run_xmatch : list candidate → string → float → list Z.

(** The local variables that outlive an iteration of the loop over the
    image table ([None]: not bound yet). *)
Record merge_locals := {
  transients_out_list : list string;
  pixScale : option card;
  strip_idx : option nat;
  folder : option string;
  filename2 : option string;
  detected_sources_tot : option (list source);
}.

Definition merge_init : merge_locals :=
  {| transients_out_list := []; pixScale := None; strip_idx := None;
     folder := None; filename2 := None; detected_sources_tot := None |}.

(** [vstack([detected_sources_tot, detected_sources])].  The columns of a
    table read from a file without rows are typed [int64], the column
    [filenames] among them, and the column [quadrant] added to it is typed
    [float64]; in a table with rows both hold [str].  Stacking a table without
    rows and one with rows raises [TableMergeError], a [ValueError]. *)
Definition vstack (detected_sources_tot detected_sources : list source)
  : result (list source) :=
  match detected_sources_tot, detected_sources with
  | [], _ :: _ | _ :: _, [] => Raise ValueError
  | _, _ => Ok (detected_sources_tot ++ detected_sources)
  end.

(** The body of [for i, filename in enumerate(image_table['filenames'])];
    [entry] is the row [i] of the image table. *)
Definition merge_file (Nb_cuts : Z * Z) (i : nat) (entry : string * string)
    (s : merge_locals) : result merge_locals :=
  let '(filename, label) := entry in
  let '(path, filename_ext) := os_path_split filename in
  let folder := folder_of path in
  let filename2 := stem_of filename_ext in
  let extension := extension_of filename_ext in
  let magfilewcs := folder +:+ filename2 +:+ ".magwcs" in
  '(original_name, idx) ← original_name_of Nb_cuts folder filename2 (strip_idx s);
  let transients_out_list := transients_out_list s ++ [original_name +:+ ".oc"] in
  header ← getheader filename;
  let pixScale := read_pixScale header (pixScale s) in
  detected_sources ← ascii_read magfilewcs;
  header2 ← getheader (original_name +:+ extension);
  off ← quadrant_offset header2 Nb_cuts label;
  let detected_sources := place label off <$> detected_sources in
  detected_sources_tot ←
    match i with
    | O => Ok detected_sources
    | _ =>
        match detected_sources_tot s with
        | Some tot => vstack tot detected_sources
        | None => Raise NameError
        end
    end;
  Ok {| transients_out_list := transients_out_list; pixScale := pixScale;
        strip_idx := idx; folder := Some folder; filename2 := Some filename2;
        detected_sources_tot := Some detected_sources_tot |}.

Definition merge_loop (image_table : list (string * string)) (Nb_cuts : Z * Z)
  : result merge_locals :=
  for_enumerate 0 image_table (merge_file Nb_cuts) merge_init.

(** [radius*pixScale*3600] *)
Definition crossmatch_radius (radius : float) (pixScale : card) : float :=
  (radius * card_float pixScale * 3600)%float.

(** [for catalog in catalogs: ...], with the queries it sends. *)
Fixpoint catalog_loop (radius : float) (pixScale : card) (catalogs : list string)
    (candidates : list candidate) : list event * result (list candidate) :=
  match catalogs with
  | [] => ([], Ok candidates)
  | catalog :: catalogs' =>
      let crossmatch := run_xmatch candidates catalog (crossmatch_radius radius pixScale) in
      let query := Query catalog candidates (crossmatch_radius radius pixScale) in
      match catalog_pass candidates crossmatch with
      | Raise e => ([query], Raise e)
      | Ok candidates =>
          match cat_dict !! catalog with
          | None => ([query], Raise KeyError)
          | Some _ =>
              if bool_decide (length candidates = 0%nat) then ([query], Ok candidates)
              else
                let '(queries, r) := catalog_loop radius pixScale catalogs' candidates in
                (query :: queries, r)
          end
      end
  end.

(** The two files written after the loop. *)
Definition write_candidates (s : merge_locals) (candidates : list candidate)
  : result (list event) :=
  transients ← np_unique_first (transients_out_list s);
  match folder s, filename2 s with
  | Some folder, Some filename2 =>
      Ok [WriteTable transients candidates;
          WriteRADEC (folder +:+ filename2 +:+ "_oc_RADEC")
            ((λ c, (RAJ2000 (row c), DEJ2000 (row c))) <$> candidates)]
  | _, _ => Raise NameError
  end.

(** [crosscheck_with_catalogues(image_table, radius, catalogs, Nb_cuts)]:
    the events in order, and the table returned or the exception raised.
    Attaching the unit [u.deg] to the two sky columns changes no number. *)
Definition crosscheck_with_catalogues (image_table : list (string * string))
    (radius : float) (catalogs : list string) (Nb_cuts : Z * Z)
  : list event * result (list candidate) :=
  match merge_loop image_table Nb_cuts with
  | Raise e => ([], Raise e)
  | Ok s =>
      match detected_sources_tot s with
      | None => ([], Raise NameError)
      | Some detected_sources_tot =>
          let candidates := set_idx detected_sources_tot in
          match pixScale s with
          | None => ([], Raise NameError)
          | Some pixScale =>
              match catalog_loop radius pixScale catalogs candidates with
              | (queries, Raise e) => (queries, Raise e)
              | (queries, Ok candidates) =>
                  match write_candidates s candidates with
                  | Raise e => (queries, Raise e)
                  | Ok writes => (queries ++ writes, Ok candidates)
                  end
              end
          end
      end
  end.

End crosscheck_with_catalogues.

(** ** The other steps of the pipeline *)

(** *** More of the Python runtime *)

(** [l[i]] for a list and an index [i >= 0] *)
Definition list_item {A} (l : list A) (i : nat) : result A :=
  match l !! i with
  | Some x => Ok x
  | None => Raise IndexError
  end.

(** [config[section][key]] for the configuration, a [dict] of [dict]s *)
Definition config_get (config : gmap string (gmap string string))
    (section key : string) : result string :=
  match config !! section with
  | None => Raise KeyError
  | Some entries =>
      match entries !! key with
      | Some v => Ok v
      | None => Raise KeyError
      end
  end.

(** The ASCII characters for which [str.isspace] holds: tab to carriage
    return, the four separators 28 to 31, and the space. *)
Definition py_isspace (c : ascii) : bool :=
  let n := nat_of_ascii c in
  ((9 <=? n)%nat && (n <=? 13)%nat) || ((28 <=? n)%nat && (n <=? 32)%nat).

(** [s.split()]: the maximal runs of characters that are not white space.
    (Text is taken to be ASCII, as IRAF writes it.) *)
Fixpoint split_ws (s : string) : list string :=
  match s with
  | EmptyString => []
  | String c s' =>
      if py_isspace c then split_ws s'
      else
        match s' with
        | EmptyString => [String c EmptyString]
        | String d _ =>
            if py_isspace d then String c EmptyString :: split_ws s'
            else
              match split_ws s' with
              | w :: ws => String c w :: ws
              | [] => [String c EmptyString]
              end
        end
  end.

(** The lines of a text, each with the newline that ends it: what the
    successive calls of [readline] return before the end of the file.  (The
    text is the one Python hands over, where every line end is ["\n"].) *)
Fixpoint readlines (content : string) : list string :=
  match content with
  | EmptyString => []
  | String c rest =>
      if is_char c "010" then String c EmptyString :: readlines rest
      else
        match readlines rest with
        | [] => [String c EmptyString]
        | l :: ls => String c l :: ls
        end
  end.

(** [s.rfind(c)], [None] for -1 *)
Fixpoint rfind (c : ascii) (s : string) : option nat :=
  match s with
  | EmptyString => None
  | String d s' =>
      match rfind c s' with
      | Some k => Some (S k)
      | None => if is_char d c then Some 0%nat else None
      end
  end.

(** [posixpath.splitext(p)]: [p] is cut at its last dot when that dot comes
    after the last slash and after a character of the last component that is
    not a dot. *)
Definition os_path_splitext (p : string) : string * string :=
  let sepIndex := match rfind "/" p with Some k => Z.of_nat k | None => -1 end in
  let dotIndex := match rfind "." p with Some k => Z.of_nat k | None => -1 end in
  if (sepIndex <? dotIndex)
     && existsb (λ k, match get k p with
                      | Some ch => negb (is_char ch ".")
                      | None => false
                      end)
          (seq (Z.to_nat (sepIndex + 1)) (Z.to_nat (dotIndex - (sepIndex + 1))))
  then (substring 0 (Z.to_nat dotIndex) p,
        substring (Z.to_nat dotIndex) (String.length p - Z.to_nat dotIndex) p)
  else (p, EmptyString).

(** ** [sextractor] *)

Section sextractor.

(** The values of [FWHM_list] and [thresh], with [str] on them. *)
Context {V : Type}.
Variable py_str : V → string.

(** The argument list of the [subprocess.call] for the file at position [i];
    its items are evaluated from left to right. *)
Definition sextractor_argv (FWHM_list : list V) (thresh : V)
    (config : gmap string (gmap string string)) (verbose : string)
    (i : nat) (filename : string) : result (list string) :=
  let '(path, filename_ext) := os_path_split filename in
  let folder := folder_of path in
  let filename2 := stem_of filename_ext in
  conf ← config_get config "sextractor" "conf";
  fwhm ← list_item FWHM_list i;
  param ← config_get config "sextractor" "param";
  Ok ["sex"; "-c"; conf; filename;
      "-SEEING_FWHM"; py_str fwhm;
      "-DETECT_THRESH"; py_str thresh;
      "-PARAMETERS_NAME"; param;
      "-CHECKIMAGE_TYPE"; "SEGMENTATION";
      "-CHECKIMAGE_NAME"; folder +:+ filename2 +:+ "_segmentation.fits";
      "-VERBOSE_TYPE"; verbose;
      "-CATALOG_NAME"; folder +:+ filename2 +:+ "_SourcesDet.cat"].

(** [for i, filename in enumerate(filelist)], counting from [i]: the
    commands run, in order, and how the loop ends. *)
Fixpoint sextractor_loop (FWHM_list : list V) (thresh : V)
    (config : gmap string (gmap string string)) (verbose : string)
    (i : nat) (filelist : list string) : list (list string) * result unit :=
  match filelist with
  | [] => ([], Ok tt)
  | filename :: filelist' =>
      match sextractor_argv FWHM_list thresh config verbose i filename with
      | Raise e => ([], Raise e)
      | Ok argv =>
          let '(calls, r) :=
            sextractor_loop FWHM_list thresh config verbose (S i) filelist' in
          (argv :: calls, r)
      end
  end.

(** [sextractor(filelist, FWHM_list, thresh, telescope, config, verbose)] *)
Definition sextractor (filelist : list string) (FWHM_list : list V) (thresh : V)
    (telescope : string) (config : gmap string (gmap string string))
    (verbose : string) : list (list string) * result unit :=
  sextractor_loop FWHM_list thresh config verbose 0 filelist.

End sextractor.

(** ** [psfex] *)

(** What [psfex] does to the outside. *)
Inductive psfex_event :=
| Subprocess_call (argv : list string)
| Mv_p (src dst : string)
| Rm_p (path : string).

Section psfex.

(** [float(s)] for a [str] *)
Variable py_float : string → result float.
(** The cells [doc['VOTABLE']...['TR']['TD']] of the [psfex.xml] that the
    two programmes leave for an image, or the exception that opening the
    file, parsing it or walking down to the cells raises. *)
Variable psfex_xml_TD : string → result (list string).

(** The body of the loop for one image: the events, and the mean FWHM. *)
Definition psfex_image (config : gmap string (gmap string string))
    (useweight : bool) (ima : string) : list psfex_event * result float :=
  let root := (os_path_splitext ima).1 in
  match
    (sex_conf ← config_get config "psfex" "sextractor";
     param ← config_get config "psfex" "param";
     Ok (if useweight
         then ["sex"; ima; "-c"; sex_conf;
               "-WEIGHT_IMAGE"; root +:+ ".weight.fits";
               "-PARAMETERS_NAME"; param]
         else ["sex"; ima; "-c"; sex_conf; "-PARAMETERS_NAME"; param]))
  with
  | Raise e => ([], Raise e)
  | Ok sex_argv =>
      let cat := "preppsfex.cat" in
      match config_get config "psfex" "conf" with
      | Raise e => ([Subprocess_call sex_argv], Raise e)
      | Ok conf =>
          let before :=
            [Subprocess_call sex_argv;
             Subprocess_call ["psfex"; cat; "-c"; conf];
             Mv_p "snap_preppsfex.fits" (root +:+ "_psf.fits"); Rm_p cat] in
          match
            (TD ← psfex_xml_TD ima;
             let FWHM_stats := take 3 (drop 20 TD) in
             FHWM_min ← list_item FWHM_stats 0 ≫= py_float;
             FHWM_mean ← list_item FWHM_stats 1 ≫= py_float;
             FHWM_max ← list_item FWHM_stats 2 ≫= py_float;
             Ok FHWM_mean)
          with
          | Raise e => (before, Raise e)
          | Ok FHWM_mean => (before ++ [Rm_p "psfex.xml"], Ok FHWM_mean)
          end
      end
  end.

(** [for ima in imagelist: ...; FWHM_list.append(FHWM_mean)] *)
Fixpoint psfex_loop (config : gmap string (gmap string string))
    (useweight : bool) (imagelist : list string)
  : list psfex_event * result (list float) :=
  match imagelist with
  | [] => ([], Ok [])
  | ima :: imagelist' =>
      match psfex_image config useweight ima with
      | (events, Raise e) => (events, Raise e)
      | (events, Ok FHWM_mean) =>
          let '(events', r) := psfex_loop config useweight imagelist' in
          (events ++ events', FWHM_list ← r; Ok (FHWM_mean :: FWHM_list))
      end
  end.

(** [psfex(filename, config, useweight)], where [np.atleast_1d(filename)]
    is the list [imagelist]. *)
Definition psfex (imagelist : list string)
    (config : gmap string (gmap string string)) (useweight : bool)
  : list psfex_event * result (list float) :=
  psfex_loop config useweight imagelist.

End psfex.

(** ** [select_good_stars] *)

Section select_good_stars.

(** [float(s)] for a [str] *)
Variable py_float : string → result float.
(** [open(path, "r")] and what the file holds. *)
Variable open_read : string → result string.

(** What the loop body makes of the first line [a] it reads and of the
    fourth, [d]: the line to write, if any.  (The second and the third line
    are read and dropped.) *)
Definition good_star (limiting_mag_err : float) (a d : string)
  : result (option string) :=
  xpos ← list_item (split_ws a) 0;
  ypos ← list_item (split_ws a) 1;
  mag ← list_item (split_ws d) 4;
  merr ← list_item (split_ws d) 5;
  errmessage ←
    (if (length (split_ws d) <? 8)%nat then list_item (split_ws d) 6
     else list_item (split_ws d) 7);
  if negb (bool_decide (errmessage = "NoError"))
     || bool_decide (mag = "INDEF") || bool_decide (merr = "INDEF")
  then Ok None
  else
    err ← py_float merr;
    if (err <? limiting_mag_err)%float
    then Ok (Some (xpos +:+ " " +:+ ypos +:+ " " +:+ mag +:+ " " +:+ merr
                   +:+ String "010" EmptyString))
    else Ok None.

(** [while lajna: ...], entered with a non-empty [lajna]; [f1] holds the
    lines not read yet.  One turn reads four lines, of which it uses the
    first and the last, and then the line that decides on the next turn;
    past the end of the file [readline] returns the empty string.  The result
    is what was written to [f2], in order, and how the loop ends. *)
Fixpoint while_lajna (limiting_mag_err : float) (f1 : list string)
  : list string * result unit :=
  match f1 with
  | a :: _ :: _ :: d :: lajna :: f1' =>
      match good_star limiting_mag_err a d with
      | Raise e => ([], Raise e)
      | Ok written =>
          match lajna with
          | EmptyString => (option_list written, Ok tt)
          | _ =>
              let '(rest, r) := while_lajna limiting_mag_err f1' in
              (option_list written ++ rest, r)
          end
      end
  | _ =>
      (* fewer than five lines are left: the last [readline] of the turn
         returns [''], if not one before it *)
      match good_star limiting_mag_err (nth 0 f1 EmptyString)
              (nth 3 f1 EmptyString) with
      | Raise e => ([], Raise e)
      | Ok written => (option_list written, Ok tt)
      end
  end.

(** The lines written for one [.mag.1] file with the text [content]. *)
Definition good_stars_of (limiting_mag_err : float) (content : string)
  : list string * result unit :=
  let f1 := readlines content in
  (* [for kk in range(1,77): lajna = f1.readline()] *)
  let lajna := nth 75 f1 EmptyString in
  let f1 := drop 76 f1 in
  match lajna with
  | EmptyString => ([], Ok tt)
  | _ => while_lajna limiting_mag_err f1
  end.

(** [select_good_stars(filelist, limiting_mag_err)]: for every file whose
    [.magfiltered] was opened, its path and the lines written to it, and how
    the function ends. *)
Fixpoint select_good_stars (filelist : list string) (limiting_mag_err : float)
  : list (string * list string) * result unit :=
  match filelist with
  | [] => ([], Ok tt)
  | filename :: filelist' =>
      let '(path, filename_ext) := os_path_split filename in
      let folder := folder_of path in
      let filename2 := stem_of filename_ext in
      let magfile := folder +:+ filename2 +:+ ".mag.1" in
      let resmaggile := folder +:+ filename2 +:+ ".magfiltered" in
      match open_read magfile with
      | Raise e => ([], Raise e)
      | Ok content =>
          match good_stars_of limiting_mag_err content with
          | (written, Raise e) => ([(resmaggile, written)], Raise e)
          | (written, Ok _) =>
              let '(files, r) := select_good_stars filelist' limiting_mag_err in
              ((resmaggile, written) :: files, r)
          end
      end
  end.

End select_good_stars.

(** ** Notions the statements use *)

(** [c in s] for a character *)
Fixpoint str_contains (c : ascii) (s : string) : bool :=
  match s with
  | EmptyString => false
  | String d s' => is_char d c || str_contains c s'
  end.

(** The index column is the dense range [0 .. n-1]. *)
Definition dense (t : list candidate) : Prop :=
  idx <$> t = seqZ 0 (Z.of_nat (length t)).

(** Modelled from the spec: the contract of [run_xmatch], a function of
    [catalogues.py], which is not among the sources read here.  The service
    "returns matched rows keyed back to the query index": the values of the
    column [idx] it answers with are values of the column [idx] of the table
    it was sent. *)
Definition keyed_to_query
    (run_xmatch : list candidate → string → float → list Z) : Prop :=
  ∀ t cat tol i, i ∈ run_xmatch t cat tol → i ∈ idx <$> t.

(** The table a query was sent with. *)
Definition queried_table (e : event) : option (list candidate) :=
  match e with
  | Query _ t _ => Some t
  | _ => None
  end.

(** The successive candidate sets of a run: the table of every query, in
    order, and the table returned at the end when there is one. *)
Definition candidate_sets (run : list event * result (list candidate))
  : list (list candidate) :=
  omap queried_table run.1
  ++ match run.2 with Ok t => [t] | Raise _ => [] end.

(** The paths written to, in order. *)
Definition written_paths (events : list event) : list string :=
  omap (λ e, match e with
             | WriteTable path _ => Some path
             | WriteRADEC path _ => Some path
             | Query _ _ _ => None
             end) events.

(** The first of the three scale cards that the header has. *)
Definition first_scale_card (header : gmap string card) : option card :=
  head (omap (λ key, header !! key) ["CDELT1"; "_DELT1"; "CD1_1"]).

(** [magfilewcs] of a file: the [.magwcs] table read for it. *)
Definition magfilewcs_of (filename : string) : string :=
  folder_of (os_path_split filename).1
  +:+ stem_of (os_path_split filename).2 +:+ ".magwcs".

(** An index that an array of length [n] accepts. *)
Definition index_in_bounds (n : nat) (i : Z) : Prop :=
  - Z.of_nat n ≤ i < Z.of_nat n.

(** A row [m] of the merged table is the row [r] read from a file of label
    [label], moved by [off]: the position is the one read plus the offset,
    the two columns added for the quadrant hold the position after the move,
    the other columns are as read. *)
Definition placed (label : string) (off : Z * Z) (r : magwcs_row) (m : source)
  : Prop :=
  Xpos m = (m_Xpos r + float_of_Z off.1)%float
  ∧ Ypos m = (m_Ypos r + float_of_Z off.2)%float
  ∧ Xpos_quad m = Xpos m ∧ Ypos_quad m = Ypos m
  ∧ RAJ2000 m = m_RAJ2000 r ∧ DEJ2000 m = m_DEJ2000 r
  ∧ mag_inst m = m_mag_inst r ∧ mag_inst_err m = m_mag_inst_err r
  ∧ filenames m = m_filenames r ∧ row_quadrant m = label.

(** What the merge loop adds for one row [entry] of the image table: the
    rows of the [.magwcs] table of the row's file, one for one and in order,
    each moved by the offset of the row's label.  The offset is computed
    from the header of the original image, whose name is cut from the name
    of the file with the length the loop holds at that point (unbound, 3
    or 4); the header of the file itself was read too. *)
Definition merged_part (getheader : string → result (gmap string card))
    (ascii_read : string → result (list magwcs_row)) (Nb_cuts : Z * Z)
    (entry : string * string) (part : list source) : Prop :=
  ∃ header rows idx original_name idx' header2 off,
    getheader entry.1 = Ok header
    ∧ ascii_read (magfilewcs_of entry.1) = Ok rows
    ∧ (idx = None ∨ idx = Some 3%nat ∨ idx = Some 4%nat)
    ∧ original_name_of Nb_cuts (folder_of (os_path_split entry.1).1)
        (stem_of (os_path_split entry.1).2) idx
      = Ok (original_name, idx')
    ∧ getheader (original_name +:+ extension_of (os_path_split entry.1).2)
      = Ok header2
    ∧ quadrant_offset header2 Nb_cuts entry.2 = Ok off
    ∧ Forall2 (placed entry.2 off) rows part.

(** What a FWHM returned by [psfex] for an image has needed: the cells 20,
    21 and 22 of the image's table all hold a number, and the one in cell 21
    is the FWHM. *)
Definition mean_of_cells (py_float : string → result float)
    (psfex_xml_TD : string → result (list string))
    (ima : string) (fwhm : float) : Prop :=
  ∃ TD c_min c_mean c_max f_min f_max,
    psfex_xml_TD ima = Ok TD
    ∧ TD !! 20%nat = Some c_min ∧ py_float c_min = Ok f_min
    ∧ TD !! 21%nat = Some c_mean ∧ py_float c_mean = Ok fwhm
    ∧ TD !! 22%nat = Some c_max ∧ py_float c_max = Ok f_max.

(** The file [select_good_stars] reads for an image, and the one it writes. *)
Definition magfile_of (filename : string) : string :=
  folder_of (os_path_split filename).1
  +:+ stem_of (os_path_split filename).2 +:+ ".mag.1".

Definition resmagfile_of (filename : string) : string :=
  folder_of (os_path_split filename).1
  +:+ stem_of (os_path_split filename).2 +:+ ".magfiltered".

(** No character of [s] is white space. *)
Fixpoint no_space (s : string) : bool :=
  match s with
  | EmptyString => true
  | String c s' => negb (py_isspace c) && no_space s'
  end.

(** A line of four fields separated by one space and ended by a newline,
    for a star that passes the selection. *)
Definition good_line (py_float : string → result float)
    (limiting_mag_err : float) (line : string) : Prop :=
  ∃ xpos ypos mag merr err,
    line = xpos +:+ " " +:+ ypos +:+ " " +:+ mag +:+ " " +:+ merr
           +:+ String "010" EmptyString
    ∧ split_ws line = [xpos; ypos; mag; merr]
    ∧ mag ≠ "INDEF" ∧ merr ≠ "INDEF"
    ∧ py_float merr = Ok err
    ∧ (err <? limiting_mag_err)%float = true.

(** ** A field used as example

    An image of 100 x 60 pixels ([NAXIS1 = 100], [NAXIS2 = 60]) cut in
    2 x 2 quadrants; the header of the fourth quadrant has lost its scale
    cards.  The XMatch service finds the source whose [idx] is 1 in the
    Gaia catalogue (twice), every source in PS1, and none elsewhere. *)

Definition ex_header : gmap string card :=
  list_to_map [("CDELT1", CFloat (-0.000154339)); ("NAXIS1", CInt 100);
               ("NAXIS2", CInt 60)].

Definition ex_header_no_scale : gmap string card :=
  list_to_map [("NAXIS1", CInt 100); ("NAXIS2", CInt 60)].

Definition ex_getheader (filename : string) : result (gmap string card) :=
  if bool_decide (filename = "gmadet_results/img_Q4.fits")
  then Ok ex_header_no_scale else Ok ex_header.

Definition ex_row (x y : float) : magwcs_row :=
  {| m_Xpos := x; m_Ypos := y; m_RAJ2000 := 150; m_DEJ2000 := 2;
     m_mag_inst := 18; m_mag_inst_err := 0; m_filenames := "img.fits" |}.

Definition ex_source (x y : float) : source :=
  place "None" (0, 0) (ex_row x y).

Definition ex_ascii_read (rows : list magwcs_row) (filename : string)
  : result (list magwcs_row) := Ok rows.

Definition ex_run_xmatch (candidates : list candidate) (catalog : string)
    (radius : float) : list Z :=
  if bool_decide (catalog = "I/345/gaia2")
  then idx <$> filter (λ c, idx c = 1) (candidates ++ candidates)
  else if bool_decide (catalog = "II/349/ps1") then idx <$> candidates
  else [].

Definition ex_quadrants : list (string * string) :=
  [("gmadet_results/img_Q1.fits", "Q1_0_0");
   ("gmadet_results/img_Q2.fits", "Q2_0_1");
   ("gmadet_results/img_Q3.fits", "Q3_1_0");
   ("gmadet_results/img_Q4.fits", "Q4_1_1")].

(** The unpartitioned image with three detections, checked against GSC,
    Gaia, PS1 and USNO-B1 with a radius of 3 pixels. *)
Definition ex_candidates : list candidate :=
  set_idx [ex_source 1 2; ex_source 3 4; ex_source 5 6].

Definition ex_survivors : list candidate :=
  set_idx [ex_source 1 2; ex_source 5 6].

Definition ex_radius : float :=
  crossmatch_radius 3 (CFloat (abs (-0.000154339))).

Definition ex_run : list event * result (list candidate) :=
  crosscheck_with_catalogues ex_getheader
    (ex_ascii_read [ex_row 1 2; ex_row 3 4; ex_row 5 6]) ex_run_xmatch
    [("gmadet_results/img.fits", "None")] 3
    ["I/271/out"; "I/345/gaia2"; "II/349/ps1"; "I/284/out"] (1, 1).

(** The four quadrants with one detection each, after the merge loop. *)
Definition ex_quadrant_sources : list source :=
  [place "Q1_0_0" (0, 0) (ex_row 1 2); place "Q2_0_1" (30, 0) (ex_row 1 2);
   place "Q3_1_0" (0, 50) (ex_row 1 2); place "Q4_1_1" (30, 50) (ex_row 1 2)].

(** The state of the loop after the first two quadrants. *)
Definition ex_merged_two : merge_locals :=
  {| transients_out_list := replicate 2 "gmadet_results/img.oc";
     pixScale := Some (CFloat 0.000154339);
     strip_idx := Some 3%nat;
     folder := Some "gmadet_results/";
     filename2 := Some "img_Q2";
     detected_sources_tot := Some (take 2 ex_quadrant_sources) |}.

Definition ex_merged : merge_locals :=
  {| transients_out_list := replicate 4 "gmadet_results/img.oc";
     pixScale := Some (CFloat 0.000154339);
     strip_idx := Some 3%nat;
     folder := Some "gmadet_results/";
     filename2 := Some "img_Q4";
     detected_sources_tot := Some ex_quadrant_sources |}.

(** A configuration, the cells of a [psfex.xml] and [float] on the few
    strings the examples use. *)
Definition ex_config : gmap string (gmap string string) :=
  list_to_map
    [("sextractor", list_to_map [("conf", "sex.conf"); ("param", "sex.param")]);
     ("psfex", list_to_map [("sextractor", "prepsfex.sex");
                            ("param", "prepsfex.param");
                            ("conf", "psfex.conf")])].

Definition ex_py_float (s : string) : result float :=
  if bool_decide (s = "2.1") then Ok 2.1%float
  else if bool_decide (s = "2.5") then Ok 2.5%float
  else if bool_decide (s = "3.0") then Ok 3%float
  else if bool_decide (s = "0.1") then Ok 0.1%float
  else if bool_decide (s = "0.9") then Ok 0.9%float
  else Raise ValueError.

Definition ex_TD (ima : string) : result (list string) :=
  Ok (replicate 20 "0" ++ ["2.1"; "2.5"; "3.0"]).

(** A [.mag.1] file as [phot] writes it: 75 lines of header and two stars
    of five lines each; the first star passes the selection, the error of
    the second is too large. *)
Definition ex_mag_lines : list string :=
  replicate 75 "#K IRAF" ++
  ["img.fits  10.5  20.5  1  img.coo.1  1";
   "   10.52  20.48  0.02  -0.02  0.01  0.01  0  NoError";
   "   100.5  5.1  0.1  50  0  0  NoError";
   "   1.  1.2  V  2458000.5";
   "   5.0  1000.  78.5  900.  18.1  0.1  0  NoError";
   "img.fits  30.5  40.5  2  img.coo.1  2";
   "   30.47  40.51  -0.03  0.01  0.02  0.02  0  NoError";
   "   100.2  5.3  0.1  50  0  0  NoError";
   "   1.  1.2  V  2458000.5";
   "   5.0  150.  78.5  50.  19.9  0.9  0  NoError"].

Definition ex_mag_content : string :=
  foldr (λ l s, l +:+ String "010" s) EmptyString ex_mag_lines.

Definition ex_open_read (path : string) : result string :=
  if bool_decide (path = "gmadet_results/img.mag.1") then Ok ex_mag_content
  else Raise OSError.

(** * Properties *)

(** ** The [result] monad and the loops *)

Lemma bind_Ok {A B} (m : result A) (f : A → result B) (b : B) :
  m ≫= f = Ok b ↔ ∃ a, m = Ok a ∧ f a = Ok b.
Proof.
  destruct m as [a|e]; simpl.
  - split; [eauto | intros (a' & [= ->] & H); exact H].
  - split; [discriminate | intros (a' & [=] & _)].
Qed.

Lemma for_enumerate_snoc {A St} (i : nat) (xs : list A) (x : A)
    (body : nat → A → St → result St) (s : St) :
  for_enumerate i (xs ++ [x]) body s
  = for_enumerate i xs body s ≫= body (i + length xs)%nat x.
Proof.
  revert i s. induction xs as [|y xs IH]; intros i s; simpl.
  - rewrite Nat.add_0_r. destruct (body i x s); done.
  - destruct (body i y s) as [s'|e]; simpl; [|done].
    rewrite IH. by replace (S i + length xs)%nat with (i + S (length xs))%nat by lia.
Qed.

(** ** Decimal numerals and labels *)

Lemma is_char_true (c d : ascii) : is_char c d = true ↔ c = d.
Proof. apply Ascii.eqb_eq. Qed.

Lemma append_sep_inj (sep : ascii) (a a' b b' : string) :
  str_contains sep a = false → str_contains sep a' = false →
  a +:+ String sep b = a' +:+ String sep b' → a = a' ∧ b = b'.
Proof.
  revert a'. induction a as [|c a IH]; intros [|c' a']; simpl.
  - intros _ _ [= ->]. done.
  - intros _ H [= <- _]. rewrite (proj2 (is_char_true sep sep) eq_refl) in H. done.
  - intros H _ [= -> _]. rewrite (proj2 (is_char_true sep sep) eq_refl) in H. done.
  - intros [_ Ha]%orb_false_elim [_ Ha']%orb_false_elim [= -> Heq].
    destruct (IH a' Ha Ha' Heq) as [-> ->]. done.
Qed.

Lemma string_of_uint_no_underscore (d : Decimal.uint) :
  str_contains "_" (NilEmpty.string_of_uint d) = false.
Proof. induction d; simpl; done. Qed.

Lemma fmt_d_no_underscore (n : Z) : str_contains "_" (fmt_d n) = false.
Proof.
  unfold fmt_d. destruct (Z.to_int n); simpl;
    apply string_of_uint_no_underscore.
Qed.

Lemma fmt_d_inj (n m : Z) : fmt_d n = fmt_d m → n = m.
Proof.
  unfold fmt_d. intros H. apply DecimalZ.to_int_inj.
  assert (Some (Z.to_int n) = Some (Z.to_int m)) as [=]; [|done].
  by rewrite <- !NilEmpty.isi, H.
Qed.

Lemma quadrant_label_inj (n i j n' i' j' : Z) :
  quadrant_label n i j = quadrant_label n' i' j' → n = n' ∧ i = i' ∧ j = j'.
Proof.
  unfold quadrant_label. intros [= H].
  apply append_sep_inj in H as [Hn H]; [|apply fmt_d_no_underscore..].
  apply append_sep_inj in H as [Hi Hj]; [|apply fmt_d_no_underscore..].
  auto using fmt_d_inj.
Qed.

(** ** The calibration loop *)

Section calibration.

Context {W : Type}.
Variable scamp : string → W → float * W.

Lemma run_scamp_runs (filein : string) (st : solver_state) :
  scamp_runs (run_scamp scamp filein st).2 = scamp_runs st ++ [filein].
Proof. unfold run_scamp. by destruct (scamp filein (world st)). Qed.

(** With the fuel [scamp_until] gives it the loop ends by its own condition;
    it runs scamp once per increment of [ii], and [ii] stops at
    [itermax + 1] at the latest. *)
Lemma scamp_while_terminates (fuel : nat) (filein : string) (accuracy : float)
    (itermax ii : Z) (doffset : float) (st : solver_state) :
  (Z.to_nat (itermax + 1 - ii) ≤ fuel)%nat →
  ∃ ii' doffset' st',
    scamp_while scamp fuel filein accuracy itermax ii doffset st
      = Some (ii', doffset', st')
    ∧ ii ≤ ii' ≤ Z.max ii (itermax + 1)
    ∧ scamp_runs st' = scamp_runs st ++ replicate (Z.to_nat (ii' - ii)) filein.
Proof.
  revert ii doffset st.
  induction fuel as [|fuel IH]; intros ii doffset st Hfuel; simpl;
    destruct ((accuracy <=? doffset)%float && (ii <=? itermax)) eqn:Hc.
  - apply andb_true_iff in Hc as [_ Hc]. apply Z.leb_le in Hc. lia.
  - exists ii, doffset, st. rewrite Z.sub_diag, app_nil_r. repeat split; lia.
  - apply andb_true_iff in Hc as [_ Hc]. apply Z.leb_le in Hc.
    pose proof (run_scamp_runs filein st) as Hruns.
    destruct (run_scamp scamp filein st) as [d1 st1]; simpl in Hruns.
    destruct (IH (ii + 1) d1 st1) as (ii' & d' & st' & -> & Hii & Hr); [lia|].
    exists ii', d', st'. split; [done|]. split; [lia|].
    rewrite Hr, Hruns, <- app_assoc. f_equal.
    replace (Z.to_nat (ii' - ii)) with (S (Z.to_nat (ii' - (ii + 1)))) by lia.
    done.
  - exists ii, doffset, st. rewrite Z.sub_diag, app_nil_r. repeat split; lia.
Qed.

(** As long as scamp reports a residual that is not below the accuracy, the
    loop goes on until [ii] is [itermax + 1]. *)
Lemma scamp_while_never_met (fuel : nat) (filein : string) (accuracy : float)
    (itermax ii ii' : Z) (doffset doffset' : float) (st st' : solver_state) :
  (∀ f w, (accuracy <=? (scamp f w).1)%float = true) →
  (accuracy <=? doffset)%float = true →
  ii ≤ itermax + 1 →
  scamp_while scamp fuel filein accuracy itermax ii doffset st
    = Some (ii', doffset', st') →
  ii' = itermax + 1.
Proof.
  intros Hnever. revert ii doffset st.
  induction fuel as [|fuel IH]; intros ii doffset st Hd Hii; simpl; rewrite Hd;
    simpl; destruct (ii <=? itermax) eqn:Hc;
    try apply Z.leb_le in Hc; try apply Z.leb_gt in Hc;
    try discriminate; try (intros [= <- _ _]; lia).
  unfold run_scamp. pose proof (Hnever filein (world st)) as Hd1.
  destruct (scamp filein (world st)) as [d1 w1]. apply IH; [done|lia].
Qed.

Lemma scamp_until_Ok (filein : string) (accuracy : float) (itermax : Z)
    (st : solver_state) :
  ∃ st' (runs : nat),
    scamp_until scamp filein accuracy itermax st = Ok st'
    ∧ scamp_runs st' = scamp_runs st ++ replicate runs filein
    ∧ (runs ≤ Z.to_nat (itermax + 1))%nat.
Proof.
  unfold scamp_until.
  destruct (scamp_while_terminates (Z.to_nat (itermax + 1)) filein accuracy
              itermax 0 10 st) as (ii' & d' & st' & -> & Hii & Hr).
  { by rewrite Z.sub_0_r. }
  exists st', (Z.to_nat (ii' - 0)). split; [done|]. split; [done|lia].
Qed.

(** *** The labels of the grid *)

Section grid.

Variables (resultDir filename2 extension : string).
Variables (accuracy : float) (itermax : Z).
Variable c : Z.
Hypothesis c_pos : 0 < c.

Local Abbreviation cell :=
  (scamp_cell scamp resultDir filename2 extension accuracy itermax).
Local Abbreviation label_at :=
  (λ p : Z, quadrant_label (p + 1) (p / c) (p `mod` c)).

Lemma scamp_cell_Ok (i j : Z) (s : cells) :
  ∃ st, cell i j s
        = Ok {| index := index s + 1;
                filelist := filelist s
                  ++ [quadrant_file resultDir filename2 extension (index s + 1)];
                quadrant := quadrant s ++ [quadrant_label (index s + 1) i j];
                solver := st |}.
Proof.
  unfold scamp_cell.
  destruct (scamp_until_Ok
              (quadrant_file resultDir filename2 extension (index s + 1))
              accuracy itermax (solver s)) as (st' & runs & -> & _ & _).
  by exists st'.
Qed.

Lemma scamp_row (i : Z) (n : nat) (a : Z) (s : cells) :
  0 ≤ a → a + Z.of_nat n ≤ c → index s = i * c + a →
  ∃ s', for_ (seqZ a (Z.of_nat n)) (λ j s, cell i j s) s = Ok s'
        ∧ index s' = index s + Z.of_nat n
        ∧ length (filelist s') = (length (filelist s) + n)%nat
        ∧ quadrant s' = quadrant s ++ (label_at <$> seqZ (i * c + a) (Z.of_nat n)).
Proof.
  revert a s. induction n as [|n IH]; intros a s Ha Hn Hs.
  - exists s. simpl. rewrite app_nil_r. repeat split; lia.
  - rewrite (seqZ_cons a), (seqZ_cons (i * c + a)) by lia. cbn [for_].
    destruct (scamp_cell_Ok i a s) as (st' & ->). cbn [mbind result_bind].
    match goal with |- context [for_ _ _ ?s1] =>
      destruct (IH (a + 1) s1) as (s' & Hfor & Hidx & Hlen & Hq) end;
      [lia | lia | simpl; lia |].
    replace (Z.succ a) with (a + 1) by lia.
    replace (Z.pred (Z.of_nat (S n))) with (Z.of_nat n) by lia.
    exists s'. split; [exact Hfor|]. simpl in *.
    split; [lia|]. split; [rewrite Hlen, length_app; simpl; lia|].
    rewrite Hq, <- app_assoc. f_equal. simpl. f_equal.
    + rewrite Hs. f_equal.
      * apply Z.div_unique with a; lia.
      * apply Z.mod_unique with i; lia.
    + f_equal. f_equal; lia.
Qed.

Lemma scamp_grid (m : nat) (a : Z) (s : cells) :
  index s = a * c →
  ∃ s', for_ (seqZ a (Z.of_nat m)) (λ i s, for_ (range c) (λ j s, cell i j s) s) s
          = Ok s'
        ∧ index s' = index s + Z.of_nat m * c
        ∧ length (filelist s') = (length (filelist s) + Z.to_nat (Z.of_nat m * c))%nat
        ∧ quadrant s' = quadrant s ++ (label_at <$> seqZ (a * c) (Z.of_nat m * c)).
Proof.
  revert a s. induction m as [|m IH]; intros a s Hs.
  - exists s. simpl. rewrite app_nil_r. repeat split; lia.
  - rewrite seqZ_cons by lia. simpl. unfold range.
    destruct (scamp_row a (Z.to_nat c) 0 s) as (s1 & Hrow & Hidx1 & Hlen1 & Hq1);
      [lia | lia | lia |].
    rewrite Z2Nat.id in Hrow, Hidx1, Hq1 by lia. rewrite Hrow. simpl.
    destruct (IH (a + 1) s1) as (s' & Hfor & Hidx & Hlen & Hq); [lia|].
    replace (Z.succ a) with (a + 1) by lia.
    replace (Z.pred (Z.of_nat (S m))) with (Z.of_nat m) by lia.
    exists s'. split; [exact Hfor|]. split; [lia|]. split; [lia|].
    rewrite Hq, Hq1, <- app_assoc. f_equal.
    replace (Z.of_nat (S m) * c) with (c + Z.of_nat m * c) by lia.
    rewrite seqZ_app, fmap_app by lia. f_equal; f_equal; f_equal; lia.
Qed.

End grid.

End calibration.

Lemma label_at_inj (c p q : Z) :
  quadrant_label (p + 1) (p / c) (p `mod` c)
  = quadrant_label (q + 1) (q / c) (q `mod` c) → p = q.
Proof. intros (H & _ & _)%quadrant_label_inj. lia. Qed.

(** C9 (as amended): with scamp as the solver and a grid of [r] rows and
    [c] columns, [r, c >= 1], [astrometric_calib] returns an image table of
    exactly [r * c] rows whose quadrant labels are pairwise distinct; the
    label is ["None"] for the grid 1 x 1, and otherwise the row at position
    [i * c + j] (row-major) carries [Q<i*c+j+1>_<i>_<j>]. *)
Theorem astrometric_calib_scamp_labels {W : Type}
    (scamp : string → W → float * W)
    (getheader : string → result (gmap string card))
    (filename outputDir : string) (accuracy : float) (itermax : Z) (w : W)
    (r c : Z) :
  0 < r → 0 < c →
  ∃ table st,
    astrometric_calib scamp getheader filename (r, c) "scamp" outputDir
      accuracy itermax w = Ok (table, st)
    ∧ length table = Z.to_nat (r * c)
    ∧ NoDup table.*2
    ∧ ((r, c) = (1, 1) → table.*2 = ["None"])
    ∧ ((r, c) ≠ (1, 1) → ∀ i j, 0 ≤ i < r → 0 ≤ j < c →
         table.*2 !! Z.to_nat (i * c + j)
         = Some (quadrant_label (i * c + j + 1) i j)).
Proof.
  intros Hr Hc. unfold astrometric_calib.
  destruct (os_path_split filename) as [path filename_ext].
  cbn [bool_decide decide_rel fst snd].
  rewrite (bool_decide_eq_true_2 ("scamp" ∈ ["scamp"; "astrometrynet"]))
    by (apply list_elem_of_here).
  rewrite (bool_decide_eq_true_2 ("scamp" = "scamp")) by done.
  destruct ((1 <? r) || (1 <? c)) eqn:Hgrid.
  - match goal with |- context [grid_loop _ ?cell ?s0] =>
      destruct (scamp_grid scamp (folder_of path +:+ outputDir)
                  (stem_of filename_ext) (extension_of filename_ext)
                  accuracy itermax c Hc (Z.to_nat r) 0 s0)
        as (s' & Hfor & _ & Hlen & Hq); [done|] end.
    rewrite Z2Nat.id in Hfor, Hlen, Hq by lia. simpl in Hlen, Hq.
    unfold grid_loop, range in *. cbn [fst snd]. rewrite Hfor. cbn [mbind result_bind].
    eexists _, _. split; [done|].
    assert (length (filelist s') = length (quadrant s')) as Hsame.
    { rewrite Hlen, Hq, length_fmap, length_seqZ. done. }
    assert ((image_table_of s').*2 = quadrant s') as Hsnd.
    { unfold image_table_of. apply snd_zip. lia. }
    split; [|rewrite Hsnd, Hq; split; [|split]].
    + unfold image_table_of. rewrite length_zip, Hsame, Nat.min_id, Hq.
      by rewrite length_fmap, length_seqZ.
    + apply NoDup_fmap_2_strong; [|apply NoDup_seqZ].
      intros p q _ _. apply label_at_inj.
    + intros [= -> ->]. done.
    + intros _ i j Hi Hj. rewrite list_lookup_fmap, lookup_seqZ_lt by nia.
      simpl. rewrite Z2Nat.id by nia. do 2 f_equal.
      * symmetry. apply Z.div_unique with j; lia.
      * symmetry. apply Z.mod_unique with i; lia.
  - apply orb_false_elim in Hgrid as [Hr1 Hc1].
    apply Z.ltb_ge in Hr1, Hc1.
    assert (r = 1) as -> by lia. assert (c = 1) as -> by lia.
    match goal with |- context [scamp_until _ ?f _ _ ?st] =>
      destruct (scamp_until_Ok scamp f accuracy itermax st)
        as (st' & runs & -> & _ & _) end.
    cbn. eexists _, _. split; [done|]. split; [done|].
    split; [apply NoDup_singleton|]. split; done.
Qed.

Lemma astrometric_calib_scamp_labels_witness :
  ∃ table st,
    astrometric_calib (λ _ (w : unit), (0%float, w)) (λ _, Raise OSError)
      "img.fits" (2, 2) "scamp" "gmadet_results/" 1 3 tt = Ok (table, st)
    ∧ length table = Z.to_nat (2 * 2)
    ∧ NoDup table.*2
    ∧ ((2, 2) = (1, 1) → table.*2 = ["None"])
    ∧ ((2, 2) ≠ (1, 1) → ∀ i j, 0 ≤ i < 2 → 0 ≤ j < 2 →
         table.*2 !! Z.to_nat (i * 2 + j)
         = Some (quadrant_label (i * 2 + j + 1) i j)).
Proof.
  apply (astrometric_calib_scamp_labels
           (λ _ (w : unit), (0%float, w)) (λ _, Raise OSError)
           "img.fits" "gmadet_results/" 1 3 tt 2 2); lia.
Defined.

(** Without a solver the image table has one row, labelled ["None"],
    whatever the grid. *)
Lemma astrometric_calib_no_solver {W : Type}
    (scamp : string → W → float * W)
    (getheader : string → result (gmap string card))
    (filename soft outputDir : string) (accuracy : float) (itermax : Z)
    (w : W) (Nb_cuts : Z * Z) :
  soft ∉ ["scamp"; "astrometrynet"] →
  ∃ file,
    astrometric_calib scamp getheader filename Nb_cuts soft outputDir
      accuracy itermax w
    = Ok ([(file, "None")], {| world := w; scamp_runs := [] |}).
Proof.
  intros Hsoft. unfold astrometric_calib.
  destruct (os_path_split filename) as [path filename_ext].
  rewrite (bool_decide_eq_false_2 _ Hsoft). by eexists.
Qed.

(** C9, counterexample: with scamp the label of the unpartitioned image is
    ["None"], with a capital, and not ["none"]; and without calibration a
    grid 2 x 2 gets that single label, not four labels. *)
Lemma unpartitioned_label_is_None :
  astrometric_calib (λ _ (w : unit), (0%float, w)) (λ _, Raise OSError)
    "img.fits" (1, 1) "scamp" "gmadet_results/" 1 3 tt
  = Ok ([("gmadet_results/img.fits", "None")],
        {| world := tt; scamp_runs := ["gmadet_results/img.fits"] |})
  ∧ "None" ≠ "none"
  ∧ astrometric_calib (λ _ (w : unit), (0%float, w)) (λ _, Raise OSError)
      "img.fits" (2, 2) "No" "gmadet_results/" 1 3 tt
    = Ok ([("gmadet_results/img.fits", "None")],
          {| world := tt; scamp_runs := [] |})
  ∧ length [("gmadet_results/img.fits", "None")] ≠ Z.to_nat (2 * 2).
Proof.
  split; [vm_compute; reflexivity|]. split; [discriminate|].
  split; [vm_compute; reflexivity|]. vm_compute. discriminate.
Qed.

(** C7: with the default cap [itermax = 3] and a solver that never reaches
    the accuracy asked for, scamp is run four times on the file, once more
    than the cap. *)
Theorem scamp_runs_once_more_than_itermax :
  scamp_until (λ _ (w : unit), (10%float, w)) "img.fits" 1 3
    {| world := tt; scamp_runs := [] |}
  = Ok {| world := tt; scamp_runs := replicate 4 "img.fits" |}.
Proof. vm_compute. reflexivity. Qed.

(** In general the loop runs scamp [itermax + 1] times when the residual
    never falls below the accuracy. *)
Lemma scamp_until_never_met {W : Type} (scamp : string → W → float * W)
    (filein : string) (accuracy : float) (itermax : Z) (st : solver_state) :
  (∀ f w, (accuracy <=? (scamp f w).1)%float = true) →
  (accuracy <=? 10)%float = true →
  0 ≤ itermax →
  ∃ st', scamp_until scamp filein accuracy itermax st = Ok st'
         ∧ scamp_runs st'
           = scamp_runs st ++ replicate (Z.to_nat (itermax + 1)) filein.
Proof.
  intros Hnever H10 Hmax. unfold scamp_until.
  destruct (scamp_while_terminates scamp (Z.to_nat (itermax + 1)) filein
              accuracy itermax 0 10 st) as (ii' & d' & st' & Hw & _ & Hr).
  { by rewrite Z.sub_0_r. }
  rewrite Hw. exists st'. split; [done|].
  apply scamp_while_never_met in Hw; [|done|done|lia].
  by rewrite Hr, Hw, Z.sub_0_r.
Qed.

(** ** One catalogue pass *)

Lemma set_idx_length (t : list source) : length (set_idx t) = length t.
Proof. unfold set_idx. by rewrite length_imap. Qed.

Lemma set_idx_lookup (t : list source) (k : nat) :
  set_idx t !! k = (λ r, {| row := r; idx := Z.of_nat k |}) <$> t !! k.
Proof. unfold set_idx. by rewrite list_lookup_imap. Qed.

Lemma set_idx_row (t : list source) : row <$> set_idx t = t.
Proof.
  apply list_eq. intros k. rewrite list_lookup_fmap, set_idx_lookup.
  by destruct (t !! k).
Qed.

Lemma set_idx_dense (t : list source) : dense (set_idx t).
Proof.
  unfold dense. apply list_eq. intros k.
  rewrite list_lookup_fmap, set_idx_lookup, set_idx_length.
  destruct (t !! k) as [r|] eqn:Hk; simpl.
  - apply lookup_lt_Some in Hk. rewrite lookup_seqZ_lt by lia. done.
  - apply lookup_ge_None in Hk. rewrite lookup_seqZ_ge by lia. done.
Qed.

Lemma dense_lookup (t : list candidate) (k : nat) (c : candidate) :
  dense t → t !! k = Some c → idx c = Z.of_nat k.
Proof.
  intros Hd Hk. assert ((idx <$> t) !! k = Some (idx c)) as H.
  { by rewrite list_lookup_fmap, Hk. }
  rewrite Hd in H. apply lookup_seqZ in H. lia.
Qed.

Lemma dense_set_idx (t : list candidate) : dense t → set_idx (row <$> t) = t.
Proof.
  intros Hd. apply list_eq. intros k.
  rewrite set_idx_lookup, list_lookup_fmap.
  destruct (t !! k) as [c|] eqn:Hk; simpl; [|done].
  rewrite <- (dense_lookup t k c Hd Hk). by destruct c.
Qed.

Lemma np_unique_elem_of (l : list Z) (i : Z) : i ∈ np_unique l ↔ i ∈ l.
Proof.
  unfold np_unique. rewrite merge_sort_Permutation. apply elem_of_remove_dups.
Qed.

Lemma np_unique_nil : np_unique [] = [].
Proof. reflexivity. Qed.

(** Whatever the flags are, the rows kept are rows of the table, in order. *)
Lemma select_unflagged_sublist (t : list candidate) (flag : list Z) :
  select_unflagged t flag `sublist_of` t.
Proof.
  revert flag. induction t as [|c t IH]; intros [|f flag]; simpl;
    try apply sublist_nil_l.
  case_bool_decide.
  - apply sublist_skip, IH.
  - apply sublist_cons, IH.
Qed.

Lemma select_unflagged_zeros (t : list candidate) :
  select_unflagged t (replicate (length t) 0) = t.
Proof.
  induction t as [|c t IH]; simpl; [done|]. by rewrite IH.
Qed.

(** When the flag of every row says whether its index is referenced, the
    rows kept are those whose index is not. *)
Lemma select_unflagged_filter (t : list candidate) (flag : list Z)
    (referenced : list Z) :
  length flag = length t →
  (∀ k c, t !! k = Some c →
     flag !! k = Some (if bool_decide (idx c ∈ referenced) then 1 else 0)) →
  select_unflagged t flag = filter (λ c, idx c ∉ referenced) t.
Proof.
  revert flag. induction t as [|c t IH]; intros [|f flag] Hlen Hflag;
    try done.
  simpl.
  pose proof (Hflag 0%nat c eq_refl) as H0. simpl in H0. injection H0 as ->.
  rewrite filter_cons.
  rewrite IH; [|simpl in Hlen; lia | intros k c' Hk; apply (Hflag (S k) c' Hk)].
  destruct (decide (idx c ∉ referenced)) as [Hn|Hy].
  - rewrite (bool_decide_eq_false_2 (idx c ∈ referenced)) by done. done.
  - rewrite (bool_decide_eq_true_2 (idx c ∈ referenced)) by (by apply dec_stable).
    done.
Qed.

(** Indices within the range of the array are all accepted, and exactly
    the positions they name are set. *)
Lemma set_flags_in_range (referenced : list Z) (flag : list Z) :
  Forall (λ i, 0 ≤ i < Z.of_nat (length flag)) referenced →
  ∃ flag', set_flags flag referenced = Ok flag'
           ∧ length flag' = length flag
           ∧ ∀ k x, flag !! k = Some x →
               flag' !! k
               = Some (if bool_decide (Z.of_nat k ∈ referenced) then 1 else x).
Proof.
  revert flag. induction referenced as [|i ref IH]; intros flag Hr; simpl.
  - exists flag. split; [done|]. split; [done|]. intros k x Hk.
    by rewrite Hk.
  - apply Forall_cons in Hr as [Hi Hr]. unfold np_index.
    rewrite (proj2 (andb_true_iff _ _)) by (split; [apply Z.leb_le|apply Z.ltb_lt]; lia).
    cbn [mbind result_bind].
    destruct (IH (<[Z.to_nat i:=1]> flag)) as (flag' & Hset & Hlen & Hget).
    { by rewrite length_insert. }
    exists flag'. split; [done|]. rewrite length_insert in Hlen.
    split; [done|]. intros k x Hk.
    destruct (decide (k = Z.to_nat i)) as [->|Hne].
    + rewrite (Hget (Z.to_nat i) 1).
      * rewrite (bool_decide_eq_true_2 (Z.of_nat (Z.to_nat i) ∈ i :: ref)).
        -- by destruct (bool_decide _).
        -- rewrite Z2Nat.id by lia. apply list_elem_of_here.
      * apply list_lookup_insert_eq. apply lookup_lt_Some in Hk. done.
    + rewrite (Hget k x) by (by rewrite list_lookup_insert_ne).
      assert (Z.of_nat k ∈ i :: ref ↔ Z.of_nat k ∈ ref) as Hiff.
      { rewrite elem_of_cons. split; [|tauto]. intros [Heq|?]; [lia|done]. }
      by rewrite (bool_decide_ext _ _ Hiff).
Qed.

Lemma catalog_pass_exact (t : list candidate) (crossmatch_idx : list Z) :
  dense t →
  (∀ i, i ∈ crossmatch_idx → i ∈ idx <$> t) →
  catalog_pass t crossmatch_idx
  = Ok (set_idx (row <$> filter (λ c, idx c ∉ crossmatch_idx) t)).
Proof.
  intros Hd Hkeys. unfold catalog_pass.
  destruct (set_flags_in_range (np_unique crossmatch_idx)
              (replicate (length t) 0)) as (flag & -> & Hlen & Hget).
  { apply Forall_forall. intros i Hi%np_unique_elem_of%Hkeys.
    rewrite Hd in Hi. apply elem_of_seqZ in Hi. rewrite length_replicate. lia. }
  cbn [mbind result_bind]. do 3 f_equal.
  rewrite length_replicate in Hlen.
  rewrite (select_unflagged_filter t flag (np_unique crossmatch_idx) Hlen).
  - apply list_filter_iff. intros c. by rewrite np_unique_elem_of.
  - intros k c Hk. rewrite (dense_lookup t k c Hd Hk).
    apply Hget, lookup_replicate_2. by apply lookup_lt_Some in Hk.
Qed.

Lemma catalog_pass_shrinks (t t' : list candidate) (crossmatch_idx : list Z) :
  catalog_pass t crossmatch_idx = Ok t' →
  row <$> t' `sublist_of` row <$> t
  ∧ (length t' ≤ length t)%nat
  ∧ dense t'.
Proof.
  unfold catalog_pass. intros (flag & _ & [= <-])%bind_Ok.
  pose proof (select_unflagged_sublist t flag) as Hsub.
  rewrite set_idx_row, set_idx_length, length_fmap.
  split; [by apply fmap_sublist|]. split; [by apply sublist_length|].
  apply set_idx_dense.
Qed.

Lemma catalog_pass_no_match (t : list candidate) :
  dense t → catalog_pass t [] = Ok t.
Proof.
  intros Hd. unfold catalog_pass. rewrite np_unique_nil. simpl.
  by rewrite select_unflagged_zeros, dense_set_idx.
Qed.

(** ** The loop over the catalogues *)

Section catalog_loop.

Variable run_xmatch : list candidate → string → float → list Z.
Variables (radius : float) (pixScale : card).

Local Abbreviation loop := (catalog_loop run_xmatch radius pixScale).
Local Abbreviation tolerance := (crossmatch_radius radius pixScale).

Lemma candidate_sets_cons (q : event) (t : list candidate)
    (run : list event * result (list candidate)) :
  queried_table q = Some t →
  candidate_sets (q :: run.1, run.2) = t :: candidate_sets run.
Proof. unfold candidate_sets. simpl. by intros ->. Qed.

Lemma catalog_loop_sets_head (catalogs : list string) (t0 : list candidate) :
  candidate_sets (loop catalogs t0) !! 0%nat = Some t0.
Proof.
  destruct catalogs as [|c catalogs]; [done|]. cbn [catalog_loop].
  destruct (catalog_pass _ _); [|done].
  destruct (cat_dict !! c); [|done].
  case_bool_decide; [done|]. by destruct (loop catalogs _).
Qed.

(** The [k]-th query goes to the [k]-th catalogue with the table that the
    passes before it left; the table after it is what [catalog_pass] makes
    of the answer, and an empty one ends the queries. *)
Lemma catalog_loop_chain (catalogs : list string) (t0 : list candidate)
    (k : nat) (cat : string) (t : list candidate) (tol : float) :
  (loop catalogs t0).1 !! k = Some (Query cat t tol) →
  tol = tolerance
  ∧ catalogs !! k = Some cat
  ∧ candidate_sets (loop catalogs t0) !! k = Some t
  ∧ (k = 0%nat → t = t0)
  ∧ (dense t0 → dense t)
  ∧ (∀ t', candidate_sets (loop catalogs t0) !! S k = Some t' →
       catalog_pass t (run_xmatch t cat tol) = Ok t')
  ∧ (catalog_pass t (run_xmatch t cat tol) = Ok [] →
       (loop catalogs t0).1 !! S k = None).
Proof.
  revert t0 k. induction catalogs as [|c catalogs IH]; intros t0 k; [done|].
  cbn [catalog_loop].
  destruct (catalog_pass t0 (run_xmatch t0 c tolerance)) as [t1|e] eqn:Hpass.
  2: { destruct k; [|done]. intros [= <- <- <-].
       rewrite Hpass. repeat split; done. }
  destruct (cat_dict !! c) as [name|].
  2: { destruct k; [|done]. intros [= <- <- <-].
       rewrite Hpass. repeat split; done. }
  case_bool_decide as Hlen.
  { destruct k; [|done]. intros [= <- <- <-]. rewrite Hpass.
    repeat split; try done. by intros t' [= <-]. }
  destruct (loop catalogs t1) as [queries r] eqn:Hloop.
  destruct k as [|k].
  - intros [= <- <- <-]. rewrite Hpass. repeat split; try done.
    + intros t'. rewrite (candidate_sets_cons _ t0 (queries, r)) by done.
      cbn [lookup list_lookup]. rewrite <- Hloop, catalog_loop_sets_head.
      by intros [= <-].
    + intros [= ->]. done.
  - cbn [fst lookup list_lookup]. intros Hk.
    specialize (IH t1 k). rewrite Hloop in IH.
    destruct (IH Hk) as (Htol & Hcat & Hsets & _ & Hdense & Hnext & Hstop).
    split; [done|]. split; [done|].
    rewrite (candidate_sets_cons _ t0 (queries, r)) by done.
    split; [done|]. split; [done|].
    split; [intros _; apply Hdense;
            by destruct (catalog_pass_shrinks _ _ _ Hpass) as (_ & _ & ?)|].
    split; done.
Qed.

End catalog_loop.

(** ** The whole function *)

Section crosscheck.

Variable getheader : string → result (gmap string card).
Variable ascii_read : string → result (list magwcs_row).
Variable run_xmatch : list candidate → string → float → list Z.

Local Abbreviation crosscheck :=
  (crosscheck_with_catalogues getheader ascii_read run_xmatch).
Local Abbreviation merge := (merge_loop getheader ascii_read).

Lemma catalog_loop_queries (radius : float) (p : card) (catalogs : list string)
    (t0 : list candidate) (e : event) :
  e ∈ (catalog_loop run_xmatch radius p catalogs t0).1 →
  ∃ cat t, e = Query cat t (crossmatch_radius radius p).
Proof.
  revert t0. induction catalogs as [|c catalogs IH]; intros t0; simpl.
  - intros []%elem_of_nil.
  - destruct (catalog_pass _ _) as [t1|?];
      [destruct (cat_dict !! c); [case_bool_decide|]|];
      try (intros ->%list_elem_of_singleton; by eexists _, _).
    specialize (IH t1). destruct (catalog_loop _ _ _ _ t1) as [queries r].
    simpl in *. intros [->|He]%elem_of_cons; [by eexists _, _|auto].
Qed.

Lemma omap_queried_table_writes (queries writes : list event) :
  (∀ e, e ∈ writes → queried_table e = None) →
  omap queried_table (queries ++ writes) = omap queried_table queries.
Proof.
  intros Hw. rewrite omap_app.
  replace (omap queried_table writes) with (@nil (list candidate));
    [by rewrite app_nil_r|].
  induction writes as [|e writes IH]; [done|]. simpl.
  rewrite (Hw e) by apply list_elem_of_here.
  apply IH. intros e' He'. apply Hw. by apply list_elem_of_further.
Qed.

Lemma omap_queried_table_lookup (queries : list event) (k : nat)
    (cat : string) (t : list candidate) (tol : float) :
  (∀ e, e ∈ queries → ∃ cat t tol, e = Query cat t tol) →
  queries !! k = Some (Query cat t tol) →
  omap queried_table queries !! k = Some t.
Proof.
  revert k. induction queries as [|q queries IH]; intros k Hall Hk; [done|].
  destruct (Hall q) as (cat' & t' & tol' & ->); [apply list_elem_of_here|].
  destruct k as [|k]; simpl in *.
  - by injection Hk as _ -> _.
  - apply IH; [|done]. intros e He. apply Hall. by apply list_elem_of_further.
Qed.

Lemma write_candidates_events (s : merge_locals) (t : list candidate)
    (writes : list event) :
  write_candidates s t = Ok writes →
  (∀ e, e ∈ writes → queried_table e = None)
  ∧ ∀ cat t' tol, Query cat t' tol ∉ writes.
Proof.
  unfold write_candidates. intros (tr & _ & H)%bind_Ok.
  destruct (folder s), (filename2 s); try done. injection H as <-.
  split.
  - intros e [->|[->|[]%elem_of_nil]%elem_of_cons]%elem_of_cons; done.
  - intros cat t' tol [?|[?|[]%elem_of_nil]%elem_of_cons]%elem_of_cons; done.
Qed.

(** A run of the function either raises before the first query, or is a run
    of the loop over the catalogues, on the merged table with its dense index
    and with the pixel scale the merge loop ended with, followed by the two
    writes. *)
Lemma crosscheck_run (image_table : list (string * string)) (radius : float)
    (catalogs : list string) (Nb_cuts : Z * Z) :
  (crosscheck image_table radius catalogs Nb_cuts).1 = []
  ∧ candidate_sets (crosscheck image_table radius catalogs Nb_cuts) = []
  ∨ ∃ s tot p,
      merge image_table Nb_cuts = Ok s
      ∧ detected_sources_tot s = Some tot
      ∧ pixScale s = Some p
      ∧ (∀ k cat t tol,
           (crosscheck image_table radius catalogs Nb_cuts).1 !! k
             = Some (Query cat t tol)
           → (catalog_loop run_xmatch radius p catalogs (set_idx tot)).1 !! k
             = Some (Query cat t tol)
             ∧ candidate_sets (crosscheck image_table radius catalogs Nb_cuts)
                 !! k = Some t)
      ∧ candidate_sets (crosscheck image_table radius catalogs Nb_cuts)
          `prefix_of`
        candidate_sets (catalog_loop run_xmatch radius p catalogs (set_idx tot)).
Proof.
  unfold crosscheck_with_catalogues.
  destruct (merge image_table Nb_cuts) as [s|e] eqn:Hmerge; [|by left].
  destruct (detected_sources_tot s) as [tot|] eqn:Htot; [|by left].
  destruct (pixScale s) as [p|] eqn:Hp; [|by left].
  right. exists s, tot, p. do 3 (split; [done|]).
  pose proof (catalog_loop_queries radius p catalogs (set_idx tot)) as Hall.
  destruct (catalog_loop run_xmatch radius p catalogs (set_idx tot))
    as [queries [t|e]] eqn:Hloop; cbn [fst] in Hall.
  - destruct (write_candidates s t) as [writes|e] eqn:Hw.
    + apply write_candidates_events in Hw as [Hnone Hnoq].
      unfold candidate_sets. cbn [fst snd].
      rewrite omap_queried_table_writes by done. split; [|done].
      intros k cat t' tol Hk.
      destruct (lookup_app_Some queries writes k (Query cat t' tol))
        as [[H|[_ H]] _]; [done| |].
      * split; [done|]. apply lookup_app_l_Some.
        eapply omap_queried_table_lookup; [|done].
        intros e' He'. destruct (Hall e' He') as (? & ? & ->). by eexists _, _, _.
      * apply list_elem_of_lookup_2 in H. by apply Hnoq in H.
    + unfold candidate_sets. cbn [fst snd]. rewrite app_nil_r. split.
      * intros k cat t' tol Hk. split; [done|].
        eapply omap_queried_table_lookup; [|done].
        intros e' He'. destruct (Hall e' He') as (? & ? & ->). by eexists _, _, _.
      * by apply prefix_app_r.
  - unfold candidate_sets. cbn [fst snd]. split; [|done].
    intros k cat t' tol Hk. split; [done|]. rewrite app_nil_r.
    eapply omap_queried_table_lookup; [|done].
    intros e' He'. destruct (Hall e' He') as (? & ? & ->). by eexists _, _, _.
Qed.

Lemma crosscheck_chain (image_table : list (string * string)) (radius : float)
    (catalogs : list string) (Nb_cuts : Z * Z)
    (k : nat) (cat : string) (t : list candidate) (tol : float) :
  (crosscheck image_table radius catalogs Nb_cuts).1 !! k
    = Some (Query cat t tol) →
  ∃ s p,
    merge image_table Nb_cuts = Ok s
    ∧ pixScale s = Some p
    ∧ tol = crossmatch_radius radius p
    ∧ catalogs !! k = Some cat
    ∧ candidate_sets (crosscheck image_table radius catalogs Nb_cuts) !! k
      = Some t
    ∧ dense t
    ∧ (∀ t', candidate_sets (crosscheck image_table radius catalogs Nb_cuts)
               !! S k = Some t' →
         catalog_pass t (run_xmatch t cat tol) = Ok t')
    ∧ (catalog_pass t (run_xmatch t cat tol) = Ok [] →
         ∀ k' cat' t' tol', (k < k')%nat →
           (crosscheck image_table radius catalogs Nb_cuts).1 !! k'
             ≠ Some (Query cat' t' tol')).
Proof.
  intros Hk.
  destruct (crosscheck_run image_table radius catalogs Nb_cuts)
    as [[Hnil _]|(s & tot & p & Hmerge & Htot & Hp & Hq & Hsets)].
  { by rewrite Hnil in Hk. }
  exists s, p. do 2 (split; [done|]).
  destruct (Hq _ _ _ _ Hk) as [Hk1 Hk2].
  destruct (catalog_loop_chain run_xmatch radius p catalogs (set_idx tot)
              k cat t tol Hk1)
    as (Htol & Hcat & _ & _ & Hdense & Hnext & Hstop).
  split; [done|]. split; [done|]. split; [done|].
  split; [apply Hdense, set_idx_dense|].
  split.
  - intros t' Ht'. apply Hnext. by eapply prefix_lookup_Some.
  - intros Hempty k' cat' t' tol' Hlt Hk'. apply Hq in Hk' as [Hk' _].
    apply Hstop in Hempty. apply lookup_ge_None in Hempty.
    apply lookup_lt_Some in Hk'. lia.
Qed.

End crosscheck.

(** ** The claims on the loop over the catalogues *)

Lemma NoDup_fmap_elem_inj {A B} (f : A → B) (l : list A) (x y : A) :
  NoDup (f <$> l) → x ∈ l → y ∈ l → f x = f y → x = y.
Proof.
  induction l as [|a l IH]; [by intros _ []%elem_of_nil|].
  rewrite fmap_cons, NoDup_cons, !elem_of_cons.
  intros [Ha Hl] [->|Hx] [->|Hy] Hf; auto.
  - exfalso. apply Ha. rewrite Hf. by apply list_elem_of_fmap_2.
  - exfalso. apply Ha. rewrite <- Hf. by apply list_elem_of_fmap_2.
Qed.

(** C1: a pass keeps exactly the rows whose index is not among the matches
    (however often an index is matched) and numbers them 0 .. n-1; in a run
    the table sent to the next catalogue is that result, so a row matched by
    one catalogue is not in the table of the next; and with three detections
    and one catalogue that matches index 1 the rows 0 and 2 are returned with
    the indices 0 and 1.  The XMatch service is taken to keep its contract
    [keyed_to_query]. *)
Theorem catalog_pass_filtration
    (getheader : string → result (gmap string card))
    (ascii_read : string → result (list magwcs_row))
    (run_xmatch : list candidate → string → float → list Z) :
  keyed_to_query run_xmatch →
  (∀ t crossmatch_idx,
     dense t → (∀ i, i ∈ crossmatch_idx → i ∈ idx <$> t) →
     ∃ t', catalog_pass t crossmatch_idx = Ok t'
           ∧ row <$> t' = row <$> filter (λ c, idx c ∉ crossmatch_idx) t
           ∧ idx <$> t' = seqZ 0 (Z.of_nat (length t')))
  ∧ (∀ image_table radius catalogs Nb_cuts k cat t tol t',
       let run := crosscheck_with_catalogues getheader ascii_read run_xmatch
                    image_table radius catalogs Nb_cuts in
       run.1 !! k = Some (Query cat t tol) →
       candidate_sets run !! S k = Some t' →
       t' = set_idx (row <$> filter (λ c, idx c ∉ run_xmatch t cat tol) t)
       ∧ (∀ cat' t'' tol',
            run.1 !! S k = Some (Query cat' t'' tol') → t'' = t')
       ∧ (NoDup (row <$> t) → ∀ c, c ∈ t →
            idx c ∈ run_xmatch t cat tol → row c ∉ row <$> t'))
  ∧ (∀ radius scale cat d0 d1 d2,
       let t0 := set_idx [d0; d1; d2] in
       let tol := crossmatch_radius radius scale in
       is_Some (cat_dict !! cat) →
       run_xmatch t0 cat tol ≠ [] →
       (∀ i, i ∈ run_xmatch t0 cat tol → i = 1) →
       catalog_loop run_xmatch radius scale [cat] t0
       = ([Query cat t0 tol],
          Ok [{| row := d0; idx := 0 |}; {| row := d2; idx := 1 |}])).
Proof.
  intros Hkeys. split; [|split].
  - intros t M Hd HM. eexists. split; [by apply catalog_pass_exact|].
    split; [by rewrite set_idx_row|apply set_idx_dense].
  - intros image_table radius catalogs Nb_cuts k cat t tol t' run Hk Ht'.
    destruct (crosscheck_chain getheader ascii_read run_xmatch image_table
                radius catalogs Nb_cuts k cat t tol Hk)
      as (s & p & _ & _ & _ & _ & _ & Hd & Hnext & _).
    pose proof (Hnext t' Ht') as Hpass.
    rewrite (catalog_pass_exact t _ Hd (Hkeys t cat tol)) in Hpass.
    injection Hpass as <-. split; [done|]. split.
    + intros cat' t'' tol' HSk.
      destruct (crosscheck_chain getheader ascii_read run_xmatch image_table
                  radius catalogs Nb_cuts (S k) cat' t'' tol' HSk)
        as (_ & _ & _ & _ & _ & _ & Hsets & _).
      fold run in Hsets. rewrite Ht' in Hsets. by injection Hsets.
    + intros Hnd c Hc Hmatched. rewrite set_idx_row.
      intros (c' & Hrow & [Hun Hc']%list_elem_of_filter)%list_elem_of_fmap.
      apply (NoDup_fmap_elem_inj row t c c' Hnd Hc Hc') in Hrow as ->. done.
  - intros radius scale cat d0 d1 d2 t0 tol [name Hname] Hne Hone.
    cbn [catalog_loop]. fold tol.
    assert (catalog_pass t0 (run_xmatch t0 cat tol)
            = Ok [{| row := d0; idx := 0 |}; {| row := d2; idx := 1 |}])
      as ->.
    { rewrite catalog_pass_exact; [|apply set_idx_dense|apply Hkeys].
      assert (1 ∈ run_xmatch t0 cat tol) as H1.
      { destruct (run_xmatch t0 cat tol) as [|i l] eqn:Hl; [done|].
        rewrite <- (Hone i); apply list_elem_of_here. }
      assert (0 ∉ run_xmatch t0 cat tol) as H0 by (by intros ?%Hone).
      assert (2 ∉ run_xmatch t0 cat tol) as H2 by (by intros ?%Hone).
      f_equal. subst t0. cbn [set_idx imap].
      rewrite filter_cons_True by done.
      rewrite filter_cons_False by (by intros []).
      rewrite filter_cons_True by done.
      done. }
    rewrite Hname. done.
Qed.

Lemma ex_run_xmatch_keys : keyed_to_query ex_run_xmatch.
Proof.
  intros t cat tol i. unfold ex_run_xmatch. repeat case_bool_decide; [|done|by intros []%elem_of_nil].
  intros (c & -> & [_ Hc]%list_elem_of_filter)%list_elem_of_fmap.
  apply list_elem_of_fmap_2. apply elem_of_app in Hc. tauto.
Qed.

Lemma ex_run_events :
  ex_run
  = ([Query "I/271/out" ex_candidates ex_radius;
      Query "I/345/gaia2" ex_candidates ex_radius;
      Query "II/349/ps1" ex_survivors ex_radius;
      WriteTable "gmadet_results/img.oc" [];
      WriteRADEC "gmadet_results/img_oc_RADEC" []],
     Ok []).
Proof. vm_compute. reflexivity. Qed.

Lemma catalog_pass_filtration_witness :
  catalog_loop ex_run_xmatch 3 (CFloat 1) ["I/345/gaia2"]
    (set_idx [ex_source 1 2; ex_source 3 4; ex_source 5 6])
  = ([Query "I/345/gaia2"
        (set_idx [ex_source 1 2; ex_source 3 4; ex_source 5 6])
        (crossmatch_radius 3 (CFloat 1))],
     Ok [{| row := ex_source 1 2; idx := 0 |};
         {| row := ex_source 5 6; idx := 1 |}]).
Proof.
  apply (proj2 (proj2 (catalog_pass_filtration ex_getheader
                         (ex_ascii_read []) ex_run_xmatch ex_run_xmatch_keys))).
  - vm_compute. eexists. reflexivity.
  - vm_compute. discriminate.
  - intros i. unfold ex_run_xmatch. rewrite bool_decide_eq_true_2 by reflexivity.
    intros (c & -> & [Hc _]%list_elem_of_filter)%list_elem_of_fmap. exact Hc.
Defined.

(** C2: in every run, the candidate set after a catalogue is made of rows
    of the candidate set before it, in the same order, so it is no larger;
    and when the query returns no match the set after is the set before. *)
Theorem candidate_set_never_grows
    (getheader : string → result (gmap string card))
    (ascii_read : string → result (list magwcs_row))
    (run_xmatch : list candidate → string → float → list Z)
    (image_table : list (string * string)) (radius : float)
    (catalogs : list string) (Nb_cuts : Z * Z)
    (k : nat) (cat : string) (t : list candidate) (tol : float)
    (t' : list candidate) :
  let run := crosscheck_with_catalogues getheader ascii_read run_xmatch
               image_table radius catalogs Nb_cuts in
  run.1 !! k = Some (Query cat t tol) →
  candidate_sets run !! S k = Some t' →
  candidate_sets run !! k = Some t
  ∧ row <$> t' `sublist_of` row <$> t
  ∧ (length t' ≤ length t)%nat
  ∧ (run_xmatch t cat tol = [] → t' = t).
Proof.
  intros run Hk Ht'.
  destruct (crosscheck_chain getheader ascii_read run_xmatch image_table
              radius catalogs Nb_cuts k cat t tol Hk)
    as (s & p & _ & _ & _ & _ & Hsets & Hd & Hnext & _).
  pose proof (Hnext t' Ht') as Hpass.
  destruct (catalog_pass_shrinks _ _ _ Hpass) as (Hsub & Hlen & _).
  repeat split; try done.
  intros Hnone. rewrite Hnone, (catalog_pass_no_match t Hd) in Hpass.
  by injection Hpass.
Qed.

Lemma candidate_set_never_grows_witness :
  (candidate_sets ex_run !! 0%nat = Some ex_candidates
   ∧ row <$> ex_candidates `sublist_of` row <$> ex_candidates
   ∧ (length ex_candidates ≤ length ex_candidates)%nat
   ∧ (ex_run_xmatch ex_candidates "I/271/out" ex_radius = []
      → ex_candidates = ex_candidates))
  ∧ (candidate_sets ex_run !! 1%nat = Some ex_candidates
     ∧ row <$> ex_survivors `sublist_of` row <$> ex_candidates
     ∧ (length ex_survivors ≤ length ex_candidates)%nat
     ∧ (ex_run_xmatch ex_candidates "I/345/gaia2" ex_radius = []
        → ex_survivors = ex_candidates)).
Proof.
  split.
  - apply (candidate_set_never_grows ex_getheader
             (ex_ascii_read [ex_row 1 2; ex_row 3 4; ex_row 5 6]) ex_run_xmatch
             [("gmadet_results/img.fits", "None")] 3
             ["I/271/out"; "I/345/gaia2"; "II/349/ps1"; "I/284/out"] (1, 1)
             0 "I/271/out" ex_candidates ex_radius ex_candidates);
      vm_compute; reflexivity.
  - apply (candidate_set_never_grows ex_getheader
             (ex_ascii_read [ex_row 1 2; ex_row 3 4; ex_row 5 6]) ex_run_xmatch
             [("gmadet_results/img.fits", "None")] 3
             ["I/271/out"; "I/345/gaia2"; "II/349/ps1"; "I/284/out"] (1, 1)
             1 "I/345/gaia2" ex_candidates ex_radius ex_survivors);
      vm_compute; reflexivity.
Defined.

Lemma catalog_loop_later_nonempty
    (run_xmatch : list candidate → string → float → list Z)
    (radius : float) (p : card) (catalogs : list string)
    (t0 : list candidate) (k : nat) (cat : string) (t : list candidate)
    (tol : float) :
  (catalog_loop run_xmatch radius p catalogs t0).1 !! S k
    = Some (Query cat t tol) →
  t ≠ [].
Proof.
  revert t0 k. induction catalogs as [|c catalogs IH]; intros t0 k; [done|].
  cbn [catalog_loop].
  destruct (catalog_pass _ _) as [t1|?]; [|done].
  destruct (cat_dict !! c); [|done].
  case_bool_decide as Hlen; [done|].
  pose proof (catalog_loop_chain run_xmatch radius p catalogs t1 0 cat t tol)
    as Hchain.
  specialize (IH t1). destruct (catalog_loop _ _ _ _ t1) as [queries r].
  cbn [fst lookup list_lookup] in *. destruct k as [|k]; [|by apply IH].
  intros Hq. destruct (Hchain Hq) as (_ & _ & _ & Heq & _).
  rewrite (Heq eq_refl). by intros ->.
Qed.

(** C6: the queries go to the catalogues in their order, and when the pass
    of one leaves no candidate (the candidate set after it is empty), no
    query is sent to any catalogue after it; so every query but the first of
    a run is sent with a candidate set that is not empty. *)
Theorem no_query_once_empty
    (getheader : string → result (gmap string card))
    (ascii_read : string → result (list magwcs_row))
    (run_xmatch : list candidate → string → float → list Z)
    (image_table : list (string * string)) (radius : float)
    (catalogs : list string) (Nb_cuts : Z * Z)
    (k : nat) (cat : string) (t : list candidate) (tol : float) :
  let run := crosscheck_with_catalogues getheader ascii_read run_xmatch
               image_table radius catalogs Nb_cuts in
  run.1 !! k = Some (Query cat t tol) →
  catalogs !! k = Some cat
  ∧ (catalog_pass t (run_xmatch t cat tol) = Ok [] →
       ∀ k' cat' t' tol', (k < k')%nat →
         run.1 !! k' ≠ Some (Query cat' t' tol'))
  ∧ (candidate_sets run !! S k = Some [] →
       ∀ k' cat' t' tol', (k < k')%nat →
         run.1 !! k' ≠ Some (Query cat' t' tol'))
  ∧ (k ≠ 0%nat → t ≠ []).
Proof.
  intros run Hk.
  destruct (crosscheck_chain getheader ascii_read run_xmatch image_table
              radius catalogs Nb_cuts k cat t tol Hk)
    as (s & p & _ & _ & _ & Hcat & _ & _ & Hnext & Hstop).
  split; [done|]. split; [done|].
  split; [intros Hempty; by apply Hstop, Hnext|].
  destruct k as [|k]; [done|]. intros _.
  destruct (crosscheck_run getheader ascii_read run_xmatch image_table
              radius catalogs Nb_cuts)
    as [[Hnil _]|(s' & tot & p' & _ & _ & _ & Hq & _)].
  { fold run in Hnil. by rewrite Hnil in Hk. }
  apply Hq in Hk as [Hk _]. by eapply catalog_loop_later_nonempty.
Qed.

Lemma no_query_once_empty_witness :
  ["I/271/out"; "I/345/gaia2"; "II/349/ps1"; "I/284/out"] !! 2%nat
    = Some "II/349/ps1"
  ∧ catalog_pass ex_survivors (ex_run_xmatch ex_survivors "II/349/ps1" ex_radius)
    = Ok []
  ∧ candidate_sets ex_run !! 3%nat = Some []
  ∧ (∀ k' cat' t' tol', (2 < k')%nat →
       ex_run.1 !! k' ≠ Some (Query cat' t' tol'))
  ∧ ex_survivors ≠ [].
Proof.
  destruct (no_query_once_empty ex_getheader
              (ex_ascii_read [ex_row 1 2; ex_row 3 4; ex_row 5 6])
              ex_run_xmatch [("gmadet_results/img.fits", "None")] 3
              ["I/271/out"; "I/345/gaia2"; "II/349/ps1"; "I/284/out"] (1, 1)
              2 "II/349/ps1" ex_survivors ex_radius)
    as (Hcat & Hstop & _ & Hne).
  { vm_compute. reflexivity. }
  split; [exact Hcat|]. split; [vm_compute; reflexivity|].
  split; [vm_compute; reflexivity|].
  split; [apply Hstop; vm_compute; reflexivity|apply Hne; discriminate].
Defined.

(** C5: the radius of every query is [radius * pixScale * 3600], the
    products taken in that order in binary64, with the pixel scale the merge
    loop ended with; for 3 pixels of 0.0001543390 degrees that is the double
    1.6668612, which lies between 1.6665 and 1.6675. *)
Theorem crossmatch_radius_arcsec
    (getheader : string → result (gmap string card))
    (ascii_read : string → result (list magwcs_row))
    (run_xmatch : list candidate → string → float → list Z)
    (image_table : list (string * string)) (radius : float)
    (catalogs : list string) (Nb_cuts : Z * Z)
    (cat : string) (t : list candidate) (tol : float) :
  Query cat t tol ∈ (crosscheck_with_catalogues getheader ascii_read run_xmatch
                       image_table radius catalogs Nb_cuts).1 →
  (∃ s scale,
     merge_loop getheader ascii_read image_table Nb_cuts = Ok s
     ∧ pixScale s = Some scale
     ∧ tol = (radius * card_float scale * 3600)%float)
  ∧ crossmatch_radius 3 (CFloat 0.0001543390) = 1.6668612%float
  ∧ (1.6665 <=? 1.6668612)%float = true
  ∧ (1.6668612 <? 1.6675)%float = true.
Proof.
  intros (k & Hk)%list_elem_of_lookup_1.
  destruct (crosscheck_chain getheader ascii_read run_xmatch image_table
              radius catalogs Nb_cuts k cat t tol Hk)
    as (s & p & Hmerge & Hp & Htol & _).
  split; [by exists s, p|]. repeat split; vm_compute; reflexivity.
Qed.

Lemma crossmatch_radius_arcsec_witness :
  (∃ s scale,
     merge_loop ex_getheader
       (ex_ascii_read [ex_row 1 2; ex_row 3 4; ex_row 5 6])
       [("gmadet_results/img.fits", "None")] (1, 1) = Ok s
     ∧ pixScale s = Some scale
     ∧ ex_radius = (3 * card_float scale * 3600)%float)
  ∧ crossmatch_radius 3 (CFloat 0.0001543390) = 1.6668612%float
  ∧ (1.6665 <=? 1.6668612)%float = true
  ∧ (1.6668612 <? 1.6675)%float = true.
Proof.
  apply (crossmatch_radius_arcsec ex_getheader
           (ex_ascii_read [ex_row 1 2; ex_row 3 4; ex_row 5 6]) ex_run_xmatch
           [("gmadet_results/img.fits", "None")] 3
           ["I/271/out"; "I/345/gaia2"; "II/349/ps1"; "I/284/out"] (1, 1)
           "I/345/gaia2" ex_candidates ex_radius).
  change (Query "I/345/gaia2" ex_candidates ex_radius ∈ ex_run.1).
  rewrite ex_run_events. apply list_elem_of_further, list_elem_of_here.
Defined.

(** ** Labels read back *)

Lemma str_split_no_sep (sep : ascii) (s : string) :
  str_contains sep s = false → str_split sep s = [s].
Proof.
  induction s as [|c s IH]; simpl; [done|].
  intros [Hc Hs]%orb_false_elim. rewrite Hc, (IH Hs). done.
Qed.

Lemma str_split_sep (sep : ascii) (a b : string) :
  str_contains sep a = false →
  str_split sep (a +:+ String sep b) = a :: str_split sep b.
Proof.
  induction a as [|c a IH]; simpl.
  - intros _. by rewrite (proj2 (is_char_true sep sep) eq_refl).
  - intros [Hc Ha]%orb_false_elim. rewrite Hc, (IH Ha). done.
Qed.

Lemma unpack_quadrant_label (n i j : Z) :
  unpack_label (quadrant_label n i j) = Ok (VStr (fmt_d i), VStr (fmt_d j)).
Proof.
  unfold unpack_label, quadrant_label.
  change ("Q" +:+ fmt_d n +:+ "_" +:+ fmt_d i +:+ "_" +:+ fmt_d j)
    with (("Q" +:+ fmt_d n) +:+ String "_" (fmt_d i +:+ String "_" (fmt_d j))).
  rewrite str_split_sep by (simpl; apply fmt_d_no_underscore).
  rewrite str_split_sep by apply fmt_d_no_underscore.
  rewrite str_split_no_sep by apply fmt_d_no_underscore. done.
Qed.

Lemma rstrip_string_of_uint (d : Decimal.uint) :
  rstrip (NilEmpty.string_of_uint d) = NilEmpty.string_of_uint d.
Proof.
  induction d; simpl; try done; rewrite IHd;
    by destruct (NilEmpty.string_of_uint d).
Qed.

Lemma int_of_str_string_of_uint (d : Decimal.uint) :
  d ≠ Decimal.Nil →
  int_of_str (NilEmpty.string_of_uint d) = Ok (Z.of_uint d).
Proof.
  intros Hd. unfold int_of_str.
  assert (lstrip (NilEmpty.string_of_uint d) = NilEmpty.string_of_uint d)
    as -> by (by destruct d).
  rewrite rstrip_string_of_uint.
  pose proof (NilEmpty.usu d) as Husu.
  destruct d; try done; simpl in *; by rewrite Husu.
Qed.

Lemma int_of_str_fmt_d (n : Z) : 0 ≤ n → int_of_str (fmt_d n) = Ok n.
Proof.
  intros Hn. unfold fmt_d. rewrite <- (DecimalZ.of_to n) at 2.
  destruct n as [|p|p]; [done| |lia].
  simpl. rewrite int_of_str_string_of_uint; [done|].
  intros Hnil. pose proof (DecimalPos.Unsigned.of_to p) as Hp.
  rewrite Hnil in Hp. done.
Qed.

Lemma quadrant_size_axes (header2 : gmap string card) (Nb_cuts : Z * Z)
    (Naxis11 Naxis22 : Z) :
  quadrant_size header2 Nb_cuts = Ok (Naxis11, Naxis22) →
  ∃ v1 v2,
    header2 !! "NAXIS1" = Some v1
    ∧ header2 !! "NAXIS2" = Some v2
    ∧ float_div_int (card_float v1) Nb_cuts.1 ≫= int_of_float = Ok Naxis11
    ∧ float_div_int (card_float v2) Nb_cuts.2 ≫= int_of_float = Ok Naxis22.
Proof.
  unfold quadrant_size, header_get.
  destruct (header2 !! "NAXIS1") as [v1|]; [|done].
  destruct (header2 !! "NAXIS2") as [v2|]; [|done]. cbn [mbind result_bind].
  destruct (float_div_int (card_float v1) Nb_cuts.1) as [q1|] eqn:Hq1; [|done].
  cbn [mbind result_bind].
  destruct (int_of_float q1) as [a|] eqn:Ha; [|done]. cbn [mbind result_bind].
  destruct (float_div_int (card_float v2) Nb_cuts.2) as [q2|] eqn:Hq2; [|done].
  cbn [mbind result_bind].
  destruct (int_of_float q2) as [b|] eqn:Hb; [|done]. cbn [mbind result_bind].
  intros [= <- <-]. exists v1, v2. rewrite Hq1, Hq2. cbn [mbind result_bind].
  by rewrite Ha, Hb.
Qed.

Lemma quadrant_offset_unpartitioned (header2 : gmap string card)
    (label : string) (off : Z * Z) :
  quadrant_offset header2 (1, 1) label = Ok off → off = (0, 0).
Proof.
  unfold quadrant_offset.
  destruct (quadrant_size header2 (1, 1)) as [[a b]|]; [|done].
  rewrite bool_decide_eq_true_2 by done. cbn.
  intros [= <-]. f_equal; lia.
Qed.

Lemma quadrant_offset_label (header2 : gmap string card) (Nb_cuts : Z * Z)
    (n i j : Z) (off : Z * Z) :
  Nb_cuts ≠ (1, 1) → 0 ≤ i → 0 ≤ j →
  quadrant_offset header2 Nb_cuts (quadrant_label n i j) = Ok off →
  ∃ Naxis11 Naxis22,
    quadrant_size header2 Nb_cuts = Ok (Naxis11, Naxis22)
    ∧ off = (Naxis22 * j, Naxis11 * i).
Proof.
  intros Hcuts Hi Hj. unfold quadrant_offset.
  destruct (quadrant_size header2 Nb_cuts) as [[a b]|]; [|done].
  rewrite bool_decide_eq_false_2 by done.
  rewrite unpack_quadrant_label. cbn [mbind result_bind py_int].
  rewrite !int_of_str_fmt_d by done. cbn [mbind result_bind].
  intros [= <-]. by exists a, b.
Qed.

(** ** The loop over the image table *)

(** Two tables are stacked when both have rows or neither has. *)
Lemma vstack_Ok (tot detected_sources l : list source) :
  vstack tot detected_sources = Ok l →
  l = tot ++ detected_sources ∧ (tot = [] ↔ detected_sources = []).
Proof.
  destruct tot, detected_sources; try done; intros [= <-]; done.
Qed.

Lemma fmap_eq_nil {A B} (f : A → B) (l : list A) : f <$> l = [] ↔ l = [].
Proof. split; [apply fmap_nil_inv|by intros ->]. Qed.

Section merge.

Variable getheader : string → result (gmap string card).
Variable ascii_read : string → result (list magwcs_row).

(** What one iteration does to the pixel scale and to the merged table. *)
Lemma merge_file_inv (Nb_cuts : Z * Z) (i : nat) (filename label : string)
    (s s' : merge_locals) :
  merge_file getheader ascii_read Nb_cuts i (filename, label) s = Ok s' →
  ∃ header rows original_name idx header2 off,
    getheader filename = Ok header
    ∧ pixScale s' = read_pixScale header (pixScale s)
    ∧ original_name_of Nb_cuts (folder_of (os_path_split filename).1)
        (stem_of (os_path_split filename).2) (strip_idx s)
      = Ok (original_name, idx)
    ∧ getheader (original_name +:+ extension_of (os_path_split filename).2)
      = Ok header2
    ∧ quadrant_offset header2 Nb_cuts label = Ok off
    ∧ detected_sources_tot s'
      = Some (match i with
              | O => []
              | S _ => default [] (detected_sources_tot s)
              end ++ (place label off <$> rows)).
Proof.
  unfold merge_file. destruct (os_path_split filename) as [path filename_ext].
  cbn [fst snd].
  destruct (original_name_of _ _ _ _) as [[original idx]|]; [|done].
  cbn [mbind result_bind].
  destruct (getheader filename) as [header|] eqn:Hh; [|done].
  cbn [mbind result_bind].
  destruct (ascii_read _) as [rows|]; [|done]. cbn [mbind result_bind].
  destruct (getheader (original +:+ _)) as [header2|] eqn:Hh2; [|done].
  cbn [mbind result_bind].
  destruct (quadrant_offset header2 Nb_cuts label) as [off|] eqn:Hoff; [|done].
  cbn [mbind result_bind].
  destruct i as [|i].
  - cbn [mbind result_bind]. intros [= <-].
    by exists header, rows, original, idx, header2, off.
  - destruct (detected_sources_tot s) as [tot|]; [|done].
    destruct (vstack tot _) as [l|] eqn:Hstack; [|done].
    apply vstack_Ok in Hstack as [-> _].
    cbn [mbind result_bind]. intros [= <-].
    by exists header, rows, original, idx, header2, off.
Qed.

(** All that one iteration of the loop over the image table does. *)
Lemma merge_file_full (Nb_cuts : Z * Z) (i : nat) (filename label : string)
    (s s' : merge_locals) :
  merge_file getheader ascii_read Nb_cuts i (filename, label) s = Ok s' →
  ∃ header rows original_name idx header2 off,
    getheader filename = Ok header
    ∧ ascii_read (magfilewcs_of filename) = Ok rows
    ∧ original_name_of Nb_cuts (folder_of (os_path_split filename).1)
        (stem_of (os_path_split filename).2) (strip_idx s)
      = Ok (original_name, idx)
    ∧ getheader (original_name +:+ extension_of (os_path_split filename).2)
      = Ok header2
    ∧ quadrant_offset header2 Nb_cuts label = Ok off
    ∧ (i ≠ 0%nat →
       ∃ tot, detected_sources_tot s = Some tot ∧ (tot = [] ↔ rows = []))
    ∧ s' = {| transients_out_list :=
                transients_out_list s ++ [original_name +:+ ".oc"];
              pixScale := read_pixScale header (pixScale s);
              strip_idx := idx;
              folder := Some (folder_of (os_path_split filename).1);
              filename2 := Some (stem_of (os_path_split filename).2);
              detected_sources_tot :=
                Some (match i with
                      | O => []
                      | S _ => default [] (detected_sources_tot s)
                      end ++ (place label off <$> rows)) |}.
Proof.
  unfold merge_file, magfilewcs_of.
  destruct (os_path_split filename) as [path filename_ext].
  cbn [fst snd].
  destruct (original_name_of _ _ _ _) as [[original idx]|]; [|done].
  cbn [mbind result_bind].
  destruct (getheader filename) as [header|] eqn:Hh; [|done].
  cbn [mbind result_bind].
  destruct (ascii_read _) as [rows|]; [|done]. cbn [mbind result_bind].
  destruct (getheader (original +:+ _)) as [header2|] eqn:Hh2; [|done].
  cbn [mbind result_bind].
  destruct (quadrant_offset header2 Nb_cuts label) as [off|] eqn:Hoff; [|done].
  cbn [mbind result_bind].
  destruct i as [|i].
  - cbn [mbind result_bind]. intros [= <-].
    exists header, rows, original, idx, header2, off. by repeat split.
  - destruct (detected_sources_tot s) as [tot|]; [|done].
    destruct (vstack tot _) as [l|] eqn:Hstack; [|done].
    apply vstack_Ok in Hstack as [-> Hempty].
    cbn [mbind result_bind]. intros [= <-].
    exists header, rows, original, idx, header2, off.
    do 5 (split; [done|]). split; [|done]. intros _. exists tot.
    split; [done|]. rewrite Hempty. apply fmap_eq_nil.
Qed.

Lemma read_pixScale_first (header : gmap string card) (prev : option card) :
  read_pixScale header prev
  = match first_scale_card header with
    | Some v => Some (card_abs v)
    | None => prev
    end.
Proof.
  unfold read_pixScale, first_scale_card. cbn [omap list_omap].
  destruct (header !! "CDELT1"); [done|].
  destruct (header !! "_DELT1"); [done|].
  by destruct (header !! "CD1_1").
Qed.

Lemma merge_loop_snoc (image_table : list (string * string))
    (entry : string * string) (Nb_cuts : Z * Z) :
  merge_loop getheader ascii_read (image_table ++ [entry]) Nb_cuts
  = merge_loop getheader ascii_read image_table Nb_cuts
    ≫= merge_file getheader ascii_read Nb_cuts (length image_table) entry.
Proof. unfold merge_loop. by rewrite for_enumerate_snoc. Qed.

(** When no header of the table has a scale card the variable is still
    unbound after the loop. *)
Lemma for_enumerate_no_scale (Nb_cuts : Z * Z)
    (image_table : list (string * string)) (i : nat) (s s' : merge_locals) :
  (∀ filename header, filename ∈ image_table.*1 →
     getheader filename = Ok header → first_scale_card header = None) →
  for_enumerate i image_table (merge_file getheader ascii_read Nb_cuts) s
    = Ok s' →
  pixScale s' = pixScale s.
Proof.
  revert i s. induction image_table as [|[filename label] table IH];
    intros i s Hnone; simpl; [by intros [= <-]|].
  intros (s1 & Hfile & Hrest)%bind_Ok.
  apply merge_file_inv in Hfile as (header & _ & _ & _ & _ & _ & Hh & Hp & _).
  rewrite (IH (S i) s1); [|intros f h Hf; apply Hnone; by right|done].
  rewrite Hp, read_pixScale_first, (Hnone filename header); [done| |done].
  apply list_elem_of_here.
Qed.

End merge.

(** ** The claims on the loop over the image table *)

(** C3 (as amended): every row of the [.magwcs] table read for a file is
    merged, at the same rank, with its position in the file plus the offset of
    the file's quadrant, its other columns as they were read; the offset is
    zero for the grid 1 x 1; for a label [Q<n>_<i>_<j>] of another grid it is
    [int(NAXIS2 / Nb_cuts[1]) * j] in x and [int(NAXIS1 / Nb_cuts[0]) * i]
    in y, the axis lengths being those of the header read for the original
    image; and so for [Q3_1_0] in a grid 2 x 2 it is 0 in x and
    [int(NAXIS1 / 2) * 1] in y. *)
Theorem global_position_offset
    (getheader : string → result (gmap string card))
    (ascii_read : string → result (list magwcs_row))
    (Nb_cuts : Z * Z) (i : nat) (filename label : string)
    (s s' : merge_locals) :
  merge_file getheader ascii_read Nb_cuts i (filename, label) s = Ok s' →
  ∃ rows original_name idx header2 off merged,
    ascii_read (magfilewcs_of filename) = Ok rows
    ∧ original_name_of Nb_cuts (folder_of (os_path_split filename).1)
        (stem_of (os_path_split filename).2) (strip_idx s)
      = Ok (original_name, idx)
    ∧ getheader (original_name +:+ extension_of (os_path_split filename).2)
      = Ok header2
    ∧ quadrant_offset header2 Nb_cuts label = Ok off
    ∧ detected_sources_tot s'
      = Some (match i with
              | O => []
              | S _ => default [] (detected_sources_tot s)
              end ++ merged)
    ∧ length merged = length rows
    ∧ (∀ k r m, rows !! k = Some r → merged !! k = Some m →
         Xpos m = (m_Xpos r + float_of_Z off.1)%float
         ∧ Ypos m = (m_Ypos r + float_of_Z off.2)%float
         ∧ RAJ2000 m = m_RAJ2000 r ∧ DEJ2000 m = m_DEJ2000 r
         ∧ mag_inst m = m_mag_inst r ∧ mag_inst_err m = m_mag_inst_err r
         ∧ filenames m = m_filenames r ∧ row_quadrant m = label)
    ∧ (Nb_cuts = (1, 1) → off = (0, 0))
    ∧ (Nb_cuts ≠ (1, 1) → ∀ n qi qj,
         label = quadrant_label n qi qj → 0 ≤ qi → 0 ≤ qj →
         ∃ Naxis11 Naxis22 v1 v2,
           header2 !! "NAXIS1" = Some v1
           ∧ header2 !! "NAXIS2" = Some v2
           ∧ float_div_int (card_float v1) Nb_cuts.1 ≫= int_of_float
             = Ok Naxis11
           ∧ float_div_int (card_float v2) Nb_cuts.2 ≫= int_of_float
             = Ok Naxis22
           ∧ off = (Naxis22 * qj, Naxis11 * qi))
    ∧ (Nb_cuts = (2, 2) → label = "Q3_1_0" →
         ∃ Naxis11 v1,
           header2 !! "NAXIS1" = Some v1
           ∧ float_div_int (card_float v1) 2 ≫= int_of_float = Ok Naxis11
           ∧ off = (0, Naxis11 * 1)).
Proof.
  intros (header & rows & original & idx & header2 & off
          & _ & Hrows & Horig & Hh2 & Hoff & _ & ->)%merge_file_full.
  exists rows, original, idx, header2, off, (place label off <$> rows).
  do 5 (split; [done|]). split; [by rewrite length_fmap|].
  split; [|split; [|split]].
  - intros k r m Hr. rewrite list_lookup_fmap, Hr. by intros [= <-].
  - intros ->. by eapply quadrant_offset_unpartitioned.
  - intros Hcuts n qi qj -> Hqi Hqj.
    destruct (quadrant_offset_label header2 Nb_cuts n qi qj off Hcuts Hqi Hqj
                Hoff) as (a & b & Hsize & ->).
    destruct (quadrant_size_axes _ _ _ _ Hsize) as (v1 & v2 & ? & ? & ? & ?).
    by exists a, b, v1, v2.
  - intros -> ->.
    destruct (quadrant_offset_label header2 (2, 2) 3 1 0 off) as
      (a & b & Hsize & ->); [done|done|done|exact Hoff|].
    destruct (quadrant_size_axes _ _ _ _ Hsize) as (v1 & v2 & ? & ? & ? & ?).
    exists a, v1. split; [done|]. split; [done|]. f_equal. lia.
Qed.

(** For the third quadrant of the example, merged after the first two: the
    detection read at (1, 2) is appended to the merged table at (1, 52). *)
Lemma global_position_offset_witness :
  ∃ s' m,
    merge_loop ex_getheader (ex_ascii_read [ex_row 1 2]) (take 2 ex_quadrants)
      (2, 2) = Ok ex_merged_two
    ∧ merge_file ex_getheader (ex_ascii_read [ex_row 1 2]) (2, 2) 2
        ("gmadet_results/img_Q3.fits", "Q3_1_0") ex_merged_two = Ok s'
    ∧ detected_sources_tot s' = Some (take 2 ex_quadrant_sources ++ [m])
    ∧ Xpos m = 1%float ∧ Ypos m = 52%float
    ∧ RAJ2000 m = 150%float ∧ DEJ2000 m = 2%float
    ∧ row_quadrant m = "Q3_1_0".
Proof.
  destruct (merge_file ex_getheader (ex_ascii_read [ex_row 1 2]) (2, 2) 2
              ("gmadet_results/img_Q3.fits", "Q3_1_0") ex_merged_two)
    as [s'|e] eqn:Hrun; [|vm_compute in Hrun; discriminate].
  destruct (global_position_offset ex_getheader (ex_ascii_read [ex_row 1 2])
              (2, 2) 2 "gmadet_results/img_Q3.fits" "Q3_1_0" ex_merged_two s'
              Hrun)
    as (rows & original & idx & header2 & off & merged
        & Hrows & Horig & Hh2 & _ & Htot & Hlen & Hpos & _ & _ & HQ3).
  injection Hrows as <-.
  vm_compute in Horig. injection Horig as <- <-.
  vm_compute in Hh2. injection Hh2 as <-.
  destruct (HQ3 eq_refl eq_refl) as (Naxis11 & v1 & Hv1 & Hdiv & ->).
  vm_compute in Hv1. injection Hv1 as <-.
  vm_compute in Hdiv. injection Hdiv as <-.
  destruct merged as [|m [|? ?]]; try done.
  destruct (Hpos 0%nat (ex_row 1 2) m eq_refl eq_refl)
    as (Hx & Hy & Hra & Hde & _ & _ & _ & Hq).
  exists s', m. split; [vm_compute; reflexivity|].
  split; [done|]. split; [exact Htot|].
  rewrite Hx, Hy, Hra, Hde, Hq. repeat split; vm_compute; reflexivity.
Defined.

(** C3, counterexample: an image 100 pixels wide and 60 pixels high
    ([NAXIS1 = 100], [NAXIS2 = 60]) in 2 x 2 quadrants.  The rows of
    [Q3_1_0] are moved by 0 in x and by 50 in y; half the height is 30. *)
Lemma offset_Q3_is_half_of_NAXIS1 :
  ex_header !! "NAXIS1" = Some (CInt 100)
  ∧ ex_header !! "NAXIS2" = Some (CInt 60)
  ∧ quadrant_offset ex_header (2, 2) "Q3_1_0" = Ok (0, 50)
  ∧ (0, 50) ≠ (60 / 2 * 1, 0)
  ∧ (50, 0) ≠ (60 / 2 * 1, 0).
Proof. repeat split; try (vm_compute; reflexivity); discriminate. Qed.

(** C4 (as amended): the three cards are tried in the order [CDELT1],
    [_DELT1], [CD1_1] and the absolute value of the first one present is
    taken; when none is present nothing is raised and the variable keeps
    what it held, so if no header of the image table has one it is still
    unbound after the loop, and the function then raises [NameError] before
    it sends any query: no value stands in for the scale. *)
Theorem pixel_scale_lookup
    (getheader : string → result (gmap string card))
    (ascii_read : string → result (list magwcs_row))
    (run_xmatch : list candidate → string → float → list Z)
    (image_table : list (string * string)) (radius : float)
    (catalogs : list string) (Nb_cuts : Z * Z) (s : merge_locals) :
  merge_loop getheader ascii_read image_table Nb_cuts = Ok s →
  (∀ header prev,
     read_pixScale header prev
     = match first_scale_card header with
       | Some v => Some (card_abs v)
       | None => prev
       end)
  ∧ (∀ header,
       first_scale_card header
       = match header !! "CDELT1" with
         | Some v => Some v
         | None =>
             match header !! "_DELT1" with
             | Some v => Some v
             | None => header !! "CD1_1"
             end
         end)
  ∧ ((∀ filename header, filename ∈ image_table.*1 →
        getheader filename = Ok header → first_scale_card header = None) →
     pixScale s = None)
  ∧ (pixScale s = None →
     crosscheck_with_catalogues getheader ascii_read run_xmatch image_table
       radius catalogs Nb_cuts = ([], Raise NameError)).
Proof.
  intros Hmerge. split; [apply read_pixScale_first|]. split; [|split].
  - intros header. unfold first_scale_card. cbn [omap list_omap].
    destruct (header !! "CDELT1"); [done|].
    destruct (header !! "_DELT1"); [done|].
    by destruct (header !! "CD1_1").
  - intros Hnone.
    by rewrite (for_enumerate_no_scale getheader ascii_read Nb_cuts
                  image_table 0 merge_init s Hnone Hmerge).
  - intros Hp. unfold crosscheck_with_catalogues. rewrite Hmerge, Hp.
    by destruct (detected_sources_tot s).
Qed.

Lemma pixel_scale_lookup_witness :
  crosscheck_with_catalogues (λ _, Ok ex_header_no_scale)
    (ex_ascii_read [ex_row 1 2]) ex_run_xmatch
    [("gmadet_results/img.fits", "None")] 3 ["I/345/gaia2"] (1, 1)
  = ([], Raise NameError).
Proof.
  refine (proj2 (proj2 (proj2
    (pixel_scale_lookup (λ _, Ok ex_header_no_scale)
       (ex_ascii_read [ex_row 1 2]) ex_run_xmatch
       [("gmadet_results/img.fits", "None")] 3 ["I/345/gaia2"] (1, 1)
       {| transients_out_list := ["gmadet_results/img.oc"];
          pixScale := None; strip_idx := None;
          folder := Some "gmadet_results/"; filename2 := Some "img";
          detected_sources_tot := Some [ex_source 1 2] |} _))) _).
  - vm_compute. reflexivity.
  - reflexivity.
Defined.

(** The merged table of the four quadrants of the example. *)
Lemma ex_quadrants_run :
  crosscheck_with_catalogues ex_getheader (ex_ascii_read [ex_row 1 2])
    ex_run_xmatch ex_quadrants 3 ["II/349/ps1"; "I/284/out"] (2, 2)
  = ([Query "II/349/ps1"
        (set_idx ex_quadrant_sources) ex_radius;
      WriteTable "gmadet_results/img.oc" [];
      WriteRADEC "gmadet_results/img_Q4_oc_RADEC" []],
     Ok []).
Proof. vm_compute. reflexivity. Qed.

(** C4, counterexample: the header of the fourth quadrant has none of the
    three cards; the file is merged all the same, the scale read from the
    third quadrant is used for the query, and the function returns. *)
Lemma missing_scale_is_not_an_error :
  ex_getheader "gmadet_results/img_Q4.fits" = Ok ex_header_no_scale
  ∧ first_scale_card ex_header_no_scale = None
  ∧ (crosscheck_with_catalogues ex_getheader (ex_ascii_read [ex_row 1 2])
       ex_run_xmatch ex_quadrants 3 ["II/349/ps1"; "I/284/out"] (2, 2)).2
    = Ok []
  ∧ head (crosscheck_with_catalogues ex_getheader
            (ex_ascii_read [ex_row 1 2]) ex_run_xmatch ex_quadrants 3
            ["II/349/ps1"; "I/284/out"] (2, 2)).1
    = Some (Query "II/349/ps1" (set_idx ex_quadrant_sources)
              (crossmatch_radius 3 (CFloat 0.000154339))).
Proof. rewrite ex_quadrants_run. repeat split; vm_compute; reflexivity. Qed.

Lemma merge_file_names
    (getheader : string → result (gmap string card))
    (ascii_read : string → result (list magwcs_row))
    (Nb_cuts : Z * Z) (i : nat) (filename label : string)
    (s s' : merge_locals) :
  merge_file getheader ascii_read Nb_cuts i (filename, label) s = Ok s' →
  folder s' = Some (folder_of (os_path_split filename).1)
  ∧ filename2 s' = Some (stem_of (os_path_split filename).2).
Proof.
  unfold merge_file. destruct (os_path_split filename) as [path filename_ext].
  cbn [fst snd].
  destruct (original_name_of _ _ _ _) as [[original idx]|]; [|done].
  cbn [mbind result_bind].
  destruct (getheader filename) as [header|]; [|done].
  cbn [mbind result_bind].
  destruct (ascii_read _) as [rows|]; [|done]. cbn [mbind result_bind].
  destruct (getheader (original +:+ _)) as [header2|]; [|done].
  cbn [mbind result_bind].
  destruct (quadrant_offset header2 Nb_cuts label) as [off|]; [|done].
  cbn [mbind result_bind].
  destruct i as [|i];
    [|destruct (detected_sources_tot s); [|done];
      destruct (vstack _ _); [|done]];
    cbn [mbind result_bind]; by intros [= <-].
Qed.

Lemma written_paths_queries (queries writes : list event) :
  (∀ e, e ∈ queries → ∃ cat t tol, e = Query cat t tol) →
  written_paths (queries ++ writes) = written_paths writes.
Proof.
  intros Hall. unfold written_paths. rewrite omap_app.
  induction queries as [|q queries IH]; [done|].
  destruct (Hall q) as (cat & t & tol & ->); [apply list_elem_of_here|].
  simpl. apply IH. intros e He. apply Hall. by apply list_elem_of_further.
Qed.

(** Whenever the function returns, the companion file is named after the
    last file of the image table as it stands, quadrant suffix included. *)
Lemma companion_path_of_last_file
    (getheader : string → result (gmap string card))
    (ascii_read : string → result (list magwcs_row))
    (run_xmatch : list candidate → string → float → list Z)
    (image_table : list (string * string)) (filename label : string)
    (radius : float) (catalogs : list string) (Nb_cuts : Z * Z)
    (events : list event) (candidates : list candidate) :
  crosscheck_with_catalogues getheader ascii_read run_xmatch
    (image_table ++ [(filename, label)]) radius catalogs Nb_cuts
    = (events, Ok candidates) →
  ∃ transients,
    written_paths events
    = [transients;
       folder_of (os_path_split filename).1
       +:+ stem_of (os_path_split filename).2 +:+ "_oc_RADEC"].
Proof.
  unfold crosscheck_with_catalogues. rewrite merge_loop_snoc.
  destruct (merge_loop _ _ image_table Nb_cuts) as [s0|]; [|done].
  cbn [mbind result_bind].
  destruct (merge_file _ _ _ _ _ s0) as [s|] eqn:Hfile; [|done].
  apply merge_file_names in Hfile as [Hfolder Hname].
  destruct (detected_sources_tot s) as [tot|]; [|done].
  destruct (pixScale s) as [p|]; [|done].
  pose proof (catalog_loop_queries run_xmatch radius p catalogs (set_idx tot))
    as Hall.
  destruct (catalog_loop _ _ _ _ _) as [queries [t|]]; [|done].
  unfold write_candidates.
  destruct (np_unique_first _) as [transients|]; [|done].
  cbn [mbind result_bind]. rewrite Hfolder, Hname. intros [= <- <-].
  exists transients. rewrite written_paths_queries; [done|].
  intros e He. destruct (Hall e He) as (cat & t' & ->). by eexists _, _, _.
Qed.

(** C8: for the four quadrants of [img.fits] the table is written to
    [img.oc], but the companion to [img_Q4_oc_RADEC]: the name of the last
    quadrant, with its suffix. *)
Theorem companion_keeps_quadrant_suffix :
  written_paths
    (crosscheck_with_catalogues ex_getheader (ex_ascii_read [ex_row 1 2])
       ex_run_xmatch ex_quadrants 3 ["II/349/ps1"; "I/284/out"] (2, 2)).1
  = ["gmadet_results/img.oc"; "gmadet_results/img_Q4_oc_RADEC"].
Proof. rewrite ex_quadrants_run. reflexivity. Qed.

(** C10: the pixel scale after the merge loop is the one of the last file
    of the image table when its header has a scale card, whatever the files
    before it held; when it has none, it is the scale the loop had reached
    before that file; and this is the scale in the radius of every query. *)
Theorem pixel_scale_of_last_file
    (getheader : string → result (gmap string card))
    (ascii_read : string → result (list magwcs_row))
    (run_xmatch : list candidate → string → float → list Z)
    (image_table : list (string * string)) (filename label : string)
    (Nb_cuts : Z * Z) (s : merge_locals) (header : gmap string card) :
  merge_loop getheader ascii_read (image_table ++ [(filename, label)]) Nb_cuts
    = Ok s →
  getheader filename = Ok header →
  (∀ v, first_scale_card header = Some v → pixScale s = Some (card_abs v))
  ∧ (first_scale_card header = None →
       ∃ s0, merge_loop getheader ascii_read image_table Nb_cuts = Ok s0
             ∧ pixScale s = pixScale s0)
  ∧ (∀ radius catalogs cat t tol,
       Query cat t tol
         ∈ (crosscheck_with_catalogues getheader ascii_read run_xmatch
              (image_table ++ [(filename, label)]) radius catalogs Nb_cuts).1 →
       ∃ scale, pixScale s = Some scale
                ∧ tol = (radius * card_float scale * 3600)%float).
Proof.
  intros Hmerge Hheader. pose proof Hmerge as Hsnoc.
  rewrite merge_loop_snoc in Hsnoc.
  apply bind_Ok in Hsnoc as (s0 & Hs0 & Hfile).
  apply merge_file_inv in Hfile as (h & _ & _ & _ & _ & _ & Hh & Hp & _).
  rewrite Hheader in Hh. injection Hh as <-.
  rewrite read_pixScale_first in Hp. split; [|split].
  - intros v Hv. by rewrite Hp, Hv.
  - intros Hnone. exists s0. by rewrite Hp, Hnone.
  - intros radius catalogs cat t tol (k & Hk)%list_elem_of_lookup_1.
    destruct (crosscheck_chain getheader ascii_read run_xmatch _ radius
                catalogs Nb_cuts k cat t tol Hk)
      as (s1 & p & Hmerge1 & Hp1 & Htol & _).
    rewrite Hmerge in Hmerge1. injection Hmerge1 as <-. by exists p.
Qed.

Lemma pixel_scale_of_last_file_witness :
  merge_loop ex_getheader (ex_ascii_read [ex_row 1 2]) ex_quadrants (2, 2)
    = Ok ex_merged
  ∧ ex_getheader "gmadet_results/img_Q4.fits" = Ok ex_header_no_scale
  ∧ first_scale_card ex_header_no_scale = None
  ∧ (∃ s0, merge_loop ex_getheader (ex_ascii_read [ex_row 1 2])
             (take 3 ex_quadrants) (2, 2) = Ok s0
           ∧ pixScale ex_merged = pixScale s0)
  ∧ pixScale ex_merged = Some (CFloat 0.000154339).
Proof.
  assert (merge_loop ex_getheader (ex_ascii_read [ex_row 1 2])
            (take 3 ex_quadrants ++ [("gmadet_results/img_Q4.fits", "Q4_1_1")])
            (2, 2) = Ok ex_merged) as Hmerge by (vm_compute; reflexivity).
  split; [exact Hmerge|]. split; [reflexivity|]. split; [reflexivity|].
  split; [|reflexivity].
  apply (pixel_scale_of_last_file ex_getheader (ex_ascii_read [ex_row 1 2])
           ex_run_xmatch (take 3 ex_quadrants) "gmadet_results/img_Q4.fits"
           "Q4_1_1" (2, 2) ex_merged ex_header_no_scale Hmerge eq_refl).
  reflexivity.
Defined.

(** * Further properties of the two functions *)

(** ** [astrometric_calib]: how the calibration loop ends *)

(** X1: on every file the calibration loop ends, whatever scamp reports;
    scamp has then been run at most [itermax + 1] times, and the loop was
    left either because the residual it holds (the last one reported, or
    the initial 10) is not at or above the accuracy, or because [ii] has
    passed [itermax]. *)
Theorem scamp_until_exit {W : Type} (scamp : string → W → float * W)
    (filein : string) (accuracy : float) (itermax : Z) (st : solver_state) :
  ∃ ii doffset st',
    scamp_while scamp (Z.to_nat (itermax + 1)) filein accuracy itermax 0 10 st
      = Some (ii, doffset, st')
    ∧ scamp_until scamp filein accuracy itermax st = Ok st'
    ∧ scamp_runs st' = scamp_runs st ++ replicate (Z.to_nat ii) filein
    ∧ 0 ≤ ii ≤ Z.max 0 (itermax + 1)
    ∧ ((accuracy <=? doffset)%float = false ∨ itermax < ii).
Proof.
  destruct (scamp_while_terminates scamp (Z.to_nat (itermax + 1)) filein
              accuracy itermax 0 10 st) as (ii & d & st' & Hw & Hii & Hr).
  { by rewrite Z.sub_0_r. }
  exists ii, d, st'. unfold scamp_until. rewrite Hw.
  rewrite Z.sub_0_r in Hr. do 4 (split; [done|]).
  clear Hr Hii. revert Hw. generalize (Z.to_nat (itermax + 1)) as fuel.
  generalize 0 as i0. generalize 10%float as d0. revert st.
  intros st d0 i0 fuel. revert st d0 i0.
  induction fuel as [|fuel IH]; intros st d0 i0; simpl;
    destruct ((accuracy <=? d0)%float && (i0 <=? itermax)) eqn:Hc;
    try discriminate.
  - intros [= <- <- <-]. apply andb_false_iff in Hc as [Hc|Hc]; [by left|].
    right. by apply Z.leb_gt.
  - destruct (run_scamp scamp filein st) as [d1 st1]. apply IH.
  - intros [= <- <- <-]. apply andb_false_iff in Hc as [Hc|Hc]; [by left|].
    right. by apply Z.leb_gt.
Qed.

(** X2: scamp is not run at all on a file exactly when the accuracy asked
    for is above the initial residual 10 (or is not a number), or when
    [itermax] is negative. *)
Theorem scamp_not_run_iff {W : Type} (scamp : string → W → float * W)
    (filein : string) (accuracy : float) (itermax : Z) (st st' : solver_state) :
  scamp_until scamp filein accuracy itermax st = Ok st' →
  scamp_runs st' = scamp_runs st
  ↔ (accuracy <=? 10)%float = false ∨ itermax < 0.
Proof.
  unfold scamp_until.
  destruct (Z.to_nat (itermax + 1)) as [|fuel] eqn:Hfuel; simpl;
    destruct ((accuracy <=? 10)%float && (0 <=? itermax)) eqn:Hc;
    try discriminate.
  - intros [= <-]. split; [|done]. intros _.
    apply andb_false_iff in Hc as [Hc|Hc]; [by left|right; by apply Z.leb_gt].
  - pose proof (run_scamp_runs scamp filein st) as Hruns.
    destruct (run_scamp scamp filein st) as [d1 st1]. simpl in Hruns.
    destruct (scamp_while_terminates scamp fuel filein accuracy itermax
                (0 + 1) d1 st1) as (ii & d & st2 & Hw & _ & Hr); [lia|].
    rewrite Hw. intros [= <-]. apply andb_true_iff in Hc as [Hacc Hmax].
    apply Z.leb_le in Hmax. split.
    + intros Heq. rewrite Hr, Hruns, <- app_assoc in Heq.
      apply (f_equal length) in Heq. rewrite !length_app in Heq.
      simpl in Heq. lia.
    + intros [Hn|Hn]; [congruence|lia].
  - intros [= <-]. split; [|done]. intros _.
    apply andb_false_iff in Hc as [Hc|Hc]; [by left|right; by apply Z.leb_gt].
Qed.

Lemma scamp_not_run_iff_witness :
  scamp_runs {| world := tt; scamp_runs := [] |} = []
  ↔ (11 <=? 10)%float = false ∨ 3 < 0.
Proof.
  apply (scamp_not_run_iff (λ _ (w : unit), (0%float, w)) "img.fits" 11 3
           {| world := tt; scamp_runs := [] |}
           {| world := tt; scamp_runs := [] |}).
  vm_compute. reflexivity.
Defined.

(** ** Strings *)

Lemma str_app_length (a b : string) :
  String.length (a +:+ b) = (String.length a + String.length b)%nat.
Proof. induction a as [|c a IH]; simpl; [done|by rewrite IH]. Qed.

Lemma str_app_cons (x : ascii) (a b : string) :
  String x a +:+ b = String x (a +:+ b).
Proof. reflexivity. Qed.

Lemma str_app_assoc (a b c : string) : (a +:+ b) +:+ c = a +:+ b +:+ c.
Proof.
  induction a as [|x a IH]; [done|]. by rewrite !str_app_cons, IH.
Qed.

Lemma str_app_nil_r (a : string) : a +:+ "" = a.
Proof. induction a as [|x a IH]; [done|]. by rewrite str_app_cons, IH. Qed.

Lemma str_app_inv_tail (a b e : string) : a +:+ e = b +:+ e → a = b.
Proof.
  revert b. induction a as [|x a IH]; intros [|y b] H.
  - done.
  - apply (f_equal String.length) in H.
    rewrite !str_app_length in H. simpl in H. lia.
  - apply (f_equal String.length) in H.
    rewrite !str_app_length in H. simpl in H. lia.
  - rewrite !str_app_cons in H. injection H as -> H. f_equal. by apply IH.
Qed.

Lemma quadrant_file_inj (resultDir filename2 extension : string) (n m : Z) :
  quadrant_file resultDir filename2 extension n
  = quadrant_file resultDir filename2 extension m → n = m.
Proof.
  unfold quadrant_file. intros H.
  do 3 apply String.app_inj in H.
  apply str_app_inv_tail in H. by apply fmt_d_inj.
Qed.

(** ** [astrometric_calib]: the files of the image table *)

Section grid_files.

Context {W : Type}.
Variable scamp : string → W → float * W.
Variables (resultDir filename2 extension : string).
Variables (accuracy : float) (itermax : Z).

Local Abbreviation cell :=
  (scamp_cell scamp resultDir filename2 extension accuracy itermax).
Local Abbreviation file_at := (quadrant_file resultDir filename2 extension).

(** One cell appends its file, and runs scamp on that file only. *)
Lemma scamp_cell_file (i j : Z) (s : cells) :
  ∃ s', cell i j s = Ok s'
        ∧ index s' = index s + 1
        ∧ filelist s' = filelist s ++ [file_at (index s + 1)]
        ∧ ∃ runs : nat, scamp_runs (solver s')
            = scamp_runs (solver s) ++ replicate runs (file_at (index s + 1)).
Proof.
  unfold scamp_cell.
  destruct (scamp_until_Ok scamp (file_at (index s + 1)) accuracy itermax
              (solver s)) as (st' & runs & -> & Hruns & _).
  eexists. split; [done|]. simpl. do 2 (split; [done|]). by exists runs.
Qed.

Lemma scamp_row_files (i : Z) (n : nat) (a : Z) (s : cells) :
  ∃ s', for_ (seqZ a (Z.of_nat n)) (λ j s, cell i j s) s = Ok s'
        ∧ index s' = index s + Z.of_nat n
        ∧ filelist s' = filelist s ++ (file_at <$> seqZ (index s + 1) (Z.of_nat n))
        ∧ ∃ l, scamp_runs (solver s') = scamp_runs (solver s) ++ l
               ∧ l ⊆ file_at <$> seqZ (index s + 1) (Z.of_nat n).
Proof.
  revert a s. induction n as [|n IH]; intros a s.
  - exists s. simpl. rewrite app_nil_r. repeat split; [lia|].
    exists []. by rewrite app_nil_r.
  - rewrite (seqZ_cons a), (seqZ_cons (index s + 1)) by lia. cbn [for_].
    destruct (scamp_cell_file i a s) as (s1 & -> & Hi1 & Hf1 & runs & Hr1).
    cbn [mbind result_bind].
    destruct (IH (Z.succ a) s1) as (s' & Hfor & Hidx & Hf & l & Hr & Hl).
    replace (Z.pred (Z.of_nat (S n))) with (Z.of_nat n) by lia.
    exists s'. split; [exact Hfor|]. split; [lia|].
    replace (Z.succ (index s + 1)) with (index s1 + 1) by lia.
    split; [by rewrite Hf, Hf1, <- app_assoc|].
    exists (replicate runs (file_at (index s + 1)) ++ l).
    split; [by rewrite Hr, Hr1, <- app_assoc|].
    intros f [Hin|Hin]%elem_of_app; rewrite fmap_cons.
    + apply elem_of_replicate in Hin as [-> _]. apply list_elem_of_here.
    + apply list_elem_of_further. by apply Hl.
Qed.

Lemma scamp_grid_files (c : Z) (m : nat) (a : Z) (s : cells) :
  0 ≤ c →
  ∃ s', for_ (seqZ a (Z.of_nat m)) (λ i s, for_ (range c) (λ j s, cell i j s) s) s
          = Ok s'
        ∧ index s' = index s + Z.of_nat m * c
        ∧ filelist s'
          = filelist s ++ (file_at <$> seqZ (index s + 1) (Z.of_nat m * c))
        ∧ ∃ l, scamp_runs (solver s') = scamp_runs (solver s) ++ l
               ∧ l ⊆ file_at <$> seqZ (index s + 1) (Z.of_nat m * c).
Proof.
  intros Hc. revert a s. induction m as [|m IH]; intros a s.
  - exists s. simpl. rewrite app_nil_r. repeat split; [lia|].
    exists []. by rewrite app_nil_r.
  - rewrite seqZ_cons by lia. cbn [for_]. unfold range.
    destruct (scamp_row_files a (Z.to_nat c) 0 s)
      as (s1 & Hrow & Hi1 & Hf1 & l1 & Hr1 & Hl1).
    rewrite Z2Nat.id in Hrow, Hi1, Hf1, Hl1 by lia. rewrite Hrow.
    cbn [mbind result_bind].
    destruct (IH (Z.succ a) s1) as (s' & Hfor & Hidx & Hf & l & Hr & Hl).
    replace (Z.pred (Z.of_nat (S m))) with (Z.of_nat m) by lia.
    exists s'. split; [exact Hfor|]. split; [lia|].
    replace (Z.of_nat (S m) * c) with (c + Z.of_nat m * c) by lia.
    rewrite seqZ_app, fmap_app by lia.
    replace (index s + 1 + c) with (index s1 + 1) by lia.
    split; [by rewrite Hf, Hf1, <- app_assoc|].
    exists (l1 ++ l). split; [by rewrite Hr, Hr1, <- app_assoc|].
    intros f [Hin|Hin]%elem_of_app; apply elem_of_app; [left|right]; auto.
Qed.

End grid_files.

(** X3: with scamp and a grid of [r] rows and [c] columns other than 1 x 1,
    the files of the image table are
    [<folder><outputDir><stem>_Q<n><extension>] for [n = 1 .. r * c], in
    this order and pairwise distinct, where [<stem>] is the base name of the
    image up to its first dot and [<extension>] the rest of it; scamp is run
    on files of the table only, never on the image itself. *)
Theorem astrometric_calib_scamp_files {W : Type}
    (scamp : string → W → float * W)
    (getheader : string → result (gmap string card))
    (filename outputDir : string) (accuracy : float) (itermax : Z) (w : W)
    (r c : Z) :
  0 < r → 0 < c → (r, c) ≠ (1, 1) →
  ∃ table st,
    astrometric_calib scamp getheader filename (r, c) "scamp" outputDir
      accuracy itermax w = Ok (table, st)
    ∧ table.*1
      = quadrant_file (folder_of (os_path_split filename).1 +:+ outputDir)
          (stem_of (os_path_split filename).2)
          (extension_of (os_path_split filename).2) <$> seqZ 1 (r * c)
    ∧ NoDup table.*1
    ∧ scamp_runs st ⊆ table.*1.
Proof.
  intros Hr Hc Hgrid. unfold astrometric_calib.
  destruct (os_path_split filename) as [path filename_ext].
  cbn [bool_decide decide_rel fst snd].
  rewrite (bool_decide_eq_true_2 ("scamp" ∈ ["scamp"; "astrometrynet"]))
    by (apply list_elem_of_here).
  rewrite (bool_decide_eq_true_2 ("scamp" = "scamp")) by done.
  assert ((1 <? r) || (1 <? c) = true) as ->.
  { apply orb_true_iff. rewrite !Z.ltb_lt.
    destruct (decide (r = 1)) as [->|]; [|lia].
    destruct (decide (c = 1)) as [->|]; [done|lia]. }
  match goal with |- context [grid_loop _ ?cell ?s0] =>
    destruct (scamp_grid_files scamp (folder_of path +:+ outputDir)
                (stem_of filename_ext) (extension_of filename_ext)
                accuracy itermax c (Z.to_nat r) 0 s0)
      as (s' & Hfor & _ & Hf & l & Hruns & Hl); [lia|] end.
  rewrite Z2Nat.id in Hfor, Hf, Hl by lia. simpl in Hf, Hruns, Hl.
  unfold grid_loop, range in *. cbn [fst snd]. rewrite Hfor.
  cbn [mbind result_bind].
  destruct (scamp_grid scamp (folder_of path +:+ outputDir)
              (stem_of filename_ext) (extension_of filename_ext)
              accuracy itermax c Hc (Z.to_nat r) 0
              {| index := 0; filelist := []; quadrant := [];
                 solver := {| world := w; scamp_runs := [] |} |})
    as (s'' & Hfor' & _ & _ & Hq); [done|].
  rewrite Z2Nat.id in Hfor', Hq by lia. unfold range in Hfor'.
  rewrite Hfor in Hfor'. injection Hfor' as <-. simpl in Hq.
  eexists _, _. split; [done|].
  assert ((image_table_of s').*1 = filelist s') as Hfst.
  { unfold image_table_of. apply fst_zip.
    rewrite Hf, Hq, !length_fmap, !length_seqZ. lia. }
  rewrite Hfst, Hf, Hruns. split; [done|]. split; [|done].
  apply NoDup_fmap_2_strong; [|apply NoDup_seqZ].
  intros p q _ _. apply quadrant_file_inj.
Qed.

Lemma astrometric_calib_scamp_files_witness :
  ∃ table st,
    astrometric_calib (λ _ (w : unit), (0%float, w)) (λ _, Raise OSError)
      "data/img.new.fits" (2, 3) "scamp" "gmadet_results/" 1 3 tt
      = Ok (table, st)
    ∧ table.*1
      = quadrant_file
          (folder_of (os_path_split "data/img.new.fits").1 +:+ "gmadet_results/")
          (stem_of (os_path_split "data/img.new.fits").2)
          (extension_of (os_path_split "data/img.new.fits").2) <$> seqZ 1 (2 * 3)
    ∧ NoDup table.*1
    ∧ scamp_runs st ⊆ table.*1.
Proof.
  apply (astrometric_calib_scamp_files
           (λ _ (w : unit), (0%float, w)) (λ _, Raise OSError)
           "data/img.new.fits" "gmadet_results/" 1 3 tt 2 3);
    [lia | lia | discriminate].
Defined.

(** ** The name of a file and its two parts *)

Lemma foldl_extension (acc : string) (ps : list string) :
  foldl (λ extension ext, extension +:+ "." +:+ ext) acc ps
  = acc +:+ foldl (λ extension ext, extension +:+ "." +:+ ext) "" ps.
Proof.
  revert acc. induction ps as [|q ps IH]; intros acc; simpl.
  - by rewrite str_app_nil_r.
  - rewrite IH, (IH ("" +:+ "." +:+ q)). by rewrite !str_app_assoc.
Qed.

Lemma str_split_dot_join (s : string) :
  ∃ p ps, str_split "." s = p :: ps
          ∧ s = p +:+ foldl (λ extension ext, extension +:+ "." +:+ ext) "" ps.
Proof.
  induction s as [|c s (p & ps & Hsplit & Hs)]; simpl.
  - by exists "", [].
  - destruct (is_char c ".") eqn:Hc.
    + apply is_char_true in Hc as ->. exists "", (p :: ps).
      split; [by rewrite Hsplit|]. simpl. rewrite foldl_extension.
      rewrite Hs at 1. reflexivity.
    + rewrite Hsplit. exists (String c p), ps. split; [done|].
      by rewrite str_app_cons, <- Hs.
Qed.

(** The stem and the extension put together give the name back. *)
Lemma stem_extension (filename_ext : string) :
  stem_of filename_ext +:+ extension_of filename_ext = filename_ext.
Proof.
  unfold stem_of, extension_of.
  destruct (str_split_dot_join filename_ext) as (p & ps & -> & Hs).
  simpl. by rewrite <- Hs.
Qed.

(** X4: the single file of the image table of an image that is not cut
    (no solver, or scamp with no grid entry above 1) is the base name of the
    image, unchanged, in the output directory beside the image; its label is
    ["None"]. *)
Theorem astrometric_calib_unpartitioned_file {W : Type}
    (scamp : string → W → float * W)
    (getheader : string → result (gmap string card))
    (filename soft outputDir : string) (accuracy : float) (itermax : Z)
    (w : W) (Nb_cuts : Z * Z) :
  soft ∉ ["scamp"; "astrometrynet"]
  ∨ (soft = "scamp" ∧ Nb_cuts.1 ≤ 1 ∧ Nb_cuts.2 ≤ 1) →
  ∃ st,
    astrometric_calib scamp getheader filename Nb_cuts soft outputDir
      accuracy itermax w
    = Ok ([(folder_of (os_path_split filename).1 +:+ outputDir
              +:+ (os_path_split filename).2, "None")], st).
Proof.
  intros Hsoft. unfold astrometric_calib.
  destruct (os_path_split filename) as [path filename_ext].
  cbn [fst snd].
  assert (folder_of path +:+ outputDir +:+ filename_ext
          = (folder_of path +:+ outputDir) +:+ stem_of filename_ext
              +:+ extension_of filename_ext) as ->.
  { by rewrite stem_extension, str_app_assoc. }
  destruct Hsoft as [Hsoft|(-> & Hr & Hc)].
  - rewrite (bool_decide_eq_false_2 _ Hsoft). by eexists.
  - rewrite (bool_decide_eq_true_2 ("scamp" ∈ ["scamp"; "astrometrynet"]))
      by (apply list_elem_of_here).
    rewrite (bool_decide_eq_true_2 ("scamp" = "scamp")) by done.
    assert ((1 <? Nb_cuts.1) || (1 <? Nb_cuts.2) = false) as ->.
    { apply orb_false_iff. rewrite !Z.ltb_ge. lia. }
    match goal with |- context [scamp_until _ ?f _ _ ?st] =>
      destruct (scamp_until_Ok scamp f accuracy itermax st)
        as (st' & runs & -> & _ & _) end.
    by eexists.
Qed.

Lemma astrometric_calib_unpartitioned_file_witness :
  ∃ st,
    astrometric_calib (λ _ (w : unit), (0%float, w)) (λ _, Raise OSError)
      "data/img.new.fits" (1, 1) "scamp" "gmadet_results/" 1 3 tt
    = Ok ([(folder_of (os_path_split "data/img.new.fits").1 +:+ "gmadet_results/"
              +:+ (os_path_split "data/img.new.fits").2, "None")], st).
Proof.
  apply (astrometric_calib_unpartitioned_file
           (λ _ (w : unit), (0%float, w)) (λ _, Raise OSError)
           "data/img.new.fits" "scamp" "gmadet_results/" 1 3 tt (1, 1)).
  right. simpl. repeat split; lia.
Defined.

(** X5: with astrometry.net chosen as the solver and an image cut into a
    grid of at least two quadrants, [astrometric_calib] never returns an
    image table: whatever the header holds, the call ends in an exception
    (the first quadrant reaches the undefined name [asrometrynet]). *)
Theorem astrometrynet_grid_never_returns {W : Type}
    (scamp : string → W → float * W)
    (getheader : string → result (gmap string card))
    (filename outputDir : string) (accuracy : float) (itermax : Z) (w : W)
    (r c : Z) :
  0 < r → 0 < c → (r, c) ≠ (1, 1) →
  ∃ e,
    astrometric_calib scamp getheader filename (r, c) "astrometrynet"
      outputDir accuracy itermax w = Raise e
    ∧ (∀ header v1 v2,
         getheader filename = Ok header →
         is_Some (first_scale_card header) →
         header !! "NAXIS1" = Some v1 → header !! "NAXIS2" = Some v2 →
         e = NameError).
Proof.
  intros Hr Hc Hgrid. unfold astrometric_calib.
  destruct (os_path_split filename) as [path filename_ext].
  cbn [fst snd].
  rewrite (bool_decide_eq_true_2 ("astrometrynet" ∈ ["scamp"; "astrometrynet"]))
    by (apply list_elem_of_further, list_elem_of_here).
  rewrite (bool_decide_eq_false_2 ("astrometrynet" = "scamp")) by done.
  assert ((1 <? r) || (1 <? c) = true) as ->.
  { apply orb_true_iff. rewrite !Z.ltb_lt.
    destruct (decide (r = 1)) as [->|]; [|lia].
    destruct (decide (c = 1)) as [->|]; [done|lia]. }
  assert (∀ s0 : @cells W, grid_loop (r, c)
            (astrometrynet_cell (folder_of path +:+ outputDir)
               (stem_of filename_ext) (extension_of filename_ext)) s0
          = Raise NameError) as Hloop.
  { intros s0. unfold grid_loop, range. cbn [fst snd].
    rewrite (seqZ_cons 0 r), (seqZ_cons 0 c) by lia. done. }
  destruct (getheader filename) as [header|e] eqn:Hh; cbn [mbind result_bind].
  2: { exists e. split; [done|]. intros ???. done. }
  destruct (read_pixScale header None) as [scale|] eqn:Hscale.
  2: { by exists NameError. }
  unfold header_get.
  destruct (header !! "NAXIS1") as [v1|] eqn:H1; cbn [mbind result_bind].
  2: { exists KeyError. split; [done|]. intros ??? [= <-] _ ?. congruence. }
  destruct (header !! "NAXIS2") as [v2|] eqn:H2; cbn [mbind result_bind].
  2: { exists KeyError. split; [done|]. intros ??? [= <-] _ _ ?. congruence. }
  exists NameError. by rewrite Hloop.
Qed.

Lemma astrometrynet_grid_never_returns_witness :
  ∃ e,
    astrometric_calib (λ _ (w : unit), (0%float, w)) ex_getheader
      "img.fits" (2, 2) "astrometrynet" "gmadet_results/" 1 3 tt = Raise e
    ∧ (∀ header v1 v2,
         ex_getheader "img.fits" = Ok header →
         is_Some (first_scale_card header) →
         header !! "NAXIS1" = Some v1 → header !! "NAXIS2" = Some v2 →
         e = NameError).
Proof.
  apply (astrometrynet_grid_never_returns
           (λ _ (w : unit), (0%float, w)) ex_getheader
           "img.fits" "gmadet_results/" 1 3 tt 2 2); [lia | lia | discriminate].
Defined.

(** ** [crosscheck_with_catalogues]: indices outside the table *)

Lemma np_index_in_bounds (n : nat) (i : Z) :
  index_in_bounds n i →
  ∃ p, np_index n i = Ok p ∧ (p < n)%nat
       ∧ ∀ k, (k < n)%nat →
           k = p ↔ (Z.of_nat k = i ∨ Z.of_nat k - Z.of_nat n = i).
Proof.
  unfold index_in_bounds, np_index. intros Hi.
  destruct (decide (0 ≤ i)) as [Hpos|Hneg].
  - rewrite (proj2 (andb_true_iff _ _))
      by (split; [apply Z.leb_le|apply Z.ltb_lt]; lia).
    exists (Z.to_nat i). split; [done|]. split; [lia|]. intros k Hk. lia.
  - rewrite (proj2 (andb_false_iff _ _)) by (left; apply Z.leb_gt; lia).
    rewrite (proj2 (andb_true_iff _ _))
      by (split; [apply Z.leb_le|apply Z.ltb_lt]; lia).
    exists (Z.to_nat (i + Z.of_nat n)). split; [done|]. split; [lia|].
    intros k Hk. lia.
Qed.

Lemma np_index_out_of_bounds (n : nat) (i : Z) :
  ¬ index_in_bounds n i → np_index n i = Raise IndexError.
Proof.
  unfold index_in_bounds, np_index. intros Hi.
  rewrite (proj2 (andb_false_iff (0 <=? i) (i <? Z.of_nat n))).
  2: { rewrite Z.leb_gt, Z.ltb_ge. lia. }
  rewrite (proj2 (andb_false_iff (- Z.of_nat n <=? i) (i <? 0))); [done|].
  rewrite Z.leb_gt, Z.ltb_ge. lia.
Qed.

(** Indices the array accepts set the positions they name, the negative
    ones counting from the end. *)
Lemma set_flags_in_bounds (referenced : list Z) (flag : list Z) :
  Forall (index_in_bounds (length flag)) referenced →
  ∃ flag', set_flags flag referenced = Ok flag'
           ∧ length flag' = length flag
           ∧ ∀ k x, flag !! k = Some x →
               flag' !! k
               = Some (if bool_decide
                            (Z.of_nat k ∈ referenced
                             ∨ Z.of_nat k - Z.of_nat (length flag) ∈ referenced)
                       then 1 else x).
Proof.
  revert flag. induction referenced as [|i ref IH]; intros flag Hr;
    cbn [set_flags].
  - exists flag. split; [done|]. split; [done|]. intros k x Hk.
    rewrite bool_decide_eq_false_2; [done|].
    intros [[]%elem_of_nil|[]%elem_of_nil].
  - apply Forall_cons in Hr as [Hi Hr].
    destruct (np_index_in_bounds _ _ Hi) as (p & -> & Hp & Hpk).
    cbn [mbind result_bind].
    destruct (IH (<[p:=1]> flag)) as (flag' & Hset & Hlen & Hget).
    { by rewrite length_insert. }
    exists flag'. split; [done|]. rewrite length_insert in Hlen, Hget.
    split; [done|]. intros k x Hk.
    pose proof (lookup_lt_Some _ _ _ Hk) as Hlt.
    destruct (decide (k = p)) as [->|Hne].
    + rewrite (Hget p 1) by (by apply list_lookup_insert_eq).
      rewrite (bool_decide_eq_true_2
                 (Z.of_nat p ∈ i :: ref
                  ∨ Z.of_nat p - Z.of_nat (length flag) ∈ i :: ref)).
      * by destruct (bool_decide _).
      * destruct (proj1 (Hpk p Hp) eq_refl) as [<-|<-];
          [left|right]; apply list_elem_of_here.
    + rewrite (Hget k x) by (by rewrite list_lookup_insert_ne).
      apply f_equal. apply (f_equal (λ b : bool, if b then 1 else x)).
      apply bool_decide_ext. rewrite !elem_of_cons.
      split; [tauto|]. intros [[Heq|?]|[Heq|?]]; try tauto.
      * exfalso. apply Hne, (Hpk k Hlt). by left.
      * exfalso. apply Hne, (Hpk k Hlt). by right.
Qed.

(** One index that the array does not accept ends the assignment with
    [IndexError]. *)
Lemma set_flags_out_of_bounds (referenced : list Z) (flag : list Z) :
  ¬ Forall (index_in_bounds (length flag)) referenced →
  set_flags flag referenced = Raise IndexError.
Proof.
  revert flag. induction referenced as [|i ref IH]; intros flag Hr;
    cbn [set_flags].
  - destruct Hr. constructor.
  - destruct (decide (- Z.of_nat (length flag) ≤ i < Z.of_nat (length flag)))
      as [Hi|Hi].
    + destruct (np_index_in_bounds _ _ Hi) as (p & -> & _ & _).
      cbn [mbind result_bind]. apply IH. rewrite length_insert.
      intros Hall. apply Hr. by constructor.
    + by rewrite np_index_out_of_bounds.
Qed.

Lemma select_unflagged_pred (P : candidate → Prop) `{!∀ c, Decision (P c)}
    (t : list candidate) (flag : list Z) :
  length flag = length t →
  (∀ k c, t !! k = Some c →
     flag !! k = Some (if bool_decide (P c) then 1 else 0)) →
  select_unflagged t flag = filter (λ c, ¬ P c) t.
Proof.
  revert flag. induction t as [|c t IH]; intros [|f flag] Hlen Hflag;
    try done.
  simpl.
  pose proof (Hflag 0%nat c eq_refl) as H0. simpl in H0. injection H0 as ->.
  rewrite filter_cons.
  rewrite IH; [|simpl in Hlen; lia | intros k c' Hk; apply (Hflag (S k) c' Hk)].
  destruct (decide (¬ P c)) as [Hn|Hy].
  - by rewrite (bool_decide_eq_false_2 (P c)).
  - by rewrite (bool_decide_eq_true_2 (P c)) by (by apply dec_stable).
Qed.

Lemma Forall_np_unique (P : Z → Prop) (l : list Z) :
  Forall P (np_unique l) ↔ Forall P l.
Proof.
  rewrite !Forall_forall. split; intros H i Hi; apply H;
    by apply np_unique_elem_of.
Qed.

(** X6: a catalogue pass raises [IndexError] exactly when the answer of the
    service holds an index outside [-n, n), [n] being the number of
    candidates sent; it raises nothing else. *)
Theorem catalog_pass_index_error (t : list candidate) (crossmatch_idx : list Z) :
  (catalog_pass t crossmatch_idx = Raise IndexError
   ↔ ∃ i, i ∈ crossmatch_idx ∧ ¬ index_in_bounds (length t) i)
  ∧ ∀ e, catalog_pass t crossmatch_idx = Raise e → e = IndexError.
Proof.
  unfold catalog_pass.
  destruct (decide (Forall (index_in_bounds (length t)) crossmatch_idx))
    as [Hall|Hex].
  - destruct (set_flags_in_bounds (np_unique crossmatch_idx)
                (replicate (length t) 0)) as (flag & -> & _).
    { rewrite length_replicate. by apply Forall_np_unique. }
    cbn [mbind result_bind]. split; [|done]. split; [done|].
    intros (i & Hi & Hout). rewrite Forall_forall in Hall. by apply Hall in Hi.
  - rewrite set_flags_out_of_bounds.
    2: { rewrite length_replicate. by rewrite Forall_np_unique. }
    cbn [mbind result_bind]. split; [|by intros e [= <-]]. split; [|done].
    intros _. apply not_Forall_Exists in Hex; [|intros i; apply _].
    apply Exists_exists in Hex as (i & Hi & Hout). by exists i.
Qed.

(** X7: when all the indices of the answer are within [-n, n), the pass
    keeps the candidates whose [idx] is in the answer neither as it is nor
    counted from the end ([idx - n]), and numbers them anew: a negative index
    removes a row, as numpy reads it. *)
Theorem catalog_pass_negative_index (t : list candidate)
    (crossmatch_idx : list Z) :
  dense t →
  Forall (index_in_bounds (length t)) crossmatch_idx →
  catalog_pass t crossmatch_idx
  = Ok (set_idx (row <$> filter (λ c, ¬ (idx c ∈ crossmatch_idx
                                         ∨ idx c - Z.of_nat (length t)
                                           ∈ crossmatch_idx)) t)).
Proof.
  intros Hd Hall. unfold catalog_pass.
  destruct (set_flags_in_bounds (np_unique crossmatch_idx)
              (replicate (length t) 0)) as (flag & -> & Hlen & Hget).
  { rewrite length_replicate. by apply Forall_np_unique. }
  cbn [mbind result_bind]. do 3 f_equal.
  rewrite length_replicate in Hlen, Hget.
  apply (select_unflagged_pred
           (λ c, idx c ∈ crossmatch_idx
                 ∨ idx c - Z.of_nat (length t) ∈ crossmatch_idx)); [done|].
  intros k c Hk. rewrite (dense_lookup t k c Hd Hk).
  rewrite (Hget k 0) by (apply lookup_replicate_2; by apply lookup_lt_Some in Hk).
  apply f_equal. apply (f_equal (λ b : bool, if b then 1 else 0)).
  apply bool_decide_ext. by rewrite !np_unique_elem_of.
Qed.

Lemma catalog_pass_negative_index_witness :
  catalog_pass ex_candidates [-1; 0; -3]
  = Ok (set_idx [ex_source 3 4]).
Proof.
  rewrite (catalog_pass_negative_index ex_candidates [-1; 0; -3]).
  - reflexivity.
  - apply set_idx_dense.
  - repeat constructor; unfold index_in_bounds; simpl; lia.
Defined.

(** ** [crosscheck_with_catalogues]: the merged table and the two files *)

Section merged.

Variable getheader : string → result (gmap string card).
Variable ascii_read : string → result (list magwcs_row).

Local Abbreviation merge := (merge_loop getheader ascii_read).

Lemma original_name_of_idx (Nb_cuts : Z * Z) (folder_ stem : string)
    (idx idx' : option nat) (original_name : string) :
  original_name_of Nb_cuts folder_ stem idx = Ok (original_name, idx') →
  idx = None ∨ idx = Some 3%nat ∨ idx = Some 4%nat →
  idx' = None ∨ idx' = Some 3%nat ∨ idx' = Some 4%nat.
Proof.
  unfold original_name_of, strip_length. case_bool_decide.
  { by intros [= _ <-]. }
  destruct (_ =? 2)%nat; [intros [= _ <-]; auto|].
  destruct (_ =? 3)%nat; [intros [= _ <-]; auto|].
  destruct idx; [|done]. by intros [= _ <-].
Qed.

(** The length the suffix is cut with is unbound, 3 or 4 all along. *)
Lemma merge_loop_strip_idx (image_table : list (string * string))
    (Nb_cuts : Z * Z) (s : merge_locals) :
  merge image_table Nb_cuts = Ok s →
  strip_idx s = None ∨ strip_idx s = Some 3%nat ∨ strip_idx s = Some 4%nat.
Proof.
  revert s. induction image_table as [|[filename label] table IH] using rev_ind;
    intros s.
  { intros [= <-]. by left. }
  rewrite merge_loop_snoc. intros (s0 & Hs0 & Hfile)%bind_Ok.
  apply merge_file_full in Hfile
    as (header & rows & original & idx' & header2 & off
        & _ & _ & Horig & _ & _ & _ & ->).
  cbn [strip_idx]. eapply original_name_of_idx; [exact Horig|]. by apply IH.
Qed.

Lemma place_placed (label : string) (off : Z * Z) (rows : list magwcs_row) :
  Forall2 (placed label off) rows (place label off <$> rows).
Proof.
  apply Forall2_fmap_r, Forall_Forall2_diag, Forall_forall.
  intros r _. by repeat split.
Qed.

Lemma concat_nil_Forall {A} (ls : list (list A)) :
  concat ls = [] ↔ Forall (λ l, l = []) ls.
Proof.
  induction ls as [|l ls IH]; simpl; [by split; [constructor|]|].
  rewrite Forall_cons, <- IH. split.
  - by intros [-> ->]%app_eq_nil.
  - by intros [-> ->].
Qed.

(** After the loop over a non-empty image table the merged table is made of
    one part per row of the image table, in order; either every part has
    rows, or none has; the names the two files are written under are bound;
    and a pixel scale that is bound was read from the header of one of the
    files. *)
Lemma merge_loop_parts (image_table : list (string * string))
    (Nb_cuts : Z * Z) (s : merge_locals) :
  merge image_table Nb_cuts = Ok s →
  (image_table = [] ∧ s = merge_init)
  ∨ ∃ parts,
      Forall2 (merged_part getheader ascii_read Nb_cuts) image_table parts
      ∧ detected_sources_tot s = Some (concat parts)
      ∧ transients_out_list s ≠ []
      ∧ is_Some (folder s) ∧ is_Some (filename2 s)
      ∧ (∀ p, pixScale s = Some p →
           ∃ entry header, entry ∈ image_table
                           ∧ getheader entry.1 = Ok header
                           ∧ is_Some (first_scale_card header))
      ∧ (Forall (λ part, part = []) parts ∨ Forall (λ part, part ≠ []) parts).
Proof.
  revert s. induction image_table as [|[filename label] table IH] using rev_ind;
    intros s.
  { intros [= <-]. by left. }
  rewrite merge_loop_snoc. intros (s0 & Hs0 & Hfile)%bind_Ok. right.
  pose proof (merge_loop_strip_idx _ _ _ Hs0) as Hidx.
  apply merge_file_full in Hfile
    as (header & rows & original & idx' & header2 & off
        & Hh & Hrows & Horig & Hh2 & Hoff & Htot & ->).
  assert (merged_part getheader ascii_read Nb_cuts (filename, label)
            (place label off <$> rows)) as Hpart.
  { exists header, rows, (strip_idx s0), original, idx', header2, off.
    do 6 (split; [done|]). apply place_placed. }
  cbn [transients_out_list pixScale folder filename2 detected_sources_tot].
  destruct (IH s0 Hs0)
    as [[-> ->]|(parts & Hparts & Htot0 & _ & _ & _ & Hp0 & Hsame)].
  - exists [place label off <$> rows]. split; [by repeat constructor|].
    split; [simpl; by rewrite app_nil_r|]. split; [done|].
    split; [done|]. split; [done|]. split.
    + intros p Hp. exists (filename, label), header.
      split; [apply list_elem_of_here|]. split; [done|].
      rewrite read_pixScale_first in Hp. simpl in Hp.
      by destruct (first_scale_card header).
    + destruct rows; [left|right]; by repeat constructor.
  - assert (length table ≠ 0%nat) as Hlen.
    { intros ->%length_zero_iff_nil.
      apply Forall2_nil_inv_l in Hparts as ->.
      unfold merge_loop in Hs0. simpl in Hs0. by injection Hs0 as <-. }
    destruct (Htot Hlen) as (tot & Htot1 & Hempty).
    rewrite Htot0 in Htot1. injection Htot1 as <-.
    exists (parts ++ [place label off <$> rows]).
    split; [apply Forall2_app; by repeat constructor|].
    split.
    { rewrite concat_app, Htot0. simpl. rewrite app_nil_r.
      by destruct (length table). }
    split; [by destruct (transients_out_list s0)|].
    split; [done|]. split; [done|]. split.
    + intros p Hp. rewrite read_pixScale_first in Hp.
      destruct (first_scale_card header) as [v|] eqn:Hv.
      * exists (filename, label), header.
        split; [apply elem_of_app; right; apply list_elem_of_here|].
        by rewrite Hv.
      * destruct (Hp0 p Hp) as (entry & h & Hin & Hhe & Hsome).
        exists entry, h. split; [apply elem_of_app; by left|done].
    + assert (parts ≠ []) as Hne.
      { intros ->. apply Forall2_nil_inv_r in Hparts. by subst table. }
      destruct Hsame as [Hall|Hall].
      * left. apply Forall_app. split; [done|]. constructor; [|done].
        apply fmap_eq_nil, Hempty. by apply concat_nil_Forall.
      * right. apply Forall_app. split; [done|]. constructor; [|done].
        intros Hnil%fmap_eq_nil%Hempty%concat_nil_Forall.
        destruct parts as [|x parts']; [done|].
        apply Forall_cons in Hall as [Hx _]. apply Forall_cons in Hnil as [? _].
        done.
Qed.

(** Once the loop over the image table has bound the merged table, the two
    files can be written. *)
Lemma write_candidates_Ok (image_table : list (string * string))
    (Nb_cuts : Z * Z) (s : merge_locals) (tot : list source) :
  merge image_table Nb_cuts = Ok s →
  detected_sources_tot s = Some tot →
  ∃ transients companion, ∀ t,
    write_candidates s t
    = Ok [WriteTable transients t;
          WriteRADEC companion
            ((λ c, (RAJ2000 (row c), DEJ2000 (row c))) <$> t)].
Proof.
  intros Hmerge Htot.
  destruct (merge_loop_parts _ _ _ Hmerge)
    as [[_ ->]|(parts & _ & _ & Hne & [f Hf] & [f2 Hf2] & _)]; [done|].
  unfold write_candidates, np_unique_first. rewrite Hf, Hf2.
  destruct (transients_out_list s) as [|x l]; [done|].
  cbn [mbind result_bind]. by eexists _, _.
Qed.

End merged.

Section catalogues.

Variable run_xmatch : list candidate → string → float → list Z.
Variables (radius : float) (scale : card).

Local Abbreviation loop := (catalog_loop run_xmatch radius scale).

(** A query to a catalogue that [cat_dict] does not name is the last thing
    the loop does: it ends in an exception. *)
Lemma catalog_loop_unknown (catalogs : list string) (t0 : list candidate)
    (k : nat) (cat : string) (t : list candidate) (tol : float) :
  (loop catalogs t0).1 !! k = Some (Query cat t tol) →
  cat_dict !! cat = None →
  (∃ e, (loop catalogs t0).2 = Raise e) ∧ length (loop catalogs t0).1 = S k.
Proof.
  revert t0 k. induction catalogs as [|c catalogs IH]; intros t0 k; [done|].
  cbn [catalog_loop].
  destruct (catalog_pass t0 _) as [t1|e] eqn:Hpass.
  2: { destruct k; [|done]. intros _ _. split; [by exists e|done]. }
  destruct (cat_dict !! c) as [name|] eqn:Hc.
  2: { destruct k; [|done]. intros _ _. split; [by exists KeyError|done]. }
  case_bool_decide as Hlen.
  { destruct k; [|done]. intros [= <- <- <-] Hnone. congruence. }
  specialize (IH t1). destruct (loop catalogs t1) as [queries r].
  destruct k as [|k]; cbn [fst snd lookup list_lookup].
  - intros [= <- <- <-] Hnone. congruence.
  - intros Hk Hnone. destruct (IH k Hk Hnone) as [He Hl]. split; [done|].
    simpl in *. by rewrite Hl.
Qed.

(** The table the loop ends with holds rows of the table it started with,
    in their order, under a dense index. *)
Lemma catalog_loop_result (catalogs : list string) (t0 t : list candidate) :
  (loop catalogs t0).2 = Ok t →
  row <$> t `sublist_of` row <$> t0 ∧ (dense t0 → dense t).
Proof.
  revert t0. induction catalogs as [|c catalogs IH]; intros t0.
  { by intros [= <-]. }
  cbn [catalog_loop].
  destruct (catalog_pass t0 _) as [t1|e] eqn:Hpass; [|done].
  apply catalog_pass_shrinks in Hpass as (Hsub & _ & Hdense).
  destruct (cat_dict !! c) as [name|]; [|done].
  case_bool_decide as Hlen.
  { by intros [= <-]. }
  specialize (IH t1). destruct (loop catalogs t1) as [queries r].
  cbn [snd] in *. intros Hr. destruct (IH Hr) as [Hsub1 Hdense1].
  split; [by etrans|auto].
Qed.

End catalogues.

Section returns.

Variable getheader : string → result (gmap string card).
Variable ascii_read : string → result (list magwcs_row).
Variable run_xmatch : list candidate → string → float → list Z.

Local Abbreviation crosscheck :=
  (crosscheck_with_catalogues getheader ascii_read run_xmatch).
Local Abbreviation merge := (merge_loop getheader ascii_read).

(** The shape of a run: an exception before the first query, or the run of
    the loop over the catalogues followed, when that loop ends normally, by
    the two writes. *)
Lemma crosscheck_cases (image_table : list (string * string)) (radius : float)
    (catalogs : list string) (Nb_cuts : Z * Z) :
  (∃ e, crosscheck image_table radius catalogs Nb_cuts = ([], Raise e))
  ∨ ∃ s tot p transients companion,
      merge image_table Nb_cuts = Ok s
      ∧ detected_sources_tot s = Some tot
      ∧ pixScale s = Some p
      ∧ crosscheck image_table radius catalogs Nb_cuts
        = match (catalog_loop run_xmatch radius p catalogs (set_idx tot)).2 with
          | Raise e =>
              ((catalog_loop run_xmatch radius p catalogs (set_idx tot)).1,
               Raise e)
          | Ok t =>
              ((catalog_loop run_xmatch radius p catalogs (set_idx tot)).1
               ++ [WriteTable transients t;
                   WriteRADEC companion
                     ((λ c, (RAJ2000 (row c), DEJ2000 (row c))) <$> t)],
               Ok t)
          end.
Proof.
  unfold crosscheck_with_catalogues.
  destruct (merge image_table Nb_cuts) as [s|e] eqn:Hmerge; [|left; by exists e].
  destruct (detected_sources_tot s) as [tot|] eqn:Htot;
    [|left; by exists NameError].
  destruct (pixScale s) as [p|] eqn:Hp; [|left; by exists NameError].
  destruct (write_candidates_Ok getheader ascii_read _ _ _ _ Hmerge Htot)
    as (transients & companion & Hw).
  right. exists s, tot, p, transients, companion. do 3 (split; [done|]).
  destruct (catalog_loop run_xmatch radius p catalogs (set_idx tot))
    as [queries [t|e]]; [|done].
  by rewrite Hw.
Qed.

Lemma written_paths_only_queries (queries : list event) :
  (∀ e, e ∈ queries → ∃ cat t tol, e = Query cat t tol) →
  written_paths queries = [].
Proof.
  intros Hall. rewrite <- (app_nil_r queries).
  by rewrite written_paths_queries.
Qed.

Lemma catalog_loop_only_queries (radius : float) (p : card)
    (catalogs : list string) (t0 : list candidate) (e : event) :
  e ∈ (catalog_loop run_xmatch radius p catalogs t0).1 →
  ∃ cat t tol, e = Query cat t tol.
Proof.
  intros (cat & t & ->)%catalog_loop_queries. by eexists _, _, _.
Qed.

End returns.

(** X8: a catalogue that [cat_dict] does not name is queried all the same,
    and that query is the last thing the function does: the run ends in an
    exception ([KeyError], raised by the message that follows the pass) and
    neither file is written. *)
Theorem unknown_catalogue_ends_the_run
    (getheader : string → result (gmap string card))
    (ascii_read : string → result (list magwcs_row))
    (run_xmatch : list candidate → string → float → list Z)
    (image_table : list (string * string)) (radius : float)
    (catalogs : list string) (Nb_cuts : Z * Z)
    (k : nat) (cat : string) (t : list candidate) (tol : float) :
  (crosscheck_with_catalogues getheader ascii_read run_xmatch image_table
     radius catalogs Nb_cuts).1 !! k = Some (Query cat t tol) →
  cat_dict !! cat = None →
  (∃ e, (crosscheck_with_catalogues getheader ascii_read run_xmatch
           image_table radius catalogs Nb_cuts).2 = Raise e
        ∧ (e = KeyError
           ∨ catalog_pass t (run_xmatch t cat tol) = Raise e))
  ∧ length (crosscheck_with_catalogues getheader ascii_read run_xmatch
              image_table radius catalogs Nb_cuts).1 = S k
  ∧ written_paths (crosscheck_with_catalogues getheader ascii_read run_xmatch
                     image_table radius catalogs Nb_cuts).1 = [].
Proof.
  intros Hk Hcat.
  destruct (crosscheck_cases getheader ascii_read run_xmatch image_table
              radius catalogs Nb_cuts)
    as [[e He]|(s & tot & p & tr & co & _ & _ & _ & Hrun)].
  { by rewrite He in Hk. }
  pose proof (catalog_loop_only_queries run_xmatch radius p catalogs
                (set_idx tot)) as Hall.
  pose proof (catalog_loop_unknown run_xmatch radius p catalogs (set_idx tot)
                k cat t tol) as Hunknown.
  pose proof (catalog_loop_chain run_xmatch radius p catalogs (set_idx tot)
                k cat t tol) as Hchain.
  rewrite Hrun in Hk |- *. clear Hrun.
  destruct (catalog_loop run_xmatch radius p catalogs (set_idx tot))
    as [queries [t1|e]] eqn:Hloop; cbn [fst snd] in *.
  - apply lookup_app_Some in Hk as [Hk|[_ Hk]].
    + by destruct (Hunknown Hk Hcat) as [[e He] _].
    + apply list_elem_of_lookup_2 in Hk.
      apply elem_of_cons in Hk as [?|Hk]; [done|].
      by apply list_elem_of_singleton in Hk.
  - destruct (Hunknown Hk Hcat) as [_ Hlen].
    split; [|split; [done|by apply written_paths_only_queries]].
    exists e. split; [done|].
    destruct (Hchain Hk) as (_ & Hcats & _).
    clear Hall Hunknown Hchain. revert Hloop Hk Hlen Hcats.
    generalize (set_idx tot) as t0. revert queries k.
    induction catalogs as [|c catalogs IH]; intros queries k t0; [done|].
    cbn [catalog_loop].
    destruct (catalog_pass t0 _) as [t1|e1] eqn:Hpass.
    2: { intros [= <- <-]. destruct k; [|done]. simpl.
         intros [= <- <- <-] _ _. by right. }
    destruct (cat_dict !! c) as [name|] eqn:Hc.
    2: { intros [= <- <-]. by left. }
    case_bool_decide; [done|].
    destruct (catalog_loop run_xmatch radius p catalogs t1) as [qs r] eqn:Hl.
    intros [= <- ->]. destruct k as [|k]; cbn [lookup list_lookup length].
    + intros [= <- <- <-] _ _. congruence.
    + intros Hk [= Hlen] Hcats. by apply (IH qs k t1).
Qed.

Lemma unknown_catalogue_ends_the_run_witness :
  (∃ e, (crosscheck_with_catalogues ex_getheader
           (ex_ascii_read [ex_row 1 2; ex_row 3 4; ex_row 5 6]) ex_run_xmatch
           [("gmadet_results/img.fits", "None")] 3
           ["I/345/gaia2"; "I/239/hip_main"; "II/349/ps1"] (1, 1)).2 = Raise e
        ∧ (e = KeyError
           ∨ catalog_pass ex_survivors
               (ex_run_xmatch ex_survivors "I/239/hip_main" ex_radius)
             = Raise e))
  ∧ length (crosscheck_with_catalogues ex_getheader
              (ex_ascii_read [ex_row 1 2; ex_row 3 4; ex_row 5 6]) ex_run_xmatch
              [("gmadet_results/img.fits", "None")] 3
              ["I/345/gaia2"; "I/239/hip_main"; "II/349/ps1"] (1, 1)).1 = 2%nat
  ∧ written_paths (crosscheck_with_catalogues ex_getheader
                     (ex_ascii_read [ex_row 1 2; ex_row 3 4; ex_row 5 6])
                     ex_run_xmatch [("gmadet_results/img.fits", "None")] 3
                     ["I/345/gaia2"; "I/239/hip_main"; "II/349/ps1"] (1, 1)).1
    = [].
Proof.
  apply (unknown_catalogue_ends_the_run ex_getheader
           (ex_ascii_read [ex_row 1 2; ex_row 3 4; ex_row 5 6]) ex_run_xmatch
           [("gmadet_results/img.fits", "None")] 3
           ["I/345/gaia2"; "I/239/hip_main"; "II/349/ps1"] (1, 1)
           1 "I/239/hip_main" ex_survivors ex_radius).
  - vm_compute. reflexivity.
  - vm_compute. reflexivity.
Defined.

(** X9: the two files are written exactly when the function returns: a run
    that returns a table ends with the write of that very table and the write
    of its sky positions, in this order and after the last query; a run that
    raises, at whatever point, has written nothing. *)
Theorem files_written_iff_returns
    (getheader : string → result (gmap string card))
    (ascii_read : string → result (list magwcs_row))
    (run_xmatch : list candidate → string → float → list Z)
    (image_table : list (string * string)) (radius : float)
    (catalogs : list string) (Nb_cuts : Z * Z) :
  (∀ t, (crosscheck_with_catalogues getheader ascii_read run_xmatch
           image_table radius catalogs Nb_cuts).2 = Ok t →
     ∃ queries transients companion,
       (crosscheck_with_catalogues getheader ascii_read run_xmatch
          image_table radius catalogs Nb_cuts).1
       = queries
         ++ [WriteTable transients t;
             WriteRADEC companion
               ((λ c, (RAJ2000 (row c), DEJ2000 (row c))) <$> t)]
       ∧ written_paths queries = [])
  ∧ (∀ e, (crosscheck_with_catalogues getheader ascii_read run_xmatch
             image_table radius catalogs Nb_cuts).2 = Raise e →
       written_paths (crosscheck_with_catalogues getheader ascii_read
                        run_xmatch image_table radius catalogs Nb_cuts).1
       = []).
Proof.
  destruct (crosscheck_cases getheader ascii_read run_xmatch image_table
              radius catalogs Nb_cuts)
    as [[e He]|(s & tot & p & tr & co & _ & _ & _ & Hrun)].
  { rewrite He. split; [done|]. by intros e' _. }
  pose proof (catalog_loop_only_queries run_xmatch radius p catalogs
                (set_idx tot)) as Hall.
  rewrite Hrun. clear Hrun.
  destruct (catalog_loop run_xmatch radius p catalogs (set_idx tot))
    as [queries [t1|e]]; cbn [fst snd] in *.
  - split; [|done]. intros t [= <-]. exists queries, tr, co.
    split; [done|]. by apply written_paths_only_queries.
  - split; [done|]. intros e' _. by apply written_paths_only_queries.
Qed.

Lemma sum_list_length_concat {A} (ls : list (list A)) :
  length (concat ls) = sum_list (length <$> ls).
Proof.
  induction ls as [|l ls IH]; [done|]. simpl. by rewrite length_app, IH.
Qed.

(** X10: the merged table is the concatenation, in the order of the image
    table, of one part per file: the rows of the file's [.magwcs] table, one
    for one, each moved by the offset of the file's label.  No detection is
    dropped or repeated by the merge; either every file has rows or none has
    (a table without rows cannot be stacked with one that has rows); and the
    first query of a run, when there is one, is sent with this table under the
    indices 0, 1, 2, ..., hence with as many candidates as rows were read. *)
Theorem merged_table_is_concatenation
    (getheader : string → result (gmap string card))
    (ascii_read : string → result (list magwcs_row))
    (image_table : list (string * string)) (Nb_cuts : Z * Z)
    (s : merge_locals) (tot : list source) :
  merge_loop getheader ascii_read image_table Nb_cuts = Ok s →
  detected_sources_tot s = Some tot →
  ∃ parts,
    Forall2 (merged_part getheader ascii_read Nb_cuts) image_table parts
    ∧ tot = concat parts
    ∧ (Forall (λ part, part = []) parts ∨ Forall (λ part, part ≠ []) parts)
    ∧ ∀ run_xmatch radius catalogs cat t tol,
        (crosscheck_with_catalogues getheader ascii_read run_xmatch
           image_table radius catalogs Nb_cuts).1 !! 0%nat
        = Some (Query cat t tol) →
        row <$> t = concat parts
        ∧ idx <$> t = seqZ 0 (Z.of_nat (sum_list (length <$> parts)))
        ∧ length t = sum_list (length <$> parts).
Proof.
  intros Hmerge Htot.
  destruct (merge_loop_parts _ _ _ _ _ Hmerge)
    as [[_ ->]|(parts & Hparts & Htot' & _ & _ & _ & _ & Hsame)]; [done|].
  rewrite Htot in Htot'. injection Htot' as ->.
  exists parts. do 3 (split; [done|]).
  intros run_xmatch radius catalogs cat t tol Hfirst.
  destruct (crosscheck_cases getheader ascii_read run_xmatch image_table
              radius catalogs Nb_cuts)
    as [[e He]|(s1 & tot1 & p & tr & co & Hmerge1 & Htot1 & _ & Hrun)].
  { by rewrite He in Hfirst. }
  rewrite Hmerge in Hmerge1. injection Hmerge1 as <-.
  rewrite Htot in Htot1. injection Htot1 as <-.
  rewrite Hrun in Hfirst. clear Hrun.
  pose proof (catalog_loop_chain run_xmatch radius p catalogs
                (set_idx (concat parts)) 0 cat t tol) as Hchain.
  assert ((catalog_loop run_xmatch radius p catalogs
             (set_idx (concat parts))).1 !! 0%nat = Some (Query cat t tol))
    as Hq.
  { destruct (catalog_loop run_xmatch radius p catalogs
                (set_idx (concat parts))) as [queries [t1|e]];
      cbn [fst snd] in *; [|done].
    apply lookup_app_Some in Hfirst as [?|[Hlen Hw]]; [done|].
    destruct queries; [|simpl in Hlen; lia]. done. }
  destruct (Hchain Hq) as (_ & _ & _ & Ht & _). rewrite (Ht eq_refl).
  rewrite set_idx_row. split; [done|].
  pose proof (set_idx_dense (concat parts)) as Hdense. unfold dense in Hdense.
  rewrite Hdense, set_idx_length, sum_list_length_concat. done.
Qed.

Lemma merged_table_is_concatenation_witness :
  ∃ parts,
    Forall2 (merged_part ex_getheader (ex_ascii_read [ex_row 1 2]) (2, 2))
      ex_quadrants parts
    ∧ ex_quadrant_sources = concat parts
    ∧ (Forall (λ part, part = []) parts ∨ Forall (λ part, part ≠ []) parts)
    ∧ ∀ run_xmatch radius catalogs cat t tol,
        (crosscheck_with_catalogues ex_getheader (ex_ascii_read [ex_row 1 2])
           run_xmatch ex_quadrants radius catalogs (2, 2)).1 !! 0%nat
        = Some (Query cat t tol) →
        row <$> t = concat parts
        ∧ idx <$> t = seqZ 0 (Z.of_nat (sum_list (length <$> parts)))
        ∧ length t = sum_list (length <$> parts).
Proof.
  apply (merged_table_is_concatenation ex_getheader
           (ex_ascii_read [ex_row 1 2]) ex_quadrants (2, 2) ex_merged).
  - vm_compute. reflexivity.
  - reflexivity.
Defined.

Lemma elem_of_concat {A} (x : A) (ls : list (list A)) :
  x ∈ concat ls ↔ ∃ l, x ∈ l ∧ l ∈ ls.
Proof.
  rewrite list_elem_of_In, in_concat. split.
  - intros (l & Hl & Hx). exists l. by rewrite !list_elem_of_In.
  - intros (l & Hx & Hl). exists l. by rewrite <- !list_elem_of_In.
Qed.

Lemma merged_part_columns
    (getheader : string → result (gmap string card))
    (ascii_read : string → result (list magwcs_row)) (Nb_cuts : Z * Z)
    (image_table : list (string * string)) (parts : list (list source))
    (r : source) :
  Forall2 (merged_part getheader ascii_read Nb_cuts) image_table parts →
  r ∈ concat parts →
  Xpos_quad r = Xpos r ∧ Ypos_quad r = Ypos r
  ∧ row_quadrant r ∈ image_table.*2.
Proof.
  intros Hparts (part & Hr & Hpart)%elem_of_concat.
  apply list_elem_of_lookup_1 in Hpart as [k Hk].
  destruct (Forall2_lookup_r _ _ _ _ _ Hparts Hk)
    as (entry & Hentry & header & rows & i0 & o & i1 & h2 & off
        & _ & _ & _ & _ & _ & _ & Hplaced).
  apply list_elem_of_lookup_1 in Hr as [j Hj].
  destruct (Forall2_lookup_r _ _ _ _ _ Hplaced Hj)
    as (m & _ & _ & _ & Hxq & Hyq & _ & _ & _ & _ & _ & Hlabel).
  split; [done|]. split; [done|]. rewrite Hlabel.
  apply list_elem_of_fmap. exists entry. split; [done|].
  by eapply list_elem_of_lookup_2.
Qed.

(** X11: the candidates returned are detections of the merged table, in
    the order they have there, numbered 0, 1, 2, ... in the column [idx];
    and in each of them the columns [Xpos_quad] and [Ypos_quad] hold the
    same numbers as [Xpos] and [Ypos], the position in the original image:
    the position within the quadrant is not kept. *)
Theorem returned_candidates
    (getheader : string → result (gmap string card))
    (ascii_read : string → result (list magwcs_row))
    (run_xmatch : list candidate → string → float → list Z)
    (image_table : list (string * string)) (radius : float)
    (catalogs : list string) (Nb_cuts : Z * Z) (t : list candidate) :
  (crosscheck_with_catalogues getheader ascii_read run_xmatch image_table
     radius catalogs Nb_cuts).2 = Ok t →
  ∃ s tot,
    merge_loop getheader ascii_read image_table Nb_cuts = Ok s
    ∧ detected_sources_tot s = Some tot
    ∧ row <$> t `sublist_of` tot
    ∧ dense t
    ∧ ∀ c, c ∈ t →
        Xpos_quad (row c) = Xpos (row c) ∧ Ypos_quad (row c) = Ypos (row c)
        ∧ row_quadrant (row c) ∈ image_table.*2.
Proof.
  intros Hret.
  destruct (crosscheck_cases getheader ascii_read run_xmatch image_table
              radius catalogs Nb_cuts)
    as [[e He]|(s & tot & p & tr & co & Hmerge & Htot & _ & Hrun)].
  { by rewrite He in Hret. }
  rewrite Hrun in Hret. clear Hrun.
  pose proof (catalog_loop_result run_xmatch radius p catalogs (set_idx tot) t)
    as Hres.
  destruct (catalog_loop run_xmatch radius p catalogs (set_idx tot))
    as [queries [t1|e]]; cbn [fst snd] in *; [|done].
  injection Hret as ->. destruct (Hres eq_refl) as [Hsub Hdense].
  rewrite set_idx_row in Hsub.
  exists s, tot. do 3 (split; [done|]). split; [apply Hdense, set_idx_dense|].
  intros c Hc.
  destruct (merge_loop_parts _ _ _ _ _ Hmerge)
    as [[_ ->]|(parts & Hparts & Htot' & _)]; [done|].
  rewrite Htot in Htot'. injection Htot' as ->.
  apply (merged_part_columns getheader ascii_read Nb_cuts image_table parts);
    [done|].
  eapply elem_of_sublist; [|exact Hsub]. apply list_elem_of_fmap. by exists c.
Qed.

Lemma returned_candidates_witness :
  ∃ s tot,
    merge_loop ex_getheader
      (ex_ascii_read [ex_row 1 2; ex_row 3 4; ex_row 5 6])
      [("gmadet_results/img.fits", "None")] (1, 1) = Ok s
    ∧ detected_sources_tot s = Some tot
    ∧ row <$> ex_survivors `sublist_of` tot
    ∧ dense ex_survivors
    ∧ ∀ c, c ∈ ex_survivors →
        Xpos_quad (row c) = Xpos (row c) ∧ Ypos_quad (row c) = Ypos (row c)
        ∧ row_quadrant (row c) ∈ [("gmadet_results/img.fits", "None")].*2.
Proof.
  apply (returned_candidates ex_getheader
           (ex_ascii_read [ex_row 1 2; ex_row 3 4; ex_row 5 6]) ex_run_xmatch
           [("gmadet_results/img.fits", "None")] 3
           ["I/271/out"; "I/345/gaia2"] (1, 1)).
  vm_compute. reflexivity.
Defined.

(** ** [crosscheck_with_catalogues]: what a run that returns has needed *)

Lemma quadrant_offset_Ok_inv (header2 : gmap string card) (Nb_cuts : Z * Z)
    (label : string) (off : Z * Z) :
  quadrant_offset header2 Nb_cuts label = Ok off →
  Nb_cuts.1 ≠ 0 ∧ Nb_cuts.2 ≠ 0
  ∧ is_Some (header2 !! "NAXIS1") ∧ is_Some (header2 !! "NAXIS2")
  ∧ (Nb_cuts ≠ (1, 1) → length (str_split "_" label) = 3%nat).
Proof.
  unfold quadrant_offset.
  destruct (quadrant_size header2 Nb_cuts) as [[a b]|] eqn:Hsize; [|done].
  apply quadrant_size_axes in Hsize as (v1 & v2 & H1 & H2 & Hd1 & Hd2).
  cbn [mbind result_bind]. intros Hoff.
  unfold float_div_int in Hd1, Hd2.
  split; [intros H0; by rewrite H0 in Hd1|].
  split; [intros H0; by rewrite H0 in Hd2|].
  split; [by rewrite H1|]. split; [by rewrite H2|].
  intros Hcuts. rewrite bool_decide_eq_false_2 in Hoff by done.
  unfold unpack_label in Hoff.
  destruct (str_split "_" label) as [|? [|? [|? [|? ?]]]]; done.
Qed.

(** X12: a run returns a table only if the image table has a row, both
    entries of [Nb_cuts] are other than 0, the header and the [.magwcs] table
    of every file could be read, every label splits in three pieces at its
    underscores unless the grid is 1 x 1, the header of one file at least has
    a scale card, and [cat_dict] names every catalogue queried. *)
Theorem crosscheck_returns_only_if
    (getheader : string → result (gmap string card))
    (ascii_read : string → result (list magwcs_row))
    (run_xmatch : list candidate → string → float → list Z)
    (image_table : list (string * string)) (radius : float)
    (catalogs : list string) (Nb_cuts : Z * Z) (t : list candidate) :
  (crosscheck_with_catalogues getheader ascii_read run_xmatch image_table
     radius catalogs Nb_cuts).2 = Ok t →
  image_table ≠ []
  ∧ Nb_cuts.1 ≠ 0 ∧ Nb_cuts.2 ≠ 0
  ∧ (∀ entry, entry ∈ image_table →
       (∃ header, getheader entry.1 = Ok header)
       ∧ (∃ rows, ascii_read (magfilewcs_of entry.1) = Ok rows)
       ∧ (Nb_cuts ≠ (1, 1) → length (str_split "_" entry.2) = 3%nat))
  ∧ (∃ entry header, entry ∈ image_table
                     ∧ getheader entry.1 = Ok header
                     ∧ is_Some (first_scale_card header))
  ∧ (∀ k cat t' tol,
       (crosscheck_with_catalogues getheader ascii_read run_xmatch
          image_table radius catalogs Nb_cuts).1 !! k
       = Some (Query cat t' tol) →
       is_Some (cat_dict !! cat)).
Proof.
  intros Hret.
  destruct (crosscheck_cases getheader ascii_read run_xmatch image_table
              radius catalogs Nb_cuts)
    as [[e He]|(s & tot & p & tr & co & Hmerge & Htot & Hp & Hrun)].
  { by rewrite He in Hret. }
  destruct (merge_loop_parts _ _ _ _ _ Hmerge)
    as [[_ ->]|(parts & Hparts & _ & Hne & _ & _ & Hscale & _)]; [done|].
  assert (∀ entry, entry ∈ image_table →
            ∃ part, merged_part getheader ascii_read Nb_cuts entry part)
    as Hentry.
  { intros entry [k Hk]%list_elem_of_lookup_1.
    destruct (Forall2_lookup_l _ _ _ _ _ Hparts Hk) as (part & _ & Hpart).
    by exists part. }
  destruct image_table as [|entry0 table] eqn:Htable.
  { unfold merge_loop in Hmerge. simpl in Hmerge. by injection Hmerge as <-. }
  rewrite <- Htable in *. split; [by rewrite Htable|].
  destruct (Hentry entry0) as (part0 & h & rows & i0 & o & i1 & h2 & off
                               & _ & _ & _ & _ & _ & Hoff0 & _).
  { rewrite Htable. apply list_elem_of_here. }
  apply quadrant_offset_Ok_inv in Hoff0 as (Hn1 & Hn2 & _).
  do 2 (split; [done|]). split; [|split; [exact (Hscale p Hp)|]].
  - intros entry Hin.
    destruct (Hentry entry Hin)
      as (part & h' & rows' & i0' & o' & i1' & h2' & off'
          & Hh & Hrows & _ & _ & _ & Hoff & _).
    apply quadrant_offset_Ok_inv in Hoff as (_ & _ & _ & _ & Hlabel).
    split; [by exists h'|]. split; [by exists rows'|done].
  - intros k cat t' tol Hk. rewrite Hrun in Hk, Hret.
    pose proof (catalog_loop_unknown run_xmatch radius p catalogs (set_idx tot)
                  k cat t' tol) as Hunknown.
    destruct (catalog_loop run_xmatch radius p catalogs (set_idx tot))
      as [queries [t1|e]]; cbn [fst snd] in *; [|done].
    apply lookup_app_Some in Hk as [Hk|[_ Hk]].
    + destruct (cat_dict !! cat) as [name|] eqn:Hcat; [done|].
      by destruct (Hunknown Hk eq_refl) as [[e He] _].
    + apply list_elem_of_lookup_2 in Hk.
      apply elem_of_cons in Hk as [?|Hk]; [done|].
      by apply list_elem_of_singleton in Hk.
Qed.

Lemma crosscheck_returns_only_if_witness :
  ex_quadrants ≠ []
  ∧ (2, 2).1 ≠ 0 ∧ (2, 2).2 ≠ 0
  ∧ (∀ entry, entry ∈ ex_quadrants →
       (∃ header, ex_getheader entry.1 = Ok header)
       ∧ (∃ rows, ex_ascii_read [ex_row 1 2] (magfilewcs_of entry.1) = Ok rows)
       ∧ ((2, 2) ≠ (1, 1) → length (str_split "_" entry.2) = 3%nat))
  ∧ (∃ entry header, entry ∈ ex_quadrants
                     ∧ ex_getheader entry.1 = Ok header
                     ∧ is_Some (first_scale_card header))
  ∧ (∀ k cat t' tol,
       (crosscheck_with_catalogues ex_getheader (ex_ascii_read [ex_row 1 2])
          ex_run_xmatch ex_quadrants 3 ["II/349/ps1"; "I/284/out"] (2, 2)).1
         !! k
       = Some (Query cat t' tol) →
       is_Some (cat_dict !! cat)).
Proof.
  apply (crosscheck_returns_only_if ex_getheader (ex_ascii_read [ex_row 1 2])
           ex_run_xmatch ex_quadrants 3 ["II/349/ps1"; "I/284/out"] (2, 2) []).
  vm_compute. reflexivity.
Defined.

(** X13: an image table made without a solver names the image itself with
    the label ["None"]; handing it to [crosscheck_with_catalogues] together
    with the grid it was asked for, when that grid is not 1 x 1, never gives
    a result: the run ends in an exception before any query. *)
Theorem no_solver_grid_never_crosschecks {W : Type}
    (scamp : string → W → float * W)
    (getheader : string → result (gmap string card))
    (ascii_read : string → result (list magwcs_row))
    (run_xmatch : list candidate → string → float → list Z)
    (filename soft outputDir : string) (accuracy : float) (itermax : Z)
    (w : W) (Nb_cuts : Z * Z) (radius : float) (catalogs : list string)
    (image_table : list (string * string)) (st : solver_state) :
  soft ∉ ["scamp"; "astrometrynet"] →
  Nb_cuts ≠ (1, 1) →
  astrometric_calib scamp getheader filename Nb_cuts soft outputDir
    accuracy itermax w = Ok (image_table, st) →
  ∃ e, crosscheck_with_catalogues getheader ascii_read run_xmatch image_table
         radius catalogs Nb_cuts = ([], Raise e).
Proof.
  intros Hsoft Hcuts Hcalib.
  destruct (astrometric_calib_no_solver scamp getheader filename soft outputDir
              accuracy itermax w Nb_cuts Hsoft) as [file Hfile].
  rewrite Hfile in Hcalib. injection Hcalib as <- <-.
  destruct (crosscheck_cases getheader ascii_read run_xmatch [(file, "None")]
              radius catalogs Nb_cuts)
    as [He|(s & tot & p & tr & co & Hmerge & _)]; [done|].
  exfalso.
  destruct (merge_loop_parts _ _ _ _ _ Hmerge)
    as [[? _]|(parts & Hparts & _)]; [done|].
  apply Forall2_cons_inv_l in Hparts
    as (part & parts' & (h & rows & i0 & o & i1 & h2 & off
                         & _ & _ & _ & _ & _ & Hoff & _) & _).
  apply quadrant_offset_Ok_inv in Hoff as (_ & _ & _ & _ & Hlabel).
  specialize (Hlabel Hcuts). done.
Qed.

Lemma no_solver_grid_never_crosschecks_witness :
  ∃ e, crosscheck_with_catalogues ex_getheader (ex_ascii_read [ex_row 1 2])
         ex_run_xmatch [("gmadet_results/img.fits", "None")] 3
         ["I/345/gaia2"] (2, 2) = ([], Raise e).
Proof.
  apply (no_solver_grid_never_crosschecks (λ _ (w : unit), (0%float, w))
           ex_getheader (ex_ascii_read [ex_row 1 2]) ex_run_xmatch
           "img.fits" "No" "gmadet_results/" 1 3 tt (2, 2) 3 ["I/345/gaia2"]
           [("gmadet_results/img.fits", "None")]
           {| world := tt; scamp_runs := [] |}).
  - intros [?|[?|[]%elem_of_nil]%elem_of_cons]%elem_of_cons; done.
  - discriminate.
  - vm_compute. reflexivity.
Defined.

(** ** [crosscheck_with_catalogues]: the name of the original image *)

Lemma str_split_last (a b : string) :
  str_contains "_" b = false →
  ∃ l, l ≠ [] ∧ str_split "_" (a +:+ String "_" b) = l ++ [b].
Proof.
  intros Hb. induction a as [|c a (l & Hl & IH)].
  - exists [""]. split; [done|].
    rewrite (str_split_sep "_" "" b) by done. by rewrite str_split_no_sep.
  - rewrite str_app_cons. cbn [str_split]. rewrite IH.
    destruct (is_char c "_").
    + exists ("" :: l). done.
    + destruct l as [|p l]; [done|]. by exists (String c p :: l).
Qed.

Lemma substring_app (a x : string) : substring 0 (String.length a) (a +:+ x) = a.
Proof.
  induction a as [|c a IH]; simpl; [by destruct x|]. by rewrite IH.
Qed.

Lemma drop_last_app (a x : string) : drop_last (String.length x) (a +:+ x) = a.
Proof.
  unfold drop_last. rewrite str_app_length.
  replace (String.length a + String.length x - String.length x)%nat
    with (String.length a) by lia.
  apply substring_app.
Qed.

Lemma substring_length (n : nat) (s : string) :
  (n ≤ String.length s)%nat → String.length (substring 0 n s) = n.
Proof.
  revert s. induction n as [|n IH]; intros [|c s]; simpl; try lia;
    try done.
  intros H. rewrite IH; lia.
Qed.

Lemma fmt_d_length (n : Z) :
  1 ≤ n < 10000 →
  String.length (fmt_d n)
  = if n <? 10 then 1%nat else if n <? 100 then 2%nat
    else if n <? 1000 then 3%nat else 4%nat.
Proof.
  intros Hn.
  assert (forallb (λ n, Nat.eqb (String.length (fmt_d n))
                          (if n <? 10 then 1%nat else if n <? 100 then 2%nat
                           else if n <? 1000 then 3%nat else 4%nat))
            (seqZ 1 9999) = true) as Hall by (vm_compute; reflexivity).
  rewrite forallb_forall in Hall. apply Nat.eqb_eq, Hall.
  apply list_elem_of_In, elem_of_seqZ. lia.
Qed.

(** X14: for a quadrant file [<stem>_Q<n>] with [n] from 1 to 99 the loop
    over the image table recovers [<folder><stem>] as the name of the original
    image, whatever the stem (it may hold underscores) and whatever a file
    before it left in [idx]. *)
Theorem original_name_up_to_99 (Nb_cuts : Z * Z) (folder stem : string)
    (n : Z) (idx : option nat) :
  Nb_cuts ≠ (1, 1) → 1 ≤ n ≤ 99 →
  original_name_of Nb_cuts folder (stem +:+ "_Q" +:+ fmt_d n) idx
  = Ok (folder +:+ stem, Some (if n <? 10 then 3%nat else 4%nat)).
Proof.
  intros Hcuts Hn. unfold original_name_of, strip_length.
  rewrite bool_decide_eq_false_2 by done.
  change (stem +:+ "_Q" +:+ fmt_d n)
    with (stem +:+ String "_" ("Q" +:+ fmt_d n)).
  destruct (str_split_last stem ("Q" +:+ fmt_d n)) as (l & _ & ->).
  { simpl. apply fmt_d_no_underscore. }
  assert (String.length ("Q" +:+ fmt_d n)
          = if n <? 10 then 2%nat else 3%nat) as HlenQ.
  { rewrite str_app_length, fmt_d_length by lia.
    assert ((n <? 100) = true) as -> by (apply Z.ltb_lt; lia).
    by destruct (n <? 10). }
  rewrite last_snoc. unfold default, id. rewrite HlenQ.
  destruct (n <? 10) eqn:H10; cbn [Nat.eqb].
  - replace 3%nat with (String.length (String "_" ("Q" +:+ fmt_d n)))
      by (cbn [String.length]; by rewrite HlenQ).
    by rewrite drop_last_app.
  - replace 4%nat with (String.length (String "_" ("Q" +:+ fmt_d n)))
      by (cbn [String.length]; by rewrite HlenQ).
    by rewrite drop_last_app.
Qed.

Lemma original_name_up_to_99_witness :
  original_name_of (7, 7) "gmadet_results/" ("img_r" +:+ "_Q" +:+ fmt_d 42) None
  = Ok ("gmadet_results/" +:+ "img_r", Some (if 42 <? 10 then 3%nat else 4%nat)).
Proof.
  apply (original_name_up_to_99 (7, 7) "gmadet_results/" "img_r" 42 None);
    [discriminate | lia].
Defined.

(** X15: from the hundredth quadrant on the name of the original image is
    not recovered: the piece after the last underscore, [Q<n>], has four
    characters or more, neither branch sets [idx], and the name is cut with
    the [idx] an earlier file has left (3 or 4), which leaves a piece of the
    suffix, or [NameError] is raised when no file has set it. *)
Theorem original_name_beyond_99 (Nb_cuts : Z * Z) (folder stem : string)
    (n : Z) (idx : option nat) :
  Nb_cuts ≠ (1, 1) → 100 ≤ n < 10000 →
  idx = None ∨ idx = Some 3%nat ∨ idx = Some 4%nat →
  match original_name_of Nb_cuts folder (stem +:+ "_Q" +:+ fmt_d n) idx with
  | Raise e => e = NameError ∧ idx = None
  | Ok (original_name, idx') =>
      idx' = idx ∧ original_name ≠ folder +:+ stem
      ∧ ∃ k, idx = Some k
             ∧ original_name
               = folder +:+ drop_last k (stem +:+ "_Q" +:+ fmt_d n)
  end.
Proof.
  intros Hcuts Hn Hidx. unfold original_name_of, strip_length.
  rewrite bool_decide_eq_false_2 by done.
  assert (String.length (stem +:+ "_Q" +:+ fmt_d n)
          = (String.length stem + (2 + String.length (fmt_d n)))%nat) as Hlen.
  { by rewrite !str_app_length. }
  change (stem +:+ "_Q" +:+ fmt_d n)
    with (stem +:+ String "_" ("Q" +:+ fmt_d n)) in *.
  destruct (str_split_last stem ("Q" +:+ fmt_d n)) as (l & _ & ->).
  { simpl. apply fmt_d_no_underscore. }
  pose proof (fmt_d_length n) as Hd.
  assert ((n <? 10) = false) as H10 by (apply Z.ltb_ge; lia).
  assert ((n <? 100) = false) as H100 by (apply Z.ltb_ge; lia).
  rewrite H10, H100 in Hd.
  assert (String.length ("Q" +:+ fmt_d n)
          = if n <? 1000 then 4%nat else 5%nat) as HlenQ.
  { rewrite str_app_length, Hd by lia. by destruct (n <? 1000). }
  rewrite last_snoc. unfold default, id. rewrite HlenQ.
  assert (Nat.eqb (if n <? 1000 then 4 else 5) 2 = false) as ->
    by (by destruct (n <? 1000)).
  assert (Nat.eqb (if n <? 1000 then 4 else 5) 3 = false) as ->
    by (by destruct (n <? 1000)).
  destruct Hidx as [->|Hidx]; [done|].
  assert (∃ k, idx = Some k ∧ (k ≤ 4)%nat) as (k & -> & Hk).
  { destruct Hidx as [->| ->]; eexists; split; try done; lia. }
  split; [done|]. split; [|by exists k].
  intros Heq%String.app_inj. apply (f_equal String.length) in Heq.
  unfold drop_last in Heq. rewrite substring_length in Heq by lia.
  rewrite Hlen, Hd in Heq by lia. destruct (n <? 1000); lia.
Qed.

Lemma original_name_beyond_99_witness :
  match original_name_of (10, 10) "gmadet_results/"
          ("img" +:+ "_Q" +:+ fmt_d 100) (Some 4%nat) with
  | Raise e => e = NameError ∧ Some 4%nat = None
  | Ok (original_name, idx') =>
      idx' = Some 4%nat ∧ original_name ≠ "gmadet_results/" +:+ "img"
      ∧ ∃ k, Some 4%nat = Some k
             ∧ original_name
               = "gmadet_results/"
                 +:+ drop_last k ("img" +:+ "_Q" +:+ fmt_d 100)
  end.
Proof.
  apply (original_name_beyond_99 (10, 10) "gmadet_results/" "img" 100
           (Some 4%nat)); [discriminate | lia | auto].
Defined.

(** * [sextractor] and [psfex] *)

Section sextractor_runs.

Context {V : Type}.
Variable py_str : V → string.
Variables (FWHM_list : list V) (thresh : V).
Variable config : gmap string (gmap string string).
Variable verbose : string.

Local Abbreviation argv_at :=
  (sextractor_argv py_str FWHM_list thresh config verbose).
Local Abbreviation loop :=
  (sextractor_loop py_str FWHM_list thresh config verbose).

Lemma config_get_error (section key : string) (e : exn) :
  config_get config section key = Raise e → e = KeyError.
Proof.
  unfold config_get. destruct (config !! section) as [entries|]; [|congruence].
  destruct (entries !! key); congruence.
Qed.

(** Every command run is the command of the file at its position. *)
Lemma sextractor_loop_calls (i : nat) (filelist : list string) (k : nat)
    (argv : list string) :
  (loop i filelist).1 !! k = Some argv →
  ∃ filename, filelist !! k = Some filename
              ∧ argv_at (i + k) filename = Ok argv.
Proof.
  revert i k. induction filelist as [|filename filelist IH]; intros i k; [done|].
  cbn [sextractor_loop].
  destruct (argv_at i filename) as [argv0|e] eqn:Hargv; [|done].
  specialize (IH (S i)). destruct (loop (S i) filelist) as [calls r].
  destruct k as [|k]; cbn [fst lookup list_lookup] in *.
  - intros [= <-]. exists filename. by rewrite Nat.add_0_r.
  - intros Hk. destruct (IH k Hk) as (f & Hf & Hok).
    exists f. split; [done|]. by rewrite Nat.add_succ_r.
Qed.

(** With both configuration entries present the loop runs one command per
    file until the FWHM list is used up. *)
Lemma sextractor_loop_configured (conf param : string) (i : nat)
    (filelist : list string) :
  config_get config "sextractor" "conf" = Ok conf →
  config_get config "sextractor" "param" = Ok param →
  (i ≤ length FWHM_list)%nat →
  length (loop i filelist).1
  = (length filelist `min` (length FWHM_list - i))%nat
  ∧ (loop i filelist).2
    = if decide (i + length filelist ≤ length FWHM_list)%nat
      then Ok tt else Raise IndexError.
Proof.
  intros Hconf Hparam. revert i.
  induction filelist as [|filename filelist IH]; intros i Hi.
  { cbn. split; [done|]. by rewrite decide_True by lia. }
  cbn [sextractor_loop]. unfold sextractor_argv, list_item.
  destruct (os_path_split filename) as [path filename_ext].
  rewrite Hconf, Hparam. cbn [mbind result_bind].
  destruct (FWHM_list !! i) as [fwhm|] eqn:Hfwhm; cbn [mbind result_bind].
  - apply lookup_lt_Some in Hfwhm.
    destruct (IH (S i)) as [Hlen Hr]; [lia|].
    destruct (loop (S i) filelist) as [calls r]. cbn [fst snd length] in *.
    split; [lia|]. rewrite Hr.
    destruct (decide (S i + length filelist ≤ length FWHM_list)%nat);
      [rewrite decide_True by lia|rewrite decide_False by lia]; done.
  - apply lookup_ge_None in Hfwhm. cbn [fst snd length].
    split; [lia|]. by rewrite decide_False by lia.
Qed.

(** With a configuration entry missing the first file already ends the
    function, before any command. *)
Lemma sextractor_loop_no_conf (i : nat) (filename : string)
    (filelist : list string) (e : exn) :
  config_get config "sextractor" "conf" = Raise e →
  loop i (filename :: filelist) = ([], Raise KeyError).
Proof.
  intros Hconf. cbn [sextractor_loop]. unfold sextractor_argv.
  destruct (os_path_split filename) as [path filename_ext].
  rewrite Hconf. by apply config_get_error in Hconf as ->.
Qed.

Lemma sextractor_loop_no_param (conf : string) (i : nat) (filename : string)
    (filelist : list string) (e : exn) :
  config_get config "sextractor" "conf" = Ok conf →
  config_get config "sextractor" "param" = Raise e →
  loop i (filename :: filelist)
  = ([], match FWHM_list !! i with
         | Some _ => Raise KeyError
         | None => Raise IndexError
         end).
Proof.
  intros Hconf Hparam. cbn [sextractor_loop]. unfold sextractor_argv, list_item.
  destruct (os_path_split filename) as [path filename_ext].
  rewrite Hconf, Hparam. apply config_get_error in Hparam as ->.
  cbn [mbind result_bind]. by destruct (FWHM_list !! i).
Qed.

End sextractor_runs.

(** X16: [sextractor] runs one command per file, in the order of the
    list and each the command of its file, and returns when the list is done;
    it stops early in two cases only: with [IndexError] at the first file
    that has no entry in [FWHM_list], after the commands of the files before
    it, and with [KeyError] before any command when the configuration lacks
    the entry [conf] or [param] of [sextractor] and there is a file.  Entries
    of [FWHM_list] beyond the number of files are ignored. *)
Theorem sextractor_outcome {V : Type} (py_str : V → string)
    (filelist : list string) (FWHM_list : list V) (thresh : V)
    (telescope : string) (config : gmap string (gmap string string))
    (verbose : string) :
  (∀ k argv,
     (sextractor py_str filelist FWHM_list thresh telescope config verbose).1
       !! k = Some argv →
     ∃ filename, filelist !! k = Some filename
                 ∧ sextractor_argv py_str FWHM_list thresh config verbose
                     k filename = Ok argv)
  ∧ match (sextractor py_str filelist FWHM_list thresh telescope config
             verbose).2 with
    | Ok _ =>
        length (sextractor py_str filelist FWHM_list thresh telescope config
                  verbose).1 = length filelist
        ∧ (filelist = [] ∨ length filelist ≤ length FWHM_list)%nat
    | Raise e =>
        filelist ≠ []
        ∧ ((e = IndexError
            ∧ length (sextractor py_str filelist FWHM_list thresh telescope
                        config verbose).1 = length FWHM_list
            ∧ (length FWHM_list < length filelist)%nat)
           ∨ (e = KeyError
              ∧ (sextractor py_str filelist FWHM_list thresh telescope config
                   verbose).1 = []
              ∧ ∃ key, key ∈ ["conf"; "param"]
                       ∧ config_get config "sextractor" key = Raise KeyError))
    end.
Proof.
  unfold sextractor. split.
  { intros k argv Hk. by apply sextractor_loop_calls in Hk. }
  destruct (config_get config "sextractor" "conf") as [conf|e1] eqn:Hconf.
  2: { destruct filelist as [|filename rest]; [cbn; split; [done|by left]|].
       rewrite (sextractor_loop_no_conf py_str FWHM_list thresh config verbose
                  0 filename rest e1 Hconf). cbn [fst snd]. split; [done|].
       apply config_get_error in Hconf as Heq. subst e1.
       right. split; [done|]. split; [done|].
       exists "conf". split; [apply list_elem_of_here|done]. }
  destruct (config_get config "sextractor" "param") as [param|e1] eqn:Hparam.
  2: { destruct filelist as [|filename rest]; [cbn; split; [done|by left]|].
       rewrite (sextractor_loop_no_param py_str FWHM_list thresh config verbose
                  conf 0 filename rest e1 Hconf Hparam). cbn [fst snd].
       apply config_get_error in Hparam as Heq. subst e1.
       destruct (FWHM_list !! 0%nat) as [fwhm|] eqn:Hfwhm.
       - split; [done|]. right. split; [done|]. split; [done|].
         exists "param". split; [|done].
         apply list_elem_of_further, list_elem_of_here.
       - split; [done|]. left. apply lookup_ge_None in Hfwhm.
         split; [done|]. simpl in *. split; lia. }
  destruct (sextractor_loop_configured py_str FWHM_list thresh config verbose
              conf param 0 filelist Hconf Hparam) as [Hlen Hr]; [lia|].
  rewrite Hr, Hlen. rewrite Nat.sub_0_r, Nat.add_0_l.
  destruct (decide (length filelist ≤ length FWHM_list)%nat) as [Hle|Hgt].
  - split; [lia|by right].
  - split; [by destruct filelist; [simpl in Hgt; lia|]|]. left.
    split; [done|]. split; lia.
Qed.

(** A FWHM for every file rules [IndexError] out. *)
Lemma sextractor_enough_FWHM {V : Type} (py_str : V → string)
    (filelist : list string) (FWHM_list : list V) (thresh : V)
    (telescope : string) (config : gmap string (gmap string string))
    (verbose : string) :
  (length filelist ≤ length FWHM_list)%nat →
  (sextractor py_str filelist FWHM_list thresh telescope config verbose).2
  ≠ Raise IndexError.
Proof.
  intros Hlen. unfold sextractor.
  destruct filelist as [|filename rest]; [done|].
  destruct (config_get config "sextractor" "conf") as [conf|e1] eqn:Hconf.
  2: { by rewrite (sextractor_loop_no_conf py_str FWHM_list thresh config
                     verbose 0 filename rest e1 Hconf). }
  destruct (config_get config "sextractor" "param") as [param|e1] eqn:Hparam.
  2: { rewrite (sextractor_loop_no_param py_str FWHM_list thresh config
                  verbose conf 0 filename rest e1 Hconf Hparam).
       destruct (FWHM_list !! 0%nat) eqn:Hfwhm; [done|].
       apply lookup_ge_None in Hfwhm. simpl in Hlen. lia. }
  destruct (sextractor_loop_configured py_str FWHM_list thresh config verbose
              conf param 0 (filename :: rest) Hconf Hparam) as [_ ->]; [lia|].
  by rewrite decide_True by (simpl in *; lia).
Qed.

Section psfex_runs.

Variable py_float : string → result float.
Variable psfex_xml_TD : string → result (list string).
Variable config : gmap string (gmap string string).
Variable useweight : bool.

Lemma psfex_image_Ok (ima : string) (events : list psfex_event) (fwhm : float) :
  psfex_image py_float psfex_xml_TD config useweight ima = (events, Ok fwhm) →
  mean_of_cells py_float psfex_xml_TD ima fwhm
  ∧ Mv_p "snap_preppsfex.fits" ((os_path_splitext ima).1 +:+ "_psf.fits")
    ∈ events.
Proof.
  unfold psfex_image.
  destruct (config_get config "psfex" "sextractor") as [sex_conf|]; [|done].
  destruct (config_get config "psfex" "param") as [param|]; [|done].
  cbn [mbind result_bind].
  destruct (config_get config "psfex" "conf") as [conf|]; [|done].
  destruct (psfex_xml_TD ima) as [TD|] eqn:HTD; [|done].
  cbn [mbind result_bind]. unfold list_item.
  rewrite !lookup_take_lt, !lookup_drop by lia. cbn [Nat.add].
  destruct (TD !! 20%nat) as [c0|] eqn:H0; [|done]. cbn [mbind result_bind].
  destruct (py_float c0) as [f0|] eqn:Hf0; [|done]. cbn [mbind result_bind].
  destruct (TD !! 21%nat) as [c1|] eqn:H1; [|done]. cbn [mbind result_bind].
  destruct (py_float c1) as [f1|] eqn:Hf1; [|done]. cbn [mbind result_bind].
  destruct (TD !! 22%nat) as [c2|] eqn:H2; [|done]. cbn [mbind result_bind].
  destruct (py_float c2) as [f2|] eqn:Hf2; [|done]. cbn [mbind result_bind].
  intros [= <- <-]. split.
  - by exists TD, c0, c1, c2, f0, f2.
  - do 2 apply list_elem_of_further. apply list_elem_of_here.
Qed.

Lemma psfex_loop_Ok (imagelist : list string) (events : list psfex_event)
    (FWHM_list : list float) :
  psfex_loop py_float psfex_xml_TD config useweight imagelist
    = (events, Ok FWHM_list) →
  Forall2 (mean_of_cells py_float psfex_xml_TD) imagelist FWHM_list
  ∧ ∀ ima, ima ∈ imagelist →
      Mv_p "snap_preppsfex.fits" ((os_path_splitext ima).1 +:+ "_psf.fits")
      ∈ events.
Proof.
  revert events FWHM_list.
  induction imagelist as [|ima imagelist IH]; intros events FWHM_list.
  { intros [= <- <-]. split; [constructor|]. by intros ima []%elem_of_nil. }
  cbn [psfex_loop].
  destruct (psfex_image _ _ _ _ ima) as [ev [fwhm|e]] eqn:Hima; [|done].
  apply psfex_image_Ok in Hima as [Hmean Hmv].
  destruct (psfex_loop _ _ _ _ imagelist) as [ev' [l|e]]; [|done].
  cbn [mbind result_bind]. intros [= <- <-].
  destruct (IH ev' l eq_refl) as [Hall Hmvs]. split; [by constructor|].
  intros ima' [->|Hin]%elem_of_cons; apply elem_of_app; [by left|right; auto].
Qed.

End psfex_runs.

(** X17: when [psfex] returns, its list has one FWHM per image, in the
    order of the images: the number in cell 21 of the image's table, whose
    cells 20 and 22 hold numbers too; the PSF snapshot of every image was
    moved to [<root>_psf.fits]; and [sextractor], run on the same images with
    that list, never ends in [IndexError]. *)
Theorem psfex_one_FWHM_per_image
    (py_float : string → result float)
    (psfex_xml_TD : string → result (list string))
    (imagelist : list string) (config : gmap string (gmap string string))
    (useweight : bool) (FWHM_list : list float) :
  (psfex py_float psfex_xml_TD imagelist config useweight).2 = Ok FWHM_list →
  Forall2 (mean_of_cells py_float psfex_xml_TD) imagelist FWHM_list
  ∧ (∀ ima, ima ∈ imagelist →
       Mv_p "snap_preppsfex.fits" ((os_path_splitext ima).1 +:+ "_psf.fits")
       ∈ (psfex py_float psfex_xml_TD imagelist config useweight).1)
  ∧ ∀ (py_str : float → string) thresh telescope config' verbose,
      (sextractor py_str imagelist FWHM_list thresh telescope config'
         verbose).2 ≠ Raise IndexError.
Proof.
  unfold psfex. intros Hret.
  destruct (psfex_loop py_float psfex_xml_TD config useweight imagelist)
    as [events r] eqn:Hloop. cbn [fst snd] in *. subst r.
  apply psfex_loop_Ok in Hloop as [Hall Hmv].
  split; [done|]. split; [done|]. intros py_str thresh telescope config' verbose.
  apply sextractor_enough_FWHM. by rewrite (Forall2_length _ _ _ Hall).
Qed.

Lemma psfex_one_FWHM_per_image_witness :
  Forall2 (mean_of_cells ex_py_float ex_TD) ["a.fits"; "dir/b.new.fits"]
    [2.5%float; 2.5%float]
  ∧ (∀ ima, ima ∈ ["a.fits"; "dir/b.new.fits"] →
       Mv_p "snap_preppsfex.fits" ((os_path_splitext ima).1 +:+ "_psf.fits")
       ∈ (psfex ex_py_float ex_TD ["a.fits"; "dir/b.new.fits"] ex_config
            false).1)
  ∧ ∀ (py_str : float → string) thresh telescope config' verbose,
      (sextractor py_str ["a.fits"; "dir/b.new.fits"] [2.5%float; 2.5%float]
         thresh telescope config' verbose).2 ≠ Raise IndexError.
Proof.
  apply (psfex_one_FWHM_per_image ex_py_float ex_TD
           ["a.fits"; "dir/b.new.fits"] ex_config false).
  vm_compute. reflexivity.
Defined.

(** * [select_good_stars] *)

(** ** Fields and lines *)

(** The fields [split()] returns are not empty and hold no white space. *)
Lemma split_ws_field (s w : string) :
  w ∈ split_ws s → w ≠ "" ∧ no_space w = true.
Proof.
  revert w. induction s as [|c s IH]; intros w; cbn [split_ws].
  { intros []%elem_of_nil. }
  destruct (py_isspace c) eqn:Hc; [apply IH|].
  destruct s as [|d s'].
  { intros ->%list_elem_of_singleton. split; [done|]. simpl. by rewrite Hc. }
  destruct (py_isspace d) eqn:Hd.
  { intros [->|Hw]%elem_of_cons; [|by apply IH].
    split; [done|]. simpl. by rewrite Hc. }
  destruct (split_ws (String d s')) as [|w0 ws] eqn:Hsplit.
  { intros ->%list_elem_of_singleton. split; [done|]. simpl. by rewrite Hc. }
  intros [->|Hw]%elem_of_cons.
  - split; [done|]. cbn [no_space]. rewrite Hc.
    by destruct (IH w0 (list_elem_of_here _ _)) as [_ ->].
  - apply IH. by apply list_elem_of_further.
Qed.

Lemma str_app_char (c : ascii) (s : string) :
  String c "" +:+ s = String c s.
Proof. reflexivity. Qed.

(** A field followed by a white space character is split off as it is. *)
Lemma split_ws_app (w rest : string) (c : ascii) :
  w ≠ "" → no_space w = true → py_isspace c = true →
  split_ws (w +:+ String c rest) = w :: split_ws rest.
Proof.
  intros Hne Hw Hc. induction w as [|x w IH]; [done|].
  cbn [no_space] in Hw. apply andb_true_iff in Hw as [Hx Hw].
  apply negb_true_iff in Hx. rewrite str_app_cons.
  destruct w as [|d w'].
  - change ("" +:+ String c rest) with (String c rest).
    cbn [split_ws]. by rewrite Hx, Hc.
  - specialize (IH ltac:(done) Hw). rewrite str_app_cons in IH |- *.
    cbn [no_space] in Hw. apply andb_true_iff in Hw as [Hd _].
    apply negb_true_iff in Hd.
    change (split_ws (String x (String d (w' +:+ String c rest))))
      with (if py_isspace x then split_ws (String d (w' +:+ String c rest))
            else if py_isspace d
                 then String x "" :: split_ws (String d (w' +:+ String c rest))
                 else match split_ws (String d (w' +:+ String c rest)) with
                      | w :: ws => String x w :: ws
                      | [] => [String x ""]
                      end).
    by rewrite Hx, Hd, IH.
Qed.

Lemma readlines_nonempty (content : string) :
  Forall (λ l, l ≠ "") (readlines content).
Proof.
  induction content as [|c rest IH]; cbn [readlines]; [constructor|].
  destruct (is_char c "010"); [by constructor|].
  destruct (readlines rest) as [|l ls]; [by repeat constructor|].
  apply Forall_cons in IH as [_ IH]. by constructor.
Qed.

Section good_stars.

Variable py_float : string → result float.
Variable limiting_mag_err : float.

Local Abbreviation star := (good_star py_float limiting_mag_err).
Local Abbreviation while_loop := (while_lajna py_float limiting_mag_err).

(** What a turn writes is a good line, made of fields of the first and of
    the fourth line read, and the fourth line has seven fields at least. *)
Lemma good_star_written (a d line : string) :
  star a d = Ok (Some line) → good_line py_float limiting_mag_err line.
Proof.
  unfold good_star, list_item.
  destruct (split_ws a !! 0%nat) as [xpos|] eqn:Hx; [|done].
  destruct (split_ws a !! 1%nat) as [ypos|] eqn:Hy; [|done].
  destruct (split_ws d !! 4%nat) as [mag|] eqn:Hmag; [|done].
  destruct (split_ws d !! 5%nat) as [merr|] eqn:Hmerr; [|done].
  cbn [mbind result_bind].
  destruct (if (length (split_ws d) <? 8)%nat then _ else _)
    as [errmessage|]; [|done].
  cbn [mbind result_bind].
  destruct (bool_decide (errmessage = "NoError")); [|done].
  case_bool_decide as Hmag'; [done|]. case_bool_decide as Hmerr'; [done|].
  cbn [negb orb].
  destruct (py_float merr) as [err|] eqn:Herr; [|done]. cbn [mbind result_bind].
  destruct (err <? limiting_mag_err)%float eqn:Hlt; [|done].
  intros [= <-]. exists xpos, ypos, mag, merr, err.
  split; [done|]. split; [|done].
  apply list_elem_of_lookup_2, split_ws_field in Hx as [? ?].
  apply list_elem_of_lookup_2, split_ws_field in Hy as [? ?].
  apply list_elem_of_lookup_2, split_ws_field in Hmag as [? ?].
  apply list_elem_of_lookup_2, split_ws_field in Hmerr as [? ?].
  rewrite !str_app_char. by rewrite !split_ws_app.
Qed.

(** A turn that does not raise has found seven fields on its fourth line,
    which is then not empty. *)
Lemma good_star_Ok (a d : string) (written : option string) :
  star a d = Ok written → d ≠ "".
Proof.
  intros H ->. unfold good_star, list_item in H.
  destruct (split_ws a !! 0%nat); [|done].
  by destruct (split_ws a !! 1%nat).
Qed.

Lemma while_lajna_ind (P : list string → Prop) :
  (∀ f1, (length f1 < 5)%nat → P f1) →
  (∀ a b c d lajna f1, P f1 → P (a :: b :: c :: d :: lajna :: f1)) →
  ∀ f1, P f1.
Proof.
  intros Hsmall Hstep f1. remember (length f1) as n eqn:Hn. revert f1 Hn.
  induction n as [n IH] using lt_wf_ind. intros f1 ->.
  destruct f1 as [|a [|b [|c [|d [|lajna f1]]]]];
    try (apply Hsmall; simpl; lia).
  apply Hstep. apply (IH (length f1)); [simpl; lia|done].
Qed.

Lemma while_lajna_small (f1 : list string) :
  (length f1 < 5)%nat →
  while_loop f1
  = match star (nth 0 f1 "") (nth 3 f1 "") with
    | Raise e => ([], Raise e)
    | Ok written => (option_list written, Ok tt)
    end.
Proof.
  intros Hlen.
  destruct f1 as [|a [|b [|c [|d [|lajna f1]]]]]; try done.
  simpl in Hlen. lia.
Qed.

(** All that the loop writes are good lines, however the loop ends. *)
Lemma while_lajna_written (f1 : list string) (line : string) :
  line ∈ (while_loop f1).1 → good_line py_float limiting_mag_err line.
Proof.
  induction f1 as [f1 Hlen|a b c d lajna f1 IH] using while_lajna_ind.
  - rewrite while_lajna_small by done.
    destruct (star _ _) as [[w|]|e] eqn:Hstar; cbn [fst option_list].
    + intros ->%list_elem_of_singleton. by eapply good_star_written.
    + intros []%elem_of_nil.
    + intros []%elem_of_nil.
  - cbn [while_lajna].
    destruct (star a d) as [w|e] eqn:Hstar; [|intros []%elem_of_nil].
    assert (∀ l, l ∈ option_list w → good_line py_float limiting_mag_err l)
      as Hw.
    { destruct w as [w|]; cbn [option_list].
      - intros l ->%list_elem_of_singleton. by eapply good_star_written.
      - by intros l []%elem_of_nil. }
    destruct lajna as [|x lajna]; cbn [fst]; [apply Hw|].
    destruct (while_loop f1) as [rest r]. cbn [fst] in *.
    intros [?|?]%elem_of_app; auto.
Qed.

(** The loop ends normally only after a whole number of turns, the last of
    which finds the end of the file where the line that would start a new
    turn is looked for; it writes one line per turn at most. *)
Lemma while_lajna_returns (f1 : list string) :
  Forall (λ l, l ≠ "") f1 →
  (while_loop f1).2 = Ok tt →
  (length f1 `mod` 5 = 4)%nat
  ∧ (length (while_loop f1).1 ≤ (length f1 + 1) `div` 5)%nat.
Proof.
  induction f1 as [f1 Hlen|a b c d lajna f1 IH] using while_lajna_ind;
    intros Hne.
  - rewrite while_lajna_small by done.
    destruct (star _ _) as [w|e] eqn:Hstar; [|done].
    apply good_star_Ok in Hstar. intros _.
    assert (length f1 = 4%nat) as Hfour.
    { destruct f1 as [|? [|? [|? [|? [|? ?]]]]]; simpl in *; try done. lia. }
    rewrite Hfour. split; [reflexivity|]. cbn [fst].
    change ((4 + 1) `div` 5)%nat with 1%nat. destruct w; simpl; lia.
  - cbn [while_lajna].
    destruct (star a d) as [w|e] eqn:Hstar; [|done].
    do 4 apply Forall_cons in Hne as [_ Hne].
    apply Forall_cons in Hne as [Hlajna Hne].
    destruct lajna as [|x lajna]; [done|].
    destruct (while_loop f1) as [rest r]. cbn [fst snd] in *.
    intros Hr. destruct (IH Hne Hr) as [Hmod Hcount].
    cbn [length]. rewrite length_app.
    replace (S (S (S (S (S (length f1))))))%nat with (length f1 + 1 * 5)%nat
      by lia.
    rewrite Nat.Div0.mod_add. split; [exact Hmod|].
    replace (length f1 + 1 * 5 + 1)%nat with (length f1 + 1 + 1 * 5)%nat by lia.
    rewrite Nat.div_add by done.
    assert (length (option_list w) ≤ 1)%nat by (destruct w; simpl; lia). lia.
Qed.

End good_stars.

Section select_good_stars_runs.

Variable py_float : string → result float.
Variable open_read : string → result string.
Variable limiting_mag_err : float.

Local Abbreviation stars_of := (good_stars_of py_float limiting_mag_err).
Local Abbreviation select :=
  (λ filelist, select_good_stars py_float open_read filelist limiting_mag_err).

Lemma good_stars_of_short (content : string) :
  (length (readlines content) ≤ 75)%nat → stars_of content = ([], Ok tt).
Proof.
  intros Hlen. unfold good_stars_of.
  rewrite nth_lookup, (lookup_ge_None_2 _ 75) by lia. done.
Qed.

Lemma good_stars_of_long (content : string) :
  (75 < length (readlines content))%nat →
  stars_of content
  = while_lajna py_float limiting_mag_err (drop 76 (readlines content)).
Proof.
  intros Hlen. unfold good_stars_of. rewrite nth_lookup.
  destruct (lookup_lt_is_Some_2 (readlines content) 75 Hlen) as [l Hl].
  rewrite Hl. cbn [default].
  pose proof (readlines_nonempty content) as Hne.
  rewrite Forall_forall in Hne.
  apply list_elem_of_lookup_2, Hne in Hl. by destruct l.
Qed.

Lemma good_stars_of_written (content line : string) :
  line ∈ (stars_of content).1 → good_line py_float limiting_mag_err line.
Proof.
  destruct (decide (length (readlines content) ≤ 75)%nat) as [Hle|Hgt].
  - rewrite good_stars_of_short by done. intros []%elem_of_nil.
  - rewrite good_stars_of_long by lia. apply while_lajna_written.
Qed.

Lemma good_stars_of_returns (content : string) :
  (stars_of content).2 = Ok tt →
  ((length (readlines content) ≤ 75)%nat ∧ (stars_of content).1 = []
   ∨ (80 ≤ length (readlines content))%nat
     ∧ (length (readlines content) `mod` 5 = 0)%nat)
  ∧ (length (stars_of content).1
     ≤ (length (readlines content) - 75) `div` 5)%nat.
Proof.
  destruct (decide (length (readlines content) ≤ 75)%nat) as [Hle|Hgt].
  - rewrite good_stars_of_short by done. intros _. split; [by left|].
    simpl. lia.
  - rewrite good_stars_of_long by lia. intros Hr.
    apply while_lajna_returns in Hr as [Hmod Hcount];
      [|apply Forall_drop, readlines_nonempty].
    rewrite length_drop in Hmod, Hcount.
    replace (length (readlines content) - 76 + 1)%nat
      with (length (readlines content) - 75)%nat in Hcount by lia.
    split; [right|done].
    pose proof (Nat.div_mod_eq (length (readlines content) - 76) 5) as Hm.
    rewrite Hmod in Hm. split; [lia|].
    replace (length (readlines content))
      with (((length (readlines content) - 76) `div` 5 + 16) * 5)%nat by lia.
    apply Nat.Div0.mod_mul.
Qed.

(** The files written are those of the images before the one that ends the
    function, and of that one when its [.mag.1] file could be opened. *)
Lemma select_good_stars_files (filelist : list string) (path : string)
    (lines : list string) :
  (path, lines) ∈ (select filelist).1 →
  ∃ filename content,
    filename ∈ filelist
    ∧ path = resmagfile_of filename
    ∧ open_read (magfile_of filename) = Ok content
    ∧ lines = (stars_of content).1.
Proof.
  induction filelist as [|filename filelist IH]; cbn [select_good_stars].
  { intros []%elem_of_nil. }
  unfold magfile_of, resmagfile_of in *.
  destruct (os_path_split filename) as [p filename_ext] eqn:Hsplit.
  destruct (open_read _) as [content|e] eqn:Hopen; [|intros []%elem_of_nil].
  destruct (stars_of content) as [written [[]|e]] eqn:Hstars.
  - destruct (select_good_stars _ _ filelist _) as [files r]. cbn [fst] in *.
    intros [[= -> ->]|Hin]%elem_of_cons.
    + exists filename, content. rewrite Hsplit, Hstars.
      split; [apply list_elem_of_here|done].
    + destruct (IH Hin) as (f & c & Hf & ? & ? & ?). exists f, c.
      split; [by apply list_elem_of_further|done].
  - cbn [fst]. intros [= -> ->]%list_elem_of_singleton.
    exists filename, content. rewrite Hsplit, Hstars.
    split; [apply list_elem_of_here|done].
Qed.

Lemma select_good_stars_Ok (filelist : list string) :
  (select filelist).2 = Ok tt →
  (select filelist).1.*1 = resmagfile_of <$> filelist
  ∧ ∀ filename, filename ∈ filelist →
      ∃ content, open_read (magfile_of filename) = Ok content
                 ∧ (stars_of content).2 = Ok tt
                 ∧ (resmagfile_of filename, (stars_of content).1)
                   ∈ (select filelist).1.
Proof.
  induction filelist as [|filename filelist IH]; cbn [select_good_stars].
  { intros _. split; [done|]. by intros f []%elem_of_nil. }
  unfold magfile_of, resmagfile_of in *.
  destruct (os_path_split filename) as [p filename_ext] eqn:Hsplit.
  destruct (open_read _) as [content|e] eqn:Hopen; [|done].
  destruct (stars_of content) as [written [[]|e]] eqn:Hstars; [|done].
  destruct (select_good_stars _ _ filelist _) as [files r]. cbn [fst snd] in *.
  intros Hr. destruct (IH Hr) as [Hpaths Hall]. split.
  - cbn. by rewrite Hpaths, Hsplit.
  - intros f [->|Hin]%elem_of_cons.
    + exists content. rewrite Hsplit, Hstars. split; [done|]. split; [done|].
      apply list_elem_of_here.
    + destruct (Hall f Hin) as (c & ? & ? & ?). exists c.
      split; [done|]. split; [done|]. by apply list_elem_of_further.
Qed.

End select_good_stars_runs.

(** X18: every line that [select_good_stars] writes, to whatever file and
    also in a run that ends in an exception, has four fields separated by one
    space and a newline at its end, and reads back as these four fields; its
    magnitude and its error are not ["INDEF"], and the error is a number
    below [limiting_mag_err]. *)
Theorem select_good_stars_writes_good_lines
    (py_float : string → result float) (open_read : string → result string)
    (filelist : list string) (limiting_mag_err : float)
    (path : string) (lines : list string) (line : string) :
  (path, lines)
    ∈ (select_good_stars py_float open_read filelist limiting_mag_err).1 →
  line ∈ lines →
  good_line py_float limiting_mag_err line.
Proof.
  intros (filename & content & _ & _ & _ & ->)%select_good_stars_files.
  apply good_stars_of_written.
Qed.

Lemma select_good_stars_writes_good_lines_witness :
  good_line ex_py_float 0.5
    ("10.52 20.48 18.1 0.1" +:+ String "010" EmptyString).
Proof.
  apply (select_good_stars_writes_good_lines ex_py_float ex_open_read
           ["gmadet_results/img.fits"] 0.5
           "gmadet_results/img.magfiltered"
           ["10.52 20.48 18.1 0.1" +:+ String "010" EmptyString]).
  - vm_compute. apply list_elem_of_here.
  - apply list_elem_of_here.
Defined.

(** X19: [select_good_stars] returns only if the [.mag.1] file of every
    image could be opened and has either 75 lines at most, and then nothing is
    selected from it, or 80 lines at least and a number of lines that is a
    multiple of 5: the 75 lines of the header followed by whole records of
    five lines.  It then has written one [.magfiltered] file per image, in
    the order of the list, with one line per record at most. *)
Theorem select_good_stars_returns_only_if
    (py_float : string → result float) (open_read : string → result string)
    (filelist : list string) (limiting_mag_err : float) :
  (select_good_stars py_float open_read filelist limiting_mag_err).2 = Ok tt →
  (select_good_stars py_float open_read filelist limiting_mag_err).1.*1
  = resmagfile_of <$> filelist
  ∧ ∀ filename, filename ∈ filelist →
      ∃ content lines,
        open_read (magfile_of filename) = Ok content
        ∧ (resmagfile_of filename, lines)
          ∈ (select_good_stars py_float open_read filelist limiting_mag_err).1
        ∧ ((length (readlines content) ≤ 75)%nat ∧ lines = []
           ∨ (80 ≤ length (readlines content))%nat
             ∧ (length (readlines content) `mod` 5 = 0)%nat)
        ∧ (length lines ≤ (length (readlines content) - 75) `div` 5)%nat.
Proof.
  intros Hret.
  destruct (select_good_stars_Ok py_float open_read limiting_mag_err filelist
              Hret) as [Hpaths Hall].
  split; [done|]. intros filename Hin.
  destruct (Hall filename Hin) as (content & Hopen & Hr & Hfile).
  exists content, (good_stars_of py_float limiting_mag_err content).1.
  split; [done|]. split; [done|]. by apply good_stars_of_returns.
Qed.

Lemma select_good_stars_returns_only_if_witness :
  (select_good_stars ex_py_float ex_open_read ["gmadet_results/img.fits"]
     0.5).1.*1
  = resmagfile_of <$> ["gmadet_results/img.fits"]
  ∧ ∀ filename, filename ∈ ["gmadet_results/img.fits"] →
      ∃ content lines,
        ex_open_read (magfile_of filename) = Ok content
        ∧ (resmagfile_of filename, lines)
          ∈ (select_good_stars ex_py_float ex_open_read
               ["gmadet_results/img.fits"] 0.5).1
        ∧ ((length (readlines content) ≤ 75)%nat ∧ lines = []
           ∨ (80 ≤ length (readlines content))%nat
             ∧ (length (readlines content) `mod` 5 = 0)%nat)
        ∧ (length lines ≤ (length (readlines content) - 75) `div` 5)%nat.
Proof.
  apply (select_good_stars_returns_only_if ex_py_float ex_open_read
           ["gmadet_results/img.fits"] 0.5).
  vm_compute. reflexivity.
Defined.

(** * The labels from [astrometric_calib] to [crosscheck_with_catalogues] *)

(** X20: the labels [astrometric_calib] writes with scamp for a grid other
    than 1 x 1 are read back by the merge loop as the cell they were written
    for: the row at position [i * c + j] of the image table gets the offset
    [int(NAXIS2 / c) * j] in x and [int(NAXIS1 / r) * i] in y, without
    [ValueError]. *)
Theorem scamp_labels_read_back {W : Type}
    (scamp : string → W → float * W)
    (getheader : string → result (gmap string card))
    (filename outputDir : string) (accuracy : float) (itermax : Z) (w : W)
    (r c : Z) (table : list (string * string)) (st : solver_state)
    (i j : Z) (file label : string) (header2 : gmap string card)
    (Naxis11 Naxis22 : Z) :
  0 < r → 0 < c → (r, c) ≠ (1, 1) →
  astrometric_calib scamp getheader filename (r, c) "scamp" outputDir
    accuracy itermax w = Ok (table, st) →
  0 ≤ i < r → 0 ≤ j < c →
  table !! Z.to_nat (i * c + j) = Some (file, label) →
  quadrant_size header2 (r, c) = Ok (Naxis11, Naxis22) →
  quadrant_offset header2 (r, c) label = Ok (Naxis22 * j, Naxis11 * i).
Proof.
  intros Hr Hc Hgrid Hcalib Hi Hj Hrow Hsize. unfold astrometric_calib in Hcalib.
  destruct (os_path_split filename) as [path filename_ext].
  cbn [bool_decide decide_rel fst snd] in Hcalib.
  rewrite (bool_decide_eq_true_2 ("scamp" ∈ ["scamp"; "astrometrynet"]))
    in Hcalib by (apply list_elem_of_here).
  rewrite (bool_decide_eq_true_2 ("scamp" = "scamp")) in Hcalib by done.
  assert ((1 <? r) || (1 <? c) = true) as Hcut.
  { apply orb_true_iff. rewrite !Z.ltb_lt.
    destruct (decide (r = 1)) as [->|]; [|lia].
    destruct (decide (c = 1)) as [->|]; [done|lia]. }
  rewrite Hcut in Hcalib.
  destruct (scamp_grid scamp (folder_of path +:+ outputDir)
              (stem_of filename_ext) (extension_of filename_ext)
              accuracy itermax c Hc (Z.to_nat r) 0
              {| index := 0; filelist := []; quadrant := [];
                 solver := {| world := w; scamp_runs := [] |} |})
    as (s' & Hfor & _ & _ & Hq); [done|].
  rewrite Z2Nat.id in Hfor, Hq by lia. simpl in Hq.
  unfold grid_loop, range in *. cbn [fst snd] in Hcalib.
  rewrite Hfor in Hcalib. cbn [mbind result_bind] in Hcalib.
  injection Hcalib as <- <-.
  unfold image_table_of in Hrow. apply lookup_zip_with_Some in Hrow
    as (f & l & [= <- <-] & _ & Hl).
  rewrite Hq, list_lookup_fmap, lookup_seqZ_lt in Hl by nia.
  simpl in Hl. rewrite Z2Nat.id in Hl by nia.
  replace (0 * c + (i * c + j)) with (i * c + j) in Hl by lia.
  injection Hl as <-.
  assert ((i * c + j) / c = i) as -> by (symmetry; apply Z.div_unique with j; lia).
  assert ((i * c + j) `mod` c = j) as ->
    by (symmetry; apply Z.mod_unique with i; lia).
  unfold quadrant_offset. rewrite Hsize. cbn [mbind result_bind].
  rewrite bool_decide_eq_false_2 by done.
  rewrite unpack_quadrant_label. cbn [mbind result_bind py_int].
  rewrite !int_of_str_fmt_d by lia. done.
Qed.

Lemma scamp_labels_read_back_witness :
  quadrant_offset ex_header (2, 2) "Q3_1_0" = Ok (30 * 0, 50 * 1).
Proof.
  apply (scamp_labels_read_back (λ _ (w : unit), (0%float, w))
           (λ _, Raise OSError) "img.fits" "gmadet_results/" 1 3 tt 2 2
           [("gmadet_results/img_Q1.fits", "Q1_0_0");
            ("gmadet_results/img_Q2.fits", "Q2_0_1");
            ("gmadet_results/img_Q3.fits", "Q3_1_0");
            ("gmadet_results/img_Q4.fits", "Q4_1_1")]
           {| world := tt;
              scamp_runs := ["gmadet_results/img_Q1.fits";
                             "gmadet_results/img_Q2.fits";
                             "gmadet_results/img_Q3.fits";
                             "gmadet_results/img_Q4.fits"] |}
           1 0 "gmadet_results/img_Q3.fits" "Q3_1_0" ex_header 50 30);
    try lia; try discriminate; vm_compute; reflexivity.
Defined.
